(** * PlotJuggler, DataLoadCSV: column-type inference and timestamp parsing

    A shallow embedding of [plotjuggler_plugins/DataLoadCSV/timestamp_parsing.cpp]
    and the properties of it that the design document states.

    Conventions of the embedding.
    - A [std::string] is a [string]; positions ([size_t]) are [nat], and
      [std::string::npos] is [None].
    - [int] and [int64_t] are [Z] with the two's-complement wrap-around
      written out ([wrap32], [wrap64]).
    - A C++ expression evaluates to an [outcome]: a value, a thrown
      exception, or undefined behaviour (an out-of-bounds [back()]).
    - A [std::string] handed over as [const char*] through [c_str()] is read
      up to its first NUL ([c_str]); the program's string constants hold
      none.
    - [double] is IEEE-754 binary64 as specified by [SpecFloat].
    - Every call of the calendar parser [date::parse] is recorded, in
      program order, next to the outcome of the entry points ([run]).
    - The two external parsers, [date::parse] (H. Hinnant's date library) and
      [QLocale::c().toDouble] (Qt), are parameters of the embedding; a
      reference model of each is given for closed examples. *)

From Stdlib Require Import ZArith List Bool Ascii String Lia SpecFloat.
Import ListNotations.

Local Open Scope string_scope.
Local Open Scope Z_scope.

(** ** C++ evaluation outcomes *)

Inductive exn : Type := invalid_argument | out_of_range.

Inductive outcome (A : Type) : Type :=
| Ret (a : A)
| Throw (e : exn)
| Undefined.

Arguments Ret {A} a.
Arguments Throw {A} e.
Arguments Undefined {A}.

Definition obind {A B : Type} (m : outcome A) (k : A -> outcome B) : outcome B :=
  match m with
  | Ret a => k a
  | Throw e => Throw e
  | Undefined => Undefined
  end.

(** [try { m } catch (...) { h }] *)
Definition ocatch {A : Type} (m : outcome A) (h : outcome A) : outcome A :=
  match m with
  | Throw _ => h
  | _ => m
  end.

(** A call [in >> date::parse(fmt, tp)] on a stream holding [input]. *)
Record parse_call : Type := { call_fmt : string; call_input : string }.

(** An entry point's run: its outcome and the calendar-parser calls it made. *)
Definition run (A : Type) : Type := (outcome A * list parse_call)%type.

Definition rret {A : Type} (a : A) : run A := (Ret a, []).

Definition rlift {A : Type} (m : outcome A) : run A := (m, []).

Definition rbind {A B : Type} (m : run A) (k : A -> run B) : run B :=
  match fst m with
  | Ret a => (fst (k a), (snd m ++ snd (k a))%list)
  | Throw e => (Throw e, snd m)
  | Undefined => (Undefined, snd m)
  end.

(** [try { m } catch (...) { h }] for a run. *)
Definition rcatch {A : Type} (m : run A) (h : run A) : run A :=
  match fst m with
  | Throw _ => (fst h, (snd m ++ snd h)%list)
  | _ => m
  end.

Declare Scope run_scope.
Delimit Scope run_scope with run.
Notation "x <- m ;; k" := (rbind m (fun x => k))
  (at level 61, m at next level, right associativity) : run_scope.

Declare Scope outcome_scope.
Delimit Scope outcome_scope with outcome.
Notation "x <- m ;; k" := (obind m (fun x => k))
  (at level 61, m at next level, right associativity) : outcome_scope.

(** ** Machine integers *)

Definition wrap32 (z : Z) : Z := (z + 2 ^ 31) mod 2 ^ 32 - 2 ^ 31.
Definition wrap64 (z : Z) : Z := (z + 2 ^ 63) mod 2 ^ 64 - 2 ^ 63.
Definition INT64_MIN : Z := - 2 ^ 63.
Definition INT64_MAX : Z := 2 ^ 63 - 1.

(** ** Characters and [std::string] *)

Definition code (c : ascii) : Z := Z.of_N (N_of_ascii c).

Definition isdigit (c : ascii) : bool := (48 <=? code c) && (code c <=? 57).

(** [isspace] in the "C" locale: space, \t, \n, \v, \f, \r. *)
Definition isspace (c : ascii) : bool :=
  (code c =? 32) || ((9 <=? code c) && (code c <=? 13)).

(** [c - '0'] *)
Definition digit_val (c : ascii) : Z := code c - 48.

Definition size (s : string) : nat := String.length s.

Definition empty (s : string) : bool :=
  match s with EmptyString => true | _ => false end.

(** [s[i]]; meaningful for [i < size s] only. *)
Definition at_ (s : string) (i : nat) : ascii :=
  match String.get i s with Some c => c | None => zero end.

(** [s.back()]: undefined behaviour on the empty string. *)
Fixpoint back (s : string) : outcome ascii :=
  match s with
  | EmptyString => Undefined
  | String c EmptyString => Ret c
  | String _ s' => back s'
  end.

Fixpoint mem_char (c : ascii) (set : string) : bool :=
  match set with
  | EmptyString => false
  | String d set' => Ascii.eqb c d || mem_char c set'
  end.

(** [s.find_first_not_of(set)] *)
Fixpoint find_first_not_of (set s : string) : option nat :=
  match s with
  | EmptyString => None
  | String c s' =>
      if mem_char c set then option_map S (find_first_not_of set s')
      else Some 0%nat
  end.

(** [s.find_last_not_of(set)] *)
Fixpoint find_last_not_of (set s : string) : option nat :=
  match s with
  | EmptyString => None
  | String c s' =>
      match find_last_not_of set s' with
      | Some i => Some (S i)
      | None => if mem_char c set then None else Some 0%nat
      end
  end.

(** [s.find(c, pos)] *)
Fixpoint find_char (c : ascii) (s : string) (pos : nat) : option nat :=
  match s with
  | EmptyString => None
  | String d s' =>
      match pos with
      | O => if Ascii.eqb d c then Some 0%nat else option_map S (find_char c s' 0)
      | S pos' => option_map S (find_char c s' pos')
      end
  end.

(** [s.rfind(c)] *)
Fixpoint rfind_char (c : ascii) (s : string) : option nat :=
  match s with
  | EmptyString => None
  | String d s' =>
      match rfind_char c s' with
      | Some i => Some (S i)
      | None => if Ascii.eqb d c then Some 0%nat else None
      end
  end.

(** [s.find(pat)], from position 0 *)
Fixpoint find_str (pat s : string) : option nat :=
  if String.prefix pat s then Some 0%nat
  else match s with
       | EmptyString => None
       | String _ s' => option_map S (find_str pat s')
       end.

(** The suffix of [s] from position [pos] (all of [s] past its end is empty). *)
Fixpoint drop (pos : nat) (s : string) : string :=
  match pos, s with
  | O, _ => s
  | S p, String _ s' => drop p s'
  | S _, EmptyString => EmptyString
  end.

Fixpoint take (len : nat) (s : string) : string :=
  match len, s with
  | S l, String c s' => String c (take l s')
  | _, _ => EmptyString
  end.

(** [s.substr(pos, len)]: throws [std::out_of_range] when [pos > size()]. *)
Definition substr (s : string) (pos len : nat) : outcome string :=
  if (pos <=? size s)%nat then Ret (take len (drop pos s)) else Throw out_of_range.

(** [s.substr(pos)] *)
Definition substr_from (s : string) (pos : nat) : outcome string :=
  if (pos <=? size s)%nat then Ret (drop pos s) else Throw out_of_range.

(** [std::string(n, c)] *)
Fixpoint repeat_char (n : nat) (c : ascii) : string :=
  match n with
  | O => EmptyString
  | S n' => String c (repeat_char n' c)
  end.

(** [s.c_str()] read as a C string ([const char*]): the characters of [s]
    before its first NUL, all of [s] when it holds none. *)
Fixpoint c_str (s : string) : string :=
  match s with
  | EmptyString => EmptyString
  | String c s' => if Ascii.eqb c zero then EmptyString else String c (c_str s')
  end.

(** The number of leading characters of [s] that satisfy [p]. *)
Fixpoint span (p : ascii -> bool) (s : string) : nat :=
  match s with
  | EmptyString => O
  | String c s' => if p c then S (span p s') else O
  end.

(** ** [std::stoll]

    [strtoll]: leading white space is skipped, one sign is accepted, in base
    16 a [0x] prefix is skipped when a hexadecimal digit follows, then the
    longest run of digits is converted.  No digit at all throws
    [std::invalid_argument]; a value outside [int64_t] throws
    [std::out_of_range].  Characters after the digits are ignored (the [pos]
    argument is [nullptr] in every call of this file). *)

Definition digit_in_base (base : Z) (c : ascii) : option Z :=
  let n := code c in
  let v := if (48 <=? n) && (n <=? 57) then n - 48
           else if (97 <=? n) && (n <=? 122) then n - 87
           else if (65 <=? n) && (n <=? 90) then n - 55
           else 36 in
  if v <? base then Some v else None.

Fixpoint digits_value (base : Z) (acc : Z) (s : string) : Z :=
  match s with
  | EmptyString => acc
  | String c s' =>
      match digit_in_base base c with
      | Some v => digits_value base (acc * base + v) s'
      | None => acc
      end
  end.

Definition is_digit_in_base (base : Z) (c : ascii) : bool :=
  match digit_in_base base c with Some _ => true | None => false end.

Definition skip_hex_prefix (base : Z) (s : string) : string :=
  match s with
  | String z (String x (String h r)) =>
      if (base =? 16) && Ascii.eqb z "0" && (Ascii.eqb x "x" || Ascii.eqb x "X")
         && is_digit_in_base 16 h
      then String h r else s
  | _ => s
  end.

(** One optional sign: whether it is a minus, and what follows it. *)
Definition strip_sign (s : string) : bool * string :=
  match s with
  | String c r =>
      if Ascii.eqb c "-" then (true, r)
      else if Ascii.eqb c "+" then (false, r)
      else (false, s)
  | EmptyString => (false, s)
  end.

Definition stoll_base (s : string) (base : Z) : outcome Z :=
  let s1 := drop (span isspace s) s in
  let neg := fst (strip_sign s1) in
  let s2 := snd (strip_sign s1) in
  let s3 := skip_hex_prefix base s2 in
  if (span (is_digit_in_base base) s3 =? 0)%nat then Throw invalid_argument
  else
    let v := digits_value base 0 s3 in
    let r := if neg then - v else v in
    if (r <? INT64_MIN) || (INT64_MAX <? r) then Throw out_of_range else Ret r.

Definition stoll (s : string) : outcome Z := stoll_base s 10.

(** ** [double] and [std::chrono] *)

Definition double : Type := spec_float.

(** [static_cast<double>(z)] for an integer [z]: round to nearest, ties to even. *)
Definition Z2D (z : Z) : double := binary_normalize 53 1024 z 0 false.

Definition dmul (x y : double) : double := SFmul 53 1024 x y.
Definition ddiv (x y : double) : double := SFdiv 53 1024 x y.

(** The literals [1e-3], [1e-6], [1e-9]: the doubles nearest to those
    reals, which are the correctly rounded quotients of [1] by the (exactly
    representable) powers of ten. *)
Definition lit_1e_3 : double := ddiv (Z2D 1) (Z2D 1000).
Definition lit_1e_6 : double := ddiv (Z2D 1) (Z2D 1000000).
Definition lit_1e_9 : double := ddiv (Z2D 1) (Z2D 1000000000).

(** The integer a double denotes, when it denotes one. *)
Definition D2Z (d : double) : option Z :=
  match d with
  | S754_zero _ => Some 0
  | S754_finite s m e =>
      let v := if s then Z.neg m else Z.pos m in
      if 0 <=? e then Some (v * 2 ^ e)
      else if Z.pos m mod 2 ^ (- e) =? 0 then Some (v / 2 ^ (- e)) else None
  | _ => None
  end.

(** [std::chrono::nanoseconds]: an [int64_t] count. *)
Definition nanoseconds : Type := Z.

(** [std::chrono::duration<double>(total_ns).count()]: the count converted
    to [double] and divided by the period ratio [1e9]. *)
Definition duration_double (total_ns : nanoseconds) : double :=
  ddiv (Z2D total_ns) (Z2D 1000000000).

(** ** The data model ([timestamp_parsing.h]) *)

(** Modelled from the spec: the enumeration [ColumnType] of
    [timestamp_parsing.h], a header that is not among the sources; the
    constructors are the ones the code names. *)
Inductive ColumnType : Type :=
| STRING | NUMBER | HEX
| EPOCH_SECONDS | EPOCH_MILLIS | EPOCH_MICROS | EPOCH_NANOS
| DATETIME.

(** Modelled from the spec: the structure [ColumnTypeInfo] of the same
    header, with the three members the code reads and writes. *)
Record ColumnTypeInfo : Type := {
  type : ColumnType;
  format : string;
  has_fractional : bool
}.

(** A default-constructed [ColumnTypeInfo] with its [type] assigned. *)
Definition info_of (t : ColumnType) : ColumnTypeInfo :=
  {| type := t; format := ""; has_fractional := false |}.

Record NumericInfo : Type := {
  is_number : bool;
  has_decimal : bool;
  has_exponent : bool
}.

(** ** Constants *)

Definition UNAMBIGUOUS_FORMATS : list string :=
  [ "%Y-%m-%dT%H:%M:%S"; "%Y-%m-%dT%H:%M:%S%z"; "%Y-%m-%dT%H:%M:%SZ";
    "%Y-%m-%d %H:%M:%S"; "%Y-%m-%d %H:%M:%S%z"; "%Y-%m-%d";
    "%Y/%m/%d %H:%M:%S" ].

Definition EPOCH_FIRST : Z := 1400000000.
Definition EPOCH_LAST : Z := 2000000000.

(** ** Functions that use no external parser *)

(** The character set [" \t\r\n"] *)
Definition blanks : string :=
  String " " (String "009" (String "013" (String "010" EmptyString))).

Definition Trim (str : string) : outcome string :=
  match find_first_not_of blanks str with
  | None => Ret ""
  | Some start =>
      match find_last_not_of blanks str with
      | Some end_ => substr str start (end_ - start + 1)
      | None =>
          (* [npos - start + 1] wraps to a length that reaches past the end *)
          substr str start (size str)
      end
  end.

Definition ExtractFractionalSeconds (input : string) : outcome (string * nanoseconds) :=
  match rfind_char "." input, rfind_char ":" input with
  | Some dot_pos, Some colon_pos =>
      if (dot_pos <=? colon_pos)%nat then Ret (input, 0)
      else
        let frac_start := (dot_pos + 1)%nat in
        (* the [while] loop over [frac_end] *)
        let frac_end := (frac_start + span isdigit (drop frac_start input))%nat in
        if (frac_end <=? frac_start)%nat then Ret (input, 0)
        else
          (frac_str <- substr input frac_start (frac_end - frac_start) ;;
           frac_str <- (if (size frac_str <? 9)%nat
                        then Ret (frac_str ++ repeat_char (9 - size frac_str) "0")
                        else if (9 <? size frac_str)%nat
                             then substr frac_str 0 9
                             else Ret frac_str) ;;
           fractional_ns <- ocatch (stoll frac_str) (Ret 0) ;;
           head <- substr input 0 dot_pos ;;
           tail <- substr_from input frac_end ;;
           Ret (head ++ tail, fractional_ns))%outcome
  | _, _ => Ret (input, 0)
  end.

Definition is_e (c : ascii) : bool := Ascii.eqb c "e" || Ascii.eqb c "E".
Definition is_sign (c : ascii) : bool := Ascii.eqb c "-" || Ascii.eqb c "+".
Definition is_point (c : ascii) : bool := Ascii.eqb c "." || Ascii.eqb c ",".

Definition not_a_number (info : NumericInfo) : NumericInfo :=
  {| is_number := false;
     has_decimal := has_decimal info;
     has_exponent := has_exponent info |}.

(** The [for] loop of [CheckNumeric]: [rest] is [str] from position [i];
    the result is the state at the loop's exit ([break] or [i = size]). *)
Fixpoint CheckNumeric_loop (str rest : string) (i : nat)
  (info : NumericInfo) (has_digit : bool) : NumericInfo * bool :=
  match rest with
  | EmptyString => (info, has_digit)
  | String c rest' =>
      if is_e c then
        if has_exponent info then (not_a_number info, has_digit)
        else CheckNumeric_loop str rest' (S i)
               {| is_number := is_number info;
                  has_decimal := has_decimal info;
                  has_exponent := true |} has_digit
      else if is_sign c then
        if (i =? 0)%nat || is_e (at_ str (i - 1))
        then CheckNumeric_loop str rest' (S i) info has_digit
        else (not_a_number info, has_digit)
      else if is_point c then
        if has_decimal info || has_exponent info then (not_a_number info, has_digit)
        else CheckNumeric_loop str rest' (S i)
               {| is_number := is_number info;
                  has_decimal := true;
                  has_exponent := has_exponent info |} has_digit
      else if isdigit c then CheckNumeric_loop str rest' (S i) info true
      else (not_a_number info, has_digit)
  end.

Definition CheckNumeric (str : string) : outcome NumericInfo :=
  let '(info, has_digit) :=
    CheckNumeric_loop str str 0
      {| is_number := true; has_decimal := false; has_exponent := false |} false in
  if is_number info then
    (last <- back str ;;
     if negb has_digit || is_e last || is_sign last
     then Ret (not_a_number info)
     else Ret info)%outcome
  else Ret info.

Definition DetectEpochType (ts : Z) : ColumnType :=
  if (wrap64 (EPOCH_FIRST * 1000000000) <? ts) && (ts <? wrap64 (EPOCH_LAST * 1000000000))
  then EPOCH_NANOS
  else if (wrap64 (EPOCH_FIRST * 1000000) <? ts) && (ts <? wrap64 (EPOCH_LAST * 1000000))
  then EPOCH_MICROS
  else if (wrap64 (EPOCH_FIRST * 1000) <? ts) && (ts <? wrap64 (EPOCH_LAST * 1000))
  then EPOCH_MILLIS
  else if (EPOCH_FIRST <? ts) && (ts <? EPOCH_LAST)
  then EPOCH_SECONDS
  else NUMBER.

Definition EpochToSeconds (ts : Z) (t : ColumnType) : double :=
  match t with
  | EPOCH_NANOS => dmul (Z2D ts) lit_1e_9
  | EPOCH_MICROS => dmul (Z2D ts) lit_1e_6
  | EPOCH_MILLIS => dmul (Z2D ts) lit_1e_3
  | _ => Z2D ts
  end.

(** One [while] loop of [IsDayFirstFormat]: the [int] accumulated over the
    leading digits of [s], and what follows them.  Overflow of the [int] is
    written as wrap-around (it is undefined in C++ and arises only for runs
    of ten digits or more). *)
Fixpoint read_field (acc : Z) (s : string) : Z * string :=
  match s with
  | String c s' =>
      if isdigit c then read_field (wrap32 (wrap32 (acc * 10) + digit_val c)) s'
      else (acc, s)
  | EmptyString => (acc, s)
  end.

Definition skip_separator (separator : ascii) (s : string) : string :=
  match s with
  | String c s' => if Ascii.eqb c separator then s' else s
  | EmptyString => s
  end.

Definition first_field (str : string) : Z := fst (read_field 0 str).

Definition second_field (str : string) (separator : ascii) : Z :=
  fst (read_field 0 (skip_separator separator (snd (read_field 0 str)))).

Definition IsDayFirstFormat (str : string) (separator : ascii) : bool :=
  let first := first_field str in
  let second := second_field str separator in
  if (12 <? first) && (first <=? 31) then true
  else if (12 <? second) && (second <=? 31) then false
  else true.

(** The [replace_all] lambda of [FormatParseTimestamp]: occurrences of
    [from] are replaced left to right, the search resuming after each
    replacement ([skip] counts the characters of a match still to pass). *)
Fixpoint replace_all_from (from to : string) (skip : nat) (s : string) : string :=
  match s with
  | EmptyString => EmptyString
  | String c s' =>
      match skip with
      | S k => replace_all_from from to k s'
      | O =>
          if String.prefix from s
          then to ++ replace_all_from from to (size from - 1) s'
          else String c (replace_all_from from to 0 s')
      end
  end.

Definition replace_all (s from to : string) : string := replace_all_from from to 0 s.

(** [QString::replace(a, b)] on characters *)
Fixpoint replace_char (a b : ascii) (s : string) : string :=
  match s with
  | EmptyString => EmptyString
  | String c s' => String (if Ascii.eqb c a then b else c) (replace_char a b s')
  end.

Definition contains (c : ascii) (s : string) : bool :=
  match find_char c s 0 with Some _ => true | None => false end.

(** ** Functions over the external parsers *)

Section Engine.

(** [QLocale::c().toDouble(qstr, &ok)]: the value when [ok]. *)
Variable QLocale_c_toDouble : string -> option double.

(** [in >> date::parse(fmt, tp)] on a fresh stream over [input]: when the
    stream has not failed, the time point [tp] in seconds since the epoch and
    the characters left unread. *)
Variable date_parse : string -> string -> option (Z * string).

Definition toDouble (str : string) : option double :=
  QLocale_c_toDouble (replace_char "," "." str).

Definition TryParseFormat (base_str fmt : string) (fractional_ns : nanoseconds)
  : run (option double) :=
  (match date_parse fmt base_str with
   | Some (tp, _) =>
       let total_ns := wrap64 (wrap64 (tp * 1000000000) + fractional_ns) in
       Ret (Some (duration_double total_ns))
   | None => Ret None
   end,
   [ {| call_fmt := fmt; call_input := base_str |} ]).

(** The loop over [UNAMBIGUOUS_FORMATS] in [AutoParseTimestamp]. *)
Fixpoint try_formats (fmts : list string) (base_str : string)
  (fractional_ns : nanoseconds) : run (option double) :=
  match fmts with
  | [] => rret None
  | fmt :: rest =>
      (result <- TryParseFormat base_str fmt fractional_ns ;;
       match result with
       | Some v => rret (Some v)
       | None => try_formats rest base_str fractional_ns
       end)%run
  end.

(** [base_str.find(c) != npos && !base_str.empty() && base_str[0] != '2'] *)
Definition ambiguous_guard (c : ascii) (base_str : string) : bool :=
  contains c base_str && negb (empty base_str) && negb (Ascii.eqb (at_ base_str 0) "2").

(** The block "Try ambiguous formats with day/month detection" of
    [AutoParseTimestamp]. *)
Definition auto_ambiguous (base_str : string) (fractional_ns : nanoseconds)
  : run (option double) :=
  (result <-
     (if ambiguous_guard "/" base_str then
        TryParseFormat base_str
          (if IsDayFirstFormat base_str "/"
           then "%d/%m/%Y %H:%M:%S" else "%m/%d/%Y %H:%M:%S")
          fractional_ns
      else rret None) ;;
   match result with
   | Some v => rret (Some v)
   | None =>
       result <-
         (if ambiguous_guard "-" base_str then
            if IsDayFirstFormat base_str "-"
            then TryParseFormat base_str "%d-%m-%Y %H:%M:%S" fractional_ns
            else rret None
          else rret None) ;;
       match result with
       | Some v => rret (Some v)
       | None => rret None
       end
   end)%run.

(** The block "Try datetime formats" of [AutoParseTimestamp]. *)
Definition auto_datetime (trimmed : string) : run (option double) :=
  (split <- rlift (ExtractFractionalSeconds trimmed) ;;
   let base_str := fst split in
   let fractional_ns := snd split in
   result <- try_formats UNAMBIGUOUS_FORMATS base_str fractional_ns ;;
   match result with
   | Some v => rret (Some v)
   | None => auto_ambiguous base_str fractional_ns
   end)%run.

(** The block "Try parsing as a number first" of [AutoParseTimestamp]:
    [Some r] when the [try] block returned [r], [None] when control falls
    through to the datetime formats. *)
Definition auto_numeric (trimmed : string) (num_info : NumericInfo)
  : run (option (option double)) :=
  if is_number num_info then
    rcatch
      (if negb (has_decimal num_info) && negb (has_exponent num_info) then
         (ts <- rlift (stoll trimmed) ;;
          rret (Some (Some (EpochToSeconds ts (DetectEpochType ts)))))%run
       else rret (Some (toDouble trimmed)))
      (rret None)
  else rret None.

Definition AutoParseTimestamp (str : string) : run (option double) :=
  (trimmed <- rlift (Trim str) ;;
   if empty trimmed then rret None
   else
     num_info <- rlift (CheckNumeric trimmed) ;;
     early <- auto_numeric trimmed num_info ;;
     match early with
     | Some r => rret r
     | None => auto_datetime trimmed
     end)%run.

(** [s.find(c, pos)] where [pos] is [zzz_pos > 0 ? zzz_pos - 5 : 0] in
    [size_t]: for [0 < zzz_pos < 5] the subtraction wraps to a position past
    the end of any string, and [find] answers [npos]. *)
Definition find_dot_near (input : string) (zzz_pos : nat) : option nat :=
  if (0 <? zzz_pos)%nat && (zzz_pos <? 5)%nat then None
  else find_char "." input (zzz_pos - 5).

Definition qt_to_strptime (adjusted_format : string) : string :=
  let s := replace_all adjusted_format "yyyy" "%Y" in
  let s := replace_all s "yy" "%y" in
  let s := replace_all s "MM" "%m" in
  let s := replace_all s "dd" "%d" in
  let s := replace_all s "hh" "%H" in
  let s := replace_all s "HH" "%H" in
  let s := replace_all s "mm" "%M" in
  replace_all s "ss" "%S".

Definition FormatParseTimestamp (str format : string) : run (option double) :=
  (trimmed <- rlift (Trim str) ;;
   if empty trimmed then rret None
   else
     (* (adjusted_input, fractional_ns, adjusted_format) *)
     adjusted <-
       rlift
         (match find_str ".zzz" format with
          | Some zzz_pos =>
              let z_start := (zzz_pos + 1)%nat in
              let z_count := span (Ascii.eqb "z") (drop z_start format) in
              match find_dot_near trimmed zzz_pos with
              | Some _ =>
                  (split <- ExtractFractionalSeconds trimmed ;;
                   head <- substr format 0 zzz_pos ;;
                   tail <- substr_from format (z_start + z_count) ;;
                   Ret (fst split, snd split, head ++ tail))%outcome
              | None => Ret (trimmed, 0, format)
              end
          | None => Ret (trimmed, 0, format)
          end) ;;
     let '(adjusted_input, fractional_ns, adjusted_format) := adjusted in
     (* [strptime_format.c_str()] *)
     TryParseFormat adjusted_input (c_str (qt_to_strptime adjusted_format))
       fractional_ns)%run.

(** The [try_format] lambda of [DetectColumnType]. *)
Definition try_format (base_str fmt : string) : run bool :=
  (match date_parse fmt base_str with
   | Some _ => Ret true
   | None => Ret false
   end,
   [ {| call_fmt := fmt; call_input := base_str |} ]).

Definition datetime_info (fmt : string) (has_frac : bool) : ColumnTypeInfo :=
  {| type := DATETIME; format := fmt; has_fractional := has_frac |}.

Definition string_info (has_frac : bool) : ColumnTypeInfo :=
  {| type := STRING; format := ""; has_fractional := has_frac |}.

(** The loop over [UNAMBIGUOUS_FORMATS] in [DetectColumnType]: the format
    that matched, if any. *)
Fixpoint detect_formats (fmts : list string) (base_str : string) : run (option string) :=
  match fmts with
  | [] => rret None
  | fmt :: rest =>
      (ok <- try_format base_str fmt ;;
       if ok then rret (Some fmt) else detect_formats rest base_str)%run
  end.

(** The ambiguous-format blocks of [DetectColumnType]: the format that
    matched, if any. *)
Definition detect_ambiguous (base_str : string) : run (option string) :=
  (matched <-
     (if ambiguous_guard "/" base_str then
        let fmt := if IsDayFirstFormat base_str "/"
                   then "%d/%m/%Y %H:%M:%S" else "%m/%d/%Y %H:%M:%S" in
        ok <- try_format base_str fmt ;;
        if ok then rret (Some fmt) else rret None
      else rret None) ;;
   match matched with
   | Some fmt => rret (Some fmt)
   | None =>
       if ambiguous_guard "-" base_str then
         if IsDayFirstFormat base_str "-" then
           ok <- try_format base_str "%d-%m-%Y %H:%M:%S" ;;
           if ok then rret (Some "%d-%m-%Y %H:%M:%S") else rret None
         else rret None
       else rret None
   end)%run.

(** The block "Try datetime formats" of [DetectColumnType]. *)
Definition detect_datetime (trimmed : string) : run ColumnTypeInfo :=
  (split <- rlift (ExtractFractionalSeconds trimmed) ;;
   let base_str := fst split in
   let fractional_ns := snd split in
   let has_frac := (0 <? fractional_ns) || negb (String.eqb trimmed base_str) in
   matched <- detect_formats UNAMBIGUOUS_FORMATS base_str ;;
   match matched with
   | Some fmt => rret (datetime_info fmt has_frac)
   | None =>
       matched <- detect_ambiguous base_str ;;
       match matched with
       | Some fmt => rret (datetime_info fmt has_frac)
       | None => rret (string_info has_frac)
       end
   end)%run.

(** [trimmed.size() > 2 && trimmed[0] == '0' && (trimmed[1] == 'x' || trimmed[1] == 'X')] *)
Definition has_hex_prefix (trimmed : string) : bool :=
  (2 <? size trimmed)%nat
  && (Ascii.eqb (at_ trimmed 0) "0"
      && (Ascii.eqb (at_ trimmed 1) "x" || Ascii.eqb (at_ trimmed 1) "X")).

(** The numeric block of [DetectColumnType], entered when [is_number]. *)
Definition detect_numeric (trimmed : string) (num_info : NumericInfo)
  : run ColumnTypeInfo :=
  if has_decimal num_info then rret (info_of NUMBER)
  else
    rcatch (ts <- rlift (stoll trimmed) ;; rret (info_of (DetectEpochType ts)))%run
           (rret (info_of NUMBER)).

Definition DetectColumnType (str : string) : run ColumnTypeInfo :=
  (trimmed <- rlift (Trim str) ;;
   if empty trimmed then rret (info_of STRING)
   else if has_hex_prefix trimmed then rret (info_of HEX)
   else
     num_info <- rlift (CheckNumeric trimmed) ;;
     if is_number num_info then detect_numeric trimmed num_info
     else detect_datetime trimmed)%run.

Definition ParseWithType (str : string) (type_info : ColumnTypeInfo)
  : run (option double) :=
  (trimmed <- rlift (Trim str) ;;
   if empty trimmed then rret None
   else
     rcatch
       (match type type_info with
        | NUMBER => rret (toDouble trimmed)
        | HEX =>
            v <- rlift (stoll_base trimmed 16) ;;
            rret (Some (Z2D v))
        | EPOCH_SECONDS | EPOCH_MILLIS | EPOCH_MICROS | EPOCH_NANOS =>
            ts <- rlift (stoll trimmed) ;;
            rret (Some (EpochToSeconds ts (type type_info)))
        | DATETIME =>
            split <- rlift (ExtractFractionalSeconds trimmed) ;;
            let base_str := fst split in
            let fractional_ns := if has_fractional type_info then snd split else 0 in
            (* [type_info.format.c_str()] *)
            TryParseFormat base_str (c_str (format type_info)) fractional_ns
        | STRING => rret None
        end)
       (rret None))%run.

End Engine.

(** ** Reference models of the external parsers

    The two parsers are third-party code, outside the repository: the
    [date] library of H. Hinnant ([date::parse], the model of C++20
    [std::chrono::parse]) and Qt ([QLocale::toDouble]).  The models below
    follow their documented behaviour on the inputs this file hands them
    and are used for closed examples only; the general theorems hold for
    every parser.

    [DateLib.parse] covers the conversions [%Y %y %m %d %H %M %S %z %%]:
    each reads at most its default width ([%Y] one to four digits with an
    optional sign, the others one or two digits), leading zeros are not
    required, a blank of the pattern matches any run of white space, and any
    other character matches itself.  Parsing stops at the end of the
    pattern: input left unread is not a failure.  The parsed date must be a
    valid calendar date and the time of day within 24:00:00. *)

Module DateLib.

(** The fields [date::from_stream] collects; [None] is "not yet parsed". *)
Record fields : Type := {
  fY : option Z; fm : option Z; fd : option Z;
  fH : option Z; fM : option Z; fS : option Z;
  foffset : option Z  (* minutes *)
}.

Definition no_fields : fields :=
  {| fY := None; fm := None; fd := None; fH := None; fM := None; fS := None;
     foffset := None |}.

(** [read_unsigned(is, m, M)]: between [m] and [M] digits. *)
Definition read_unsigned (m M : nat) (s : string) : option (Z * string) :=
  let n := Nat.min M (span isdigit s) in
  if (n <? m)%nat then None
  else Some (digits_value 10 0 (take n s), drop n s).

(** [read_signed(is, m, M)] for [m >= 1]: one optional sign, then digits. *)
Definition read_signed (m M : nat) (s : string) : option (Z * string) :=
  match s with
  | String c r =>
      if isdigit c then read_unsigned m M s
      else if Ascii.eqb c "-" then
        option_map (fun xr => (- fst xr, snd xr)) (read_unsigned m M r)
      else if Ascii.eqb c "+" then read_unsigned m M r
      else None
  | EmptyString => None
  end.

(** [checked_set]: a field parsed twice must agree with itself. *)
Definition checked_set (old : option Z) (v : Z) : option (option Z) :=
  match old with
  | None => Some (Some v)
  | Some w => if w =? v then Some old else None
  end.

Definition set_field (spec : ascii) (f : fields) (v : Z) : option fields :=
  let upd (old : option Z) (k : option Z -> fields) := option_map k (checked_set old v) in
  if Ascii.eqb spec "Y" then
    upd (fY f) (fun x => {| fY := x; fm := fm f; fd := fd f; fH := fH f; fM := fM f; fS := fS f; foffset := foffset f |})
  else if Ascii.eqb spec "m" then
    upd (fm f) (fun x => {| fY := fY f; fm := x; fd := fd f; fH := fH f; fM := fM f; fS := fS f; foffset := foffset f |})
  else if Ascii.eqb spec "d" then
    upd (fd f) (fun x => {| fY := fY f; fm := fm f; fd := x; fH := fH f; fM := fM f; fS := fS f; foffset := foffset f |})
  else if Ascii.eqb spec "H" then
    upd (fH f) (fun x => {| fY := fY f; fm := fm f; fd := fd f; fH := x; fM := fM f; fS := fS f; foffset := foffset f |})
  else if Ascii.eqb spec "M" then
    upd (fM f) (fun x => {| fY := fY f; fm := fm f; fd := fd f; fH := fH f; fM := x; fS := fS f; foffset := foffset f |})
  else if Ascii.eqb spec "S" then
    upd (fS f) (fun x => {| fY := fY f; fm := fm f; fd := fd f; fH := fH f; fM := fM f; fS := x; foffset := foffset f |})
  else if Ascii.eqb spec "z" then
    upd (foffset f) (fun x => {| fY := fY f; fm := fm f; fd := fd f; fH := fH f; fM := fM f; fS := fS f; foffset := x |})
  else None.

(** [%z]: [[+|-]hh[mm]], in minutes. *)
Definition read_offset (s : string) : option (Z * string) :=
  let neg := match s with String c _ => Ascii.eqb c "-" | EmptyString => false end in
  match read_signed 2 2 s with
  | Some (tH, r) =>
      let hours := Z.abs tH * 60 in
      let '(total, r') :=
        match r with
        | String c _ =>
            if isdigit c then
              match read_unsigned 2 2 r with
              | Some (tM, r2) => (Some (hours + tM), r2)
              | None => (None, r)
              end
            else (Some hours, r)
        | EmptyString => (Some hours, r)
        end in
      option_map (fun t => (if neg then - t else t, r')) total
  | None => None
  end.

(** One conversion specifier applied to the input. *)
Definition read_spec (spec : ascii) (input : string) (f : fields) : option (fields * string) :=
  let store (r : option (Z * string)) (adjust : Z -> Z) (as_spec : ascii) :=
    match r with
    | Some (v, rest) => option_map (fun f' => (f', rest)) (set_field as_spec f (adjust v))
    | None => None
    end in
  if Ascii.eqb spec "Y" then store (read_signed 1 4 input) (fun v => v) "Y"%char
  else if Ascii.eqb spec "y" then
    store (read_unsigned 1 2 input) (fun v => if 69 <=? v then v + 1900 else v + 2000) "Y"%char
  else if Ascii.eqb spec "m" then store (read_unsigned 1 2 input) (fun v => v) "m"%char
  else if Ascii.eqb spec "d" then store (read_unsigned 1 2 input) (fun v => v) "d"%char
  else if Ascii.eqb spec "H" then store (read_unsigned 1 2 input) (fun v => v) "H"%char
  else if Ascii.eqb spec "M" then store (read_unsigned 1 2 input) (fun v => v) "M"%char
  else if Ascii.eqb spec "S" then store (read_unsigned 1 2 input) (fun v => v) "S"%char
  else if Ascii.eqb spec "z" then store (read_offset input) (fun v => v) "z"%char
  else if Ascii.eqb spec "%" then
    match input with
    | String c rest => if Ascii.eqb c "%" then Some (f, rest) else None
    | EmptyString => None
    end
  else None.

(** The format loop: [%] and the character after it form a conversion; a
    white-space character of the format matches any run of white space,
    every other ordinary character matches itself. *)
Fixpoint scan (fmt input : string) (f : fields) : option (fields * string) :=
  match fmt with
  | EmptyString => Some (f, input)
  | String c fmt' =>
      let ordinary :=
        if isspace c then scan fmt' (drop (span isspace input) input) f
        else match input with
             | String d rest => if Ascii.eqb c d then scan fmt' rest f else None
             | EmptyString => None
             end in
      if Ascii.eqb c "%" then
        match fmt' with
        | String spec fmt'' =>
            match read_spec spec input f with
            | Some (f', rest) => scan fmt'' rest f'
            | None => None
            end
        | EmptyString => ordinary
        end
      else ordinary
  end.

Definition is_leap (y : Z) : bool :=
  (y mod 4 =? 0) && (negb (y mod 100 =? 0) || (y mod 400 =? 0)).

Definition last_day (y m : Z) : Z :=
  if m =? 2 then (if is_leap y then 29 else 28)
  else if (m =? 4) || (m =? 6) || (m =? 9) || (m =? 11) then 30 else 31.

(** [year_month_day::ok()] *)
Definition ymd_ok (y m d : Z) : bool :=
  (1 <=? m) && (m <=? 12) && (1 <=? d) && (d <=? last_day y m).

(** [sys_days(ymd)]: days since 1970-01-01. *)
Definition days_from_civil (y m d : Z) : Z :=
  let y := if m <=? 2 then y - 1 else y in
  let era := y / 400 in
  let yoe := y - era * 400 in
  let doy := (153 * (if 2 <? m then m - 3 else m + 9) + 2) / 5 + d - 1 in
  let doe := yoe * 365 + yoe / 4 - yoe / 100 + doy in
  era * 146097 + doe - 719468.

Definition or0 (x : option Z) : Z := match x with Some v => v | None => 0 end.

(** [from_stream] for [sys_time<seconds>]: the date must be complete and
    valid and the time of day in its conventional range. *)
Definition parse (fmt input : string) : option (Z * string) :=
  match scan fmt input no_fields with
  | Some (f, rest) =>
      match fY f, fm f, fd f with
      | Some y, Some m, Some d =>
          let H := or0 (fH f) in
          let M := or0 (fM f) in
          let S := or0 (fS f) in
          if ymd_ok y m d && (H <? 24) && (M <? 60) && (S <? 60)
          then Some (days_from_civil y m d * 86400 + H * 3600 + M * 60 + S
                     - or0 (foffset f) * 60, rest)
          else None
      | _, _, _ => None
      end
  | None => None
  end.

(** A pattern in which every [%] is followed by a conversion character. *)
Fixpoint complete (p : string) : bool :=
  match p with
  | EmptyString => true
  | String c p' =>
      if Ascii.eqb c "%" then
        match p' with
        | String _ p'' => complete p''
        | EmptyString => false
        end
      else complete p'
  end.

(** Scanning [q] from where a first scan stopped. *)
Definition then_scan (q : string) (r : option (fields * string))
  : option (fields * string) :=
  match r with
  | Some (f, rest) => scan q rest f
  | None => None
  end.

(** Two field records with the same date and time of day. *)
Definition same_date_time (f g : fields) : Prop :=
  fY f = fY g /\ fm f = fm g /\ fd f = fd g
  /\ fH f = fH g /\ fM f = fM g /\ fS f = fS g.

End DateLib.

Module QtLib.

(** A decimal literal [[sign] digits [. digits] [e [sign] digits]] with at
    least one mantissa digit, read to the nearest double. *)

(** [±m * 10^e], correctly rounded. *)
Definition decimal_to_double (neg : bool) (m : Z) (e : Z) : double :=
  match m with
  | Z.pos p =>
      if 0 <=? e then Z2D ((if neg then - m else m) * 10 ^ e)
      else SFdiv 53 1024 (S754_finite neg p 0)
                         (S754_finite false (Z.to_pos (10 ^ (- e))) 0)
  | _ => S754_zero neg
  end.

Definition read_exponent (s : string) : option Z :=
  match s with
  | EmptyString => Some 0
  | String c r =>
      if is_e c then
        let neg := fst (strip_sign r) in
        let ds := snd (strip_sign r) in
        let n := span isdigit ds in
        if (n =? 0)%nat || negb (n =? size ds)%nat then None
        else Some (if neg then - digits_value 10 0 ds else digits_value 10 0 ds)
      else None
  end.

Definition toDouble (s : string) : option double :=
  let neg := fst (strip_sign s) in
  let s1 := snd (strip_sign s) in
  let ni := span isdigit s1 in
  let int_part := take ni s1 in
  let s2 := drop ni s1 in
  let '(frac_part, s3) :=
    match s2 with
    | String c r =>
        if Ascii.eqb c "." then (take (span isdigit r) r, drop (span isdigit r) r)
        else ("", s2)
    | EmptyString => ("", s2)
    end in
  if (size int_part + size frac_part =? 0)%nat then None
  else
    match read_exponent s3 with
    | Some ex =>
        Some (decimal_to_double neg (digits_value 10 0 (int_part ++ frac_part))
                (ex - Z.of_nat (size frac_part)))
    | None => None
    end.

End QtLib.

(** The entry points over the reference parsers. *)
Definition AutoParseTimestamp_ref : string -> run (option double) :=
  AutoParseTimestamp QtLib.toDouble DateLib.parse.
Definition DetectColumnType_ref : string -> run ColumnTypeInfo :=
  DetectColumnType DateLib.parse.
Definition ParseWithType_ref : string -> ColumnTypeInfo -> run (option double) :=
  ParseWithType QtLib.toDouble DateLib.parse.
Definition FormatParseTimestamp_ref : string -> string -> run (option double) :=
  FormatParseTimestamp DateLib.parse.

(** ** Specification-level notions used in the statements *)

(** The epoch window scaled by [scale], as the design document states it
    (no machine arithmetic). *)
Definition in_window (scale t : Z) : bool :=
  (EPOCH_FIRST * scale <? t) && (t <? EPOCH_LAST * scale).

(** The number spelled by the leading decimal digits of [s], and what
    follows them (unbounded arithmetic). *)
Fixpoint leading_number (acc : Z) (s : string) : Z * string :=
  match s with
  | String c s' =>
      if isdigit c then leading_number (acc * 10 + digit_val c) s' else (acc, s)
  | EmptyString => (acc, s)
  end.

(** The first and second numeric fields of a date string. *)
Definition field1 (str : string) : Z := fst (leading_number 0 str).
Definition field2 (str : string) (separator : ascii) : Z :=
  fst (leading_number 0 (skip_separator separator (snd (leading_number 0 str)))).

(** Every character of [s] satisfies [p]. *)
Fixpoint all_chars (p : ascii -> bool) (s : string) : bool :=
  match s with
  | EmptyString => true
  | String c s' => p c && all_chars p s'
  end.

(** The run of decimal digits at the front of [s]. *)
Definition digit_run (s : string) : string := take (span isdigit s) s.

(** A digit run right-padded with zeros to nine digits, or cut to its first
    nine. *)
Definition nine_digits (digits : string) : string :=
  take 9 (digits ++ repeat_char 9 "0").

(** A run that ends with a value: no exception, no undefined behaviour. *)
Definition returns {A : Type} (m : run A) : Prop := exists a, fst m = Ret a.

(** The calls that try each of [fmts] on [base_str], in order. *)
Definition calls_of (fmts : list string) (base_str : string) : list parse_call :=
  map (fun fmt => {| call_fmt := fmt; call_input := base_str |}) fmts.

(** A string of blanks only (the empty string included). *)
Definition blank_only (s : string) : bool :=
  all_chars (fun c => mem_char c blanks) s.

Definition is_epoch (t : ColumnType) : bool :=
  match t with
  | EPOCH_SECONDS | EPOCH_MILLIS | EPOCH_MICROS | EPOCH_NANOS => true
  | _ => false
  end.

(** Detecting the type of [s] and parsing [s] with it gives what the
    one-shot parser gives. *)
Definition round_trip
  (QLocale_c_toDouble : string -> option double)
  (date_parse : string -> string -> option (Z * string)) (s : string) : Prop :=
  exists info,
    fst (DetectColumnType date_parse s) = Ret info
    /\ fst (ParseWithType QLocale_c_toDouble date_parse s info)
       = fst (AutoParseTimestamp QLocale_c_toDouble date_parse s).

(** [ParseWithType] as the design document words its [Datetime] rule: the
    fractional-second splitter is re-run only when [has_fractional] was
    recorded; otherwise the trimmed value itself goes to the calendar
    parser.  Every other rule is as in the code. *)
Definition ParseWithType_as_specified
  (QLocale_c_toDouble : string -> option double)
  (date_parse : string -> string -> option (Z * string))
  (str : string) (type_info : ColumnTypeInfo) : run (option double) :=
  (trimmed <- rlift (Trim str) ;;
   if empty trimmed then rret None
   else
     rcatch
       (match type type_info with
        | DATETIME =>
            split <- (if has_fractional type_info
                      then rlift (ExtractFractionalSeconds trimmed)
                      else rret (trimmed, 0)) ;;
            TryParseFormat date_parse (fst split) (c_str (format type_info)) (snd split)
        | NUMBER => rret (toDouble QLocale_c_toDouble trimmed)
        | HEX =>
            v <- rlift (stoll_base trimmed 16) ;;
            rret (Some (Z2D v))
        | STRING => rret None
        | _ =>
            ts <- rlift (stoll trimmed) ;;
            rret (Some (EpochToSeconds ts (type type_info)))
        end)
       (rret None))%run.

(** The calendar parser rejects [base_str] under every pattern of [fmts]. *)
Definition fails_on (date_parse : string -> string -> option (Z * string))
  (fmts : list string) (base_str : string) : Prop :=
  forall fmt, In fmt fmts -> date_parse fmt base_str = None.

(** The type a run of [DetectColumnType] ends with. *)
Definition type_of_run (r : run ColumnTypeInfo) : option ColumnType :=
  match fst r with
  | Ret info => Some (type info)
  | _ => None
  end.

(** The patterns of the table that end in a zone. *)
Definition zone_patterns : list string :=
  [ "%Y-%m-%dT%H:%M:%S%z"; "%Y-%m-%dT%H:%M:%SZ"; "%Y-%m-%d %H:%M:%S%z" ].

(** ** Further notions used in the statements *)

(** A character of the set [" \t\r\n"]. *)
Definition is_blank (c : ascii) : bool := mem_char c blanks.

(** [s] without its leading blanks. *)
Definition lstrip (s : string) : string := drop (span is_blank s) s.

(** [s] without its trailing blanks. *)
Fixpoint rstrip (s : string) : string :=
  match s with
  | EmptyString => EmptyString
  | String c s' =>
      match rstrip s' with
      | EmptyString => if is_blank c then EmptyString else String c EmptyString
      | r => String c r
      end
  end.

(** The first character of [s] is not a blank (vacuous on the empty string). *)
Definition starts_unblank (s : string) : bool :=
  match s with
  | EmptyString => true
  | String c _ => negb (is_blank c)
  end.

(** The last character of [s] is not a blank (vacuous on the empty string). *)
Fixpoint ends_unblank (s : string) : bool :=
  match s with
  | EmptyString => true
  | String c EmptyString => negb (is_blank c)
  | String _ s' => ends_unblank s'
  end.

(** A decimal integer literal: one optional sign, then one digit or more. *)
Definition integer_literal (s : string) : bool :=
  all_chars isdigit (snd (strip_sign s)) && negb (empty (snd (strip_sign s))).

(** The integer a literal spells. *)
Definition literal_value (s : string) : Z :=
  let v := digits_value 10 0 (snd (strip_sign s)) in
  if fst (strip_sign s) then - v else v.

(** What [CheckNumeric] answers for a purely integral string. *)
Definition integral_info : NumericInfo :=
  {| is_number := true; has_decimal := false; has_exponent := false |}.

(** The Qt tokens [FormatParseTimestamp] translates. *)
Definition qt_tokens : list string :=
  [ "yyyy"; "yy"; "MM"; "dd"; "hh"; "HH"; "mm"; "ss" ].

(** The pattern [FormatParseTimestamp] builds from a format whose [.zzz]
    marker starts at [zzz_pos], once the marker and its run of [z] are cut. *)
Definition without_marker (format : string) (zzz_pos : nat) : string :=
  take zzz_pos format
  ++ drop (zzz_pos + 1 + span (Ascii.eqb "z") (drop (zzz_pos + 1) format)) format.

(** The pattern the ['/'] block chooses for [base_str]. *)
Definition slash_pattern (base_str : string) : string :=
  if IsDayFirstFormat base_str "/" then "%d/%m/%Y %H:%M:%S" else "%m/%d/%Y %H:%M:%S".

(** Some character of [s] satisfies [p]. *)
Fixpoint any_char (p : ascii -> bool) (s : string) : bool :=
  match s with
  | EmptyString => false
  | String c s' => p c || any_char p s'
  end.

(** The number of characters of [s] that satisfy [p]. *)
Fixpoint count_char (p : ascii -> bool) (s : string) : nat :=
  match s with
  | EmptyString => O
  | String c s' => ((if p c then 1 else 0) + count_char p s')%nat
  end.

(** Nothing, or one sign. *)
Definition sign_opt (s : string) : bool :=
  match s with
  | EmptyString => true
  | String c EmptyString => is_sign c
  | _ => false
  end.

(** Digits with at most one decimal separator ([.] or [,]) among them. *)
Definition is_mantissa (m : string) : bool :=
  all_chars (fun c => isdigit c || is_point c) m
  && (count_char is_point m <=? 1)%nat.

(** The strings [CheckNumeric] takes for numbers, as a grammar: an optional
    sign and a mantissa, followed either by nothing (and then the mantissa
    holds a digit) or by [e] or [E], an optional sign and one digit or
    more (and then the mantissa may be empty). *)
Definition numeric_literal (str : string) : Prop :=
  exists sgn m x,
    str = sgn ++ m ++ x /\ sign_opt sgn = true /\ is_mantissa m = true
    /\ ((x = "" /\ any_char isdigit m = true)
        \/ (exists e sgn' d,
              x = String e (sgn' ++ d) /\ is_e e = true /\ sign_opt sgn' = true
              /\ all_chars isdigit d = true /\ d <> "")).

(** The state of the scan of [CheckNumeric] while no character was refused. *)
Definition scanning (dec ex : bool) : NumericInfo :=
  {| is_number := true; has_decimal := dec; has_exponent := ex |}.

(** The loop of [CheckNumeric] with its test on the position and on the
    previous character, [i == 0 || str[i - 1]] is [e] or [E], carried as
    the flag [sign_ok]. *)
Fixpoint numeric_scan (sign_ok : bool) (rest : string)
  (info : NumericInfo) (has_digit : bool) : NumericInfo * bool :=
  match rest with
  | EmptyString => (info, has_digit)
  | String c rest' =>
      if is_e c then
        if has_exponent info then (not_a_number info, has_digit)
        else numeric_scan true rest'
               {| is_number := is_number info;
                  has_decimal := has_decimal info;
                  has_exponent := true |} has_digit
      else if is_sign c then
        if sign_ok then numeric_scan false rest' info has_digit
        else (not_a_number info, has_digit)
      else if is_point c then
        if has_decimal info || has_exponent info then (not_a_number info, has_digit)
        else numeric_scan false rest'
               {| is_number := is_number info;
                  has_decimal := true;
                  has_exponent := has_exponent info |} has_digit
      else if isdigit c then numeric_scan false rest' info true
      else (not_a_number info, has_digit)
  end.

(** [qstr.replace(',', '.')] on one character. *)
Definition comma_to_point (c : ascii) : ascii :=
  if Ascii.eqb c "," then "."%char else c.

(** The patterns of the day/month blocks. *)
Definition day_month_patterns : list string :=
  [ "%d/%m/%Y %H:%M:%S"; "%m/%d/%Y %H:%M:%S"; "%d-%m-%Y %H:%M:%S" ].

(** [rest] is empty or begins with a character that is not a digit. *)
Definition stops_digits (rest : string) : bool :=
  match rest with
  | EmptyString => true
  | String c _ => negb (isdigit c)
  end.

(** * [PJ::StringRef], the owning string class

    The class manages [char] arrays on the free store by hand.  The
    embedding keeps a memory: the arrays made by [new char[n]] that were not
    yet given to [delete[]], and the [StringRef] objects alive, each at its
    location.
    - Addresses of arrays are block identifiers and are not handed out twice;
      the class compares its pointers with [nullptr] only, and the locations
      of two objects in [this != &other].
    - A cell of a fresh array holds no value until it is written; reading it,
      reading or writing outside an array or in an array given to
      [delete[]], and giving an array to [delete[]] twice are undefined
      behaviour.
    - [new] is taken to succeed, and [size_t] is [nat]: a length is that of
      a buffer that exists.
    - [const char*] arguments are the characters readable from the pointer,
      [None] for [nullptr]. *)

Module StringRef.

Local Open Scope nat_scope.
Local Open Scope list_scope.

Definition address : Type := nat.

(** The members [_data] and [_size]. *)
Record object : Type := { _data : option address; _size : nat }.

Record memory : Type := {
  arrays : address -> option (list (option ascii));
  fresh : address;
  objects : nat -> option object
}.

Definition update {A : Type} (f : nat -> option A) (k : nat) (v : option A)
  : nat -> option A :=
  fun x => if x =? k then v else f x.

Definition set_array (a : address) (cells : option (list (option ascii)))
  (m : memory) : memory :=
  {| arrays := update (arrays m) a cells; fresh := fresh m; objects := objects m |}.

Definition set_object (this : nat) (o : option object) (m : memory) : memory :=
  {| arrays := arrays m; fresh := fresh m; objects := update (objects m) this o |}.

(** Using an object that is not alive is undefined behaviour. *)
Definition get_object (this : nat) (m : memory) : outcome object :=
  match objects m this with
  | Some o => Ret o
  | None => Undefined
  end.

(** [new char[n]] *)
Definition new_array (n : nat) (m : memory) : address * memory :=
  (fresh m,
   {| arrays := update (arrays m) (fresh m) (Some (repeat None n));
      fresh := S (fresh m);
      objects := objects m |}).

(** [delete[] p] *)
Definition delete_array (p : option address) (m : memory) : outcome memory :=
  match p with
  | None => Ret m
  | Some a =>
      match arrays m a with
      | Some _ => Ret (set_array a None m)
      | None => Undefined
      end
  end.

(** The values of initialised cells. *)
Fixpoint values (cells : list (option ascii)) : outcome (list ascii) :=
  match cells with
  | [] => Ret []
  | Some c :: cells' => (cs <- values cells' ;; Ret (c :: cs))%outcome
  | None :: _ => Undefined
  end.

(** The [n] characters read from the start of the array at [a]. *)
Definition load (a : address) (n : nat) (m : memory) : outcome (list ascii) :=
  match arrays m a with
  | Some cells => if n <=? List.length cells then values (firstn n cells) else Undefined
  | None => Undefined
  end.

(** [memcpy(dst, src, n)] for the characters [src] readable at the source. *)
Definition memcpy (dst : address) (src : list ascii) (n : nat) (m : memory)
  : outcome memory :=
  match arrays m dst with
  | Some cells =>
      if (n <=? List.length src) && (n <=? List.length cells)
      then Ret (set_array dst (Some (map Some (firstn n src) ++ skipn n cells)) m)
      else Undefined
  | None => Undefined
  end.

(** [p[i] = c] *)
Definition store (a : address) (i : nat) (c : ascii) (m : memory) : outcome memory :=
  match arrays m a with
  | Some cells =>
      if i <? List.length cells
      then Ret (set_array a (Some (firstn i cells ++ Some c :: skipn (S i) cells)) m)
      else Undefined
  | None => Undefined
  end.

Definition null_object : object := {| _data := None; _size := 0 |}.

Definition isSSO : bool := true.

(** [StringRef()] *)
Definition construct_default (this : nat) (m : memory) : outcome memory :=
  Ret (set_object this (Some null_object) m).

(** [explicit StringRef(const char* data_ptr, size_t length)] *)
Definition construct (this : nat) (data_ptr : option (list ascii)) (length : nat)
  (m : memory) : outcome memory :=
  match data_ptr with
  | Some src =>
      if 0 <? length then
        let '(a, m) := new_array (length + 1) m in
        (m <- memcpy a src length m ;;
         m <- store a length zero m ;;
         Ret (set_object this (Some {| _data := Some a; _size := length |}) m))%outcome
      else Ret (set_object this (Some null_object) m)
  | None => Ret (set_object this (Some null_object) m)
  end.

(** [StringRef(const std::string& str)]: [str.data()] points to the
    characters of [str], followed by a terminator. *)
Definition construct_string (this : nat) (str : string) (m : memory) : outcome memory :=
  construct this (Some (list_ascii_of_string str ++ [zero])) (String.length str) m.

(** [strlen]: the characters before the first terminator. *)
Fixpoint strlen (str : list ascii) : outcome nat :=
  match str with
  | [] => Undefined
  | c :: str' =>
      if Ascii.eqb c zero then Ret 0
      else (n <- strlen str' ;; Ret (S n))%outcome
  end.

(** [StringRef(const char* str)] *)
Definition construct_c_str (this : nat) (str : option (list ascii)) (m : memory)
  : outcome memory :=
  (length <- match str with Some s => strlen s | None => Ret 0 end ;;
   construct this str length m)%outcome.

(** [StringRef(const std::string_view& str)] *)
Definition construct_view (this : nat) (data : option (list ascii)) (size : nat)
  (m : memory) : outcome memory :=
  construct this data size m.

(** [~StringRef()] *)
Definition destroy (this : nat) (m : memory) : outcome memory :=
  (self <- get_object this m ;;
   m <- delete_array (_data self) m ;;
   Ret (set_object this None m))%outcome.

(** The body shared by the copy constructor and the copy assignment. *)
Definition copy_members (this other : nat) (m : memory) : outcome memory :=
  (o <- get_object other m ;;
   match _data o with
   | Some src =>
       let '(a, m) := new_array (_size o + 1) m in
       chars <- load src (_size o + 1) m ;;
       m <- memcpy a chars (_size o + 1) m ;;
       Ret (set_object this (Some {| _data := Some a; _size := _size o |}) m)
   | None => Ret (set_object this (Some null_object) m)
   end)%outcome.

(** [StringRef(const StringRef& other)] *)
Definition copy_construct (this other : nat) (m : memory) : outcome memory :=
  copy_members this other m.

(** [StringRef& operator=(const StringRef& other)] *)
Definition copy_assign (this other : nat) (m : memory) : outcome memory :=
  if negb (this =? other) then
    (self <- get_object this m ;;
     m <- delete_array (_data self) m ;;
     copy_members this other m)%outcome
  else Ret m.

(** The body shared by the move constructor and the move assignment. *)
Definition move_members (this other : nat) (m : memory) : outcome memory :=
  (o <- get_object other m ;;
   let m := set_object this (Some {| _data := _data o; _size := _size o |}) m in
   Ret (set_object other (Some null_object) m))%outcome.

(** [StringRef(StringRef&& other) noexcept] *)
Definition move_construct (this other : nat) (m : memory) : outcome memory :=
  move_members this other m.

(** [StringRef& operator=(StringRef&& other) noexcept] *)
Definition move_assign (this other : nat) (m : memory) : outcome memory :=
  if negb (this =? other) then
    (self <- get_object this m ;;
     m <- delete_array (_data self) m ;;
     move_members this other m)%outcome
  else Ret m.

(** [data()] *)
Definition data (this : nat) (m : memory) : outcome (option address) :=
  (self <- get_object this m ;; Ret (_data self))%outcome.

(** [size()] *)
Definition size (this : nat) (m : memory) : outcome nat :=
  (self <- get_object this m ;; Ret (_size self))%outcome.

(** What a reader of [data()] and [size()] sees: the [size()] characters
    at [data()]. *)
Definition chars (this : nat) (m : memory) : outcome (list ascii) :=
  (self <- get_object this m ;;
   match _data self with
   | Some a => load a (_size self) m
   | None => Ret []
   end)%outcome.

(** The class invariant, over the whole memory: an object either is empty
    ([nullptr], size 0) or points to a live array of [size + 1] initialised
    characters, the last one the terminator; no array belongs to two
    objects; every live array belongs to an object. *)
Record consistent (m : memory) : Prop := {
  fresh_unused : forall a, fresh m <= a -> arrays m a = None;
  object_owns :
    forall this o, objects m this = Some o ->
      match _data o with
      | Some a =>
          0 < _size o
          /\ exists cs, List.length cs = _size o
                        /\ arrays m a = Some (map Some (cs ++ [zero]))
      | None => _size o = 0
      end;
  not_shared :
    forall this other o o' a,
      objects m this = Some o -> objects m other = Some o' ->
      _data o = Some a -> _data o' = Some a -> this = other;
  not_leaked :
    forall a cells, arrays m a = Some cells ->
      exists this o, objects m this = Some o /\ _data o = Some a
}.

(** The memory before any object is made. *)
Definition empty_memory : memory :=
  {| arrays := fun _ => None; fresh := 0; objects := fun _ => None |}.

(** A use of the class. *)
Inductive operation : Type :=
| Default (this : nat)
| Construct (this : nat) (data_ptr : option (list ascii)) (length : nat)
| CopyConstruct (this other : nat)
| CopyAssign (this other : nat)
| MoveConstruct (this other : nat)
| MoveAssign (this other : nat)
| Destroy (this : nat).

Definition perform (op : operation) (m : memory) : outcome memory :=
  match op with
  | Default this => construct_default this m
  | Construct this data_ptr length => construct this data_ptr length m
  | CopyConstruct this other => copy_construct this other m
  | CopyAssign this other => copy_assign this other m
  | MoveConstruct this other => move_construct this other m
  | MoveAssign this other => move_assign this other m
  | Destroy this => destroy this m
  end.

Fixpoint perform_all (ops : list operation) (m : memory) : outcome memory :=
  match ops with
  | [] => Ret m
  | op :: ops' => (m <- perform op m ;; perform_all ops' m)%outcome
  end.

Definition alive (this : nat) (m : memory) : bool :=
  match objects m this with Some _ => true | None => false end.

(** What the language asks of the caller: an object is constructed where
    none is alive, the objects used are alive, and the buffer given to the
    constructor holds the announced number of characters. *)
Definition permitted (op : operation) (m : memory) : bool :=
  match op with
  | Default this => negb (alive this m)
  | Construct this data_ptr length =>
      negb (alive this m)
      && match data_ptr with
         | Some src => length <=? List.length src
         | None => true
         end
  | CopyConstruct this other | MoveConstruct this other =>
      negb (alive this m) && alive other m
  | CopyAssign this other | MoveAssign this other =>
      alive this m && alive other m
  | Destroy this => alive this m
  end.

(** Every operation of [ops] is permitted in the memory it is performed in. *)
Fixpoint permitted_all (ops : list operation) (m : memory) : bool :=
  match ops with
  | [] => true
  | op :: ops' =>
      permitted op m
      && match perform op m with
         | Ret m' => permitted_all ops' m'
         | _ => true
         end
  end.

(** A memory with two objects: one made from the characters [hi] at
    location 0, an empty one at location 1. *)
Definition example_memory : memory :=
  match perform_all [ Construct 0 (Some [ "h"; "i"; zero ]%char) 2; Default 1 ]
          empty_memory with
  | Ret m => m
  | _ => empty_memory
  end.

End StringRef.

(** * Properties *)

(** ** Integer to double conversion *)

Lemma digits2_pos_size (p : positive) : digits2_pos p = Pos.size p.
Proof. induction p; simpl; congruence. Qed.

Lemma size_of_31_bits (p : positive) :
  2 ^ 30 <= Z.pos p < 2 ^ 31 -> Pos.size p = 31%positive.
Proof.
  intros [Hlo Hhi].
  pose proof (Pos.size_gt p) as Hgt.
  pose proof (Pos.size_le p) as Hle.
  apply Pos2Z.pos_lt_pos in Hgt. apply Pos2Z.pos_le_pos in Hle.
  rewrite Pos2Z.inj_pow in Hgt, Hle.
  change (Z.pos p~0) with (2 * Z.pos p) in Hle.
  assert (H1 : 30 < Z.pos (Pos.size p)).
  { apply (Z.pow_lt_mono_r_iff 2); [lia | lia |].
    eapply Z.le_lt_trans; eassumption. }
  assert (H2 : Z.pos (Pos.size p) < 32).
  { apply (Z.pow_lt_mono_r_iff 2); [lia | lia |].
    eapply Z.le_lt_trans; [eassumption |].
    change (2 ^ 32) with (2 * 2 ^ 31). lia. }
  lia.
Qed.

Lemma digits2_pos_31_bits (p : positive) :
  2 ^ 30 <= Z.pos p < 2 ^ 31 -> digits2_pos p = 31%positive.
Proof. intros H. rewrite digits2_pos_size. now apply size_of_31_bits. Qed.

(** A 31-bit integer is converted without rounding: its 53-bit mantissa is
    the integer shifted left by 22. *)
Lemma Z2D_31_bits (p : positive) :
  2 ^ 30 <= Z.pos p < 2 ^ 31 ->
  Z2D (Z.pos p) = S754_finite false (Pos.iter xO p 22) (-22).
Proof.
  intros H. unfold Z2D, binary_normalize, binary_round.
  rewrite (digits2_pos_31_bits p H).
  change (shl_align p 0 (fexp 53 1024 (31 + 0))) with (Pos.iter xO p 22, -22).
  assert (Hs : digits2_pos (Pos.iter xO p 22) = 53%positive).
  { cbv [Pos.iter]. cbn [digits2_pos].
    rewrite (digits2_pos_31_bits p H). reflexivity. }
  unfold binary_round_aux, shr_fexp, Zdigits2.
  rewrite Hs.
  change (fexp 53 1024 (53 + -22) - -22) with 0.
  cbn [shr shr_record_of_loc shr_m loc_of_shr_record round_nearest_even].
  rewrite Hs.
  change (fexp 53 1024 (53 + -22) - -22) with 0.
  cbn [shr shr_record_of_loc shr_m].
  reflexivity.
Qed.

Lemma iter_xO_22 (p : positive) : Z.pos (Pos.iter xO p 22) = Z.pos p * 2 ^ 22.
Proof. simpl. lia. Qed.

Lemma D2Z_Z2D_31_bits (t : Z) : 2 ^ 30 <= t < 2 ^ 31 -> D2Z (Z2D t) = Some t.
Proof.
  intros H. destruct t as [|p|p]; try lia.
  rewrite (Z2D_31_bits p H). unfold D2Z.
  change (0 <=? -22) with false. cbv iota.
  change (- -22) with 22.
  rewrite iter_xO_22.
  rewrite Z.mod_mul by lia. rewrite Z.eqb_refl.
  rewrite Z.div_mul by lia. reflexivity.
Qed.

(** ** EpochClassifier *)

Lemma DetectEpochType_chain (t : Z) :
  DetectEpochType t =
    if in_window 1000000000 t then EPOCH_NANOS
    else if in_window 1000000 t then EPOCH_MICROS
    else if in_window 1000 t then EPOCH_MILLIS
    else if in_window 1 t then EPOCH_SECONDS
    else NUMBER.
Proof. reflexivity. Qed.

Lemma DetectEpochType_seconds (t : Z) :
  EPOCH_FIRST < t < EPOCH_LAST -> DetectEpochType t = EPOCH_SECONDS.
Proof.
  unfold EPOCH_FIRST, EPOCH_LAST. intros H.
  rewrite DetectEpochType_chain. unfold in_window, EPOCH_FIRST, EPOCH_LAST.
  replace (1400000000 * 1000000000 <? t) with false by (symmetry; apply Z.ltb_ge; lia).
  replace (1400000000 * 1000000 <? t) with false by (symmetry; apply Z.ltb_ge; lia).
  replace (1400000000 * 1000 <? t) with false by (symmetry; apply Z.ltb_ge; lia).
  replace (1400000000 * 1 <? t) with true by (symmetry; apply Z.ltb_lt; lia).
  replace (t <? 2000000000 * 1) with true by (symmetry; apply Z.ltb_lt; lia).
  reflexivity.
Qed.

(** C7. Every [t] strictly inside the seconds window is classified
    [EPOCH_SECONDS] and converted to the double that denotes exactly [t];
    in general the nanosecond, microsecond, millisecond and second windows
    are tested in that order, the first one that holds [t] strictly inside
    decides, and a [t] in none of them is a [NUMBER]. *)
Theorem DetectEpochType_windows (t : Z) :
  (EPOCH_FIRST < t < EPOCH_LAST ->
   DetectEpochType t = EPOCH_SECONDS
   /\ D2Z (EpochToSeconds t EPOCH_SECONDS) = Some t)
  /\ DetectEpochType t =
       (if in_window 1000000000 t then EPOCH_NANOS
        else if in_window 1000000 t then EPOCH_MICROS
        else if in_window 1000 t then EPOCH_MILLIS
        else if in_window 1 t then EPOCH_SECONDS
        else NUMBER).
Proof.
  split; [| apply DetectEpochType_chain].
  intros H. split; [now apply DetectEpochType_seconds |].
  unfold EpochToSeconds. apply D2Z_Z2D_31_bits.
  unfold EPOCH_FIRST, EPOCH_LAST in H. lia.
Qed.

Lemma DetectEpochType_windows_witness :
  DetectEpochType 1700000000 = EPOCH_SECONDS
  /\ D2Z (EpochToSeconds 1700000000 EPOCH_SECONDS) = Some 1700000000.
Proof.
  apply (proj1 (DetectEpochType_windows 1700000000)).
  unfold EPOCH_FIRST, EPOCH_LAST. lia.
Defined.

(** ** AmbiguousDateResolver *)

Lemma wrap32_small (z : Z) : - 2 ^ 31 <= z < 2 ^ 31 -> wrap32 z = z.
Proof. intros H. unfold wrap32. rewrite Z.mod_small; lia. Qed.

Lemma wrap32_mod (z : Z) : wrap32 z mod 2 ^ 32 = z mod 2 ^ 32.
Proof.
  unfold wrap32. rewrite Zminus_mod_idemp_l. f_equal. lia.
Qed.

Lemma wrap32_eqm (x y : Z) : x mod 2 ^ 32 = y mod 2 ^ 32 -> wrap32 x = wrap32 y.
Proof.
  intros H. unfold wrap32.
  rewrite (Z.add_mod x), (Z.add_mod y), H by lia. reflexivity.
Qed.

Lemma wrap32_step (a d : Z) :
  wrap32 (wrap32 (wrap32 a * 10) + d) = wrap32 (a * 10 + d).
Proof.
  apply wrap32_eqm.
  rewrite Z.add_mod, wrap32_mod by lia.
  rewrite Z.mul_mod, wrap32_mod by lia.
  rewrite <- Z.mul_mod, <- Z.add_mod by lia. reflexivity.
Qed.

(** The [int] loop computes the leading number modulo [2^32]. *)
Lemma read_field_wrap (s : string) (a : Z) :
  read_field (wrap32 a) s
  = (wrap32 (fst (leading_number a s)), snd (leading_number a s)).
Proof.
  revert a. induction s as [|c s IH]; intros a; simpl.
  - reflexivity.
  - destruct (isdigit c); [| reflexivity].
    rewrite wrap32_step. apply IH.
Qed.

Lemma isdigit_digit_val (c : ascii) : isdigit c = true -> 0 <= digit_val c <= 9.
Proof.
  unfold isdigit, digit_val. intros H.
  apply andb_true_iff in H. destruct H as [H1 H2].
  apply Z.leb_le in H1, H2. lia.
Qed.

Lemma leading_number_ge (s : string) (a : Z) :
  0 <= a -> a <= fst (leading_number a s).
Proof.
  revert a. induction s as [|c s IH]; intros a Ha; simpl.
  - lia.
  - destruct (isdigit c) eqn:Hc; simpl; [| lia].
    pose proof (isdigit_digit_val c Hc).
    specialize (IH (a * 10 + digit_val c)). lia.
Qed.

Lemma first_field_spec (str : string) :
  field1 str < 2 ^ 31 -> first_field str = field1 str.
Proof.
  unfold first_field, field1. intros H.
  change 0 with (wrap32 0) at 1. rewrite read_field_wrap. simpl.
  apply wrap32_small. pose proof (leading_number_ge str 0). lia.
Qed.

Lemma second_field_spec (str : string) (sep : ascii) :
  field2 str sep < 2 ^ 31 -> second_field str sep = field2 str sep.
Proof.
  unfold second_field, field2. intros H.
  change 0 with (wrap32 0) at 2. rewrite read_field_wrap. simpl.
  change 0 with (wrap32 0) at 1. rewrite read_field_wrap. simpl.
  apply wrap32_small.
  pose proof (leading_number_ge
                (skip_separator sep (snd (leading_number 0 str))) 0). lia.
Qed.

(** C4, as the code has it.  For fields that fit an [int]:
    [IsDayFirstFormat] answers [true] when the first field lies in 13..31;
    otherwise [false] when the second field lies in 13..31; otherwise
    [true].  The three examples of the design document hold. *)
Theorem IsDayFirstFormat_rule (str : string) (separator : ascii) :
  field1 str < 2 ^ 31 ->
  field2 str separator < 2 ^ 31 ->
  IsDayFirstFormat str separator =
    (if (12 <? field1 str) && (field1 str <=? 31) then true
     else if (12 <? field2 str separator) && (field2 str separator <=? 31) then false
     else true)
  /\ IsDayFirstFormat "13/05/2024" "/" = true
  /\ IsDayFirstFormat "05/13/2024" "/" = false
  /\ IsDayFirstFormat "05/06/2024" "/" = true.
Proof.
  intros H1 H2. split; [| repeat split; reflexivity].
  unfold IsDayFirstFormat.
  rewrite (first_field_spec str H1), (second_field_spec str separator H2).
  reflexivity.
Qed.

Lemma IsDayFirstFormat_rule_witness :
  IsDayFirstFormat "15-15-2024" "-" =
    (if (12 <? field1 "15-15-2024") && (field1 "15-15-2024" <=? 31) then true
     else if (12 <? field2 "15-15-2024" "-") && (field2 "15-15-2024" "-" <=? 31)
          then false
          else true)
  /\ IsDayFirstFormat "13/05/2024" "/" = true
  /\ IsDayFirstFormat "05/13/2024" "/" = false
  /\ IsDayFirstFormat "05/06/2024" "/" = true.
Proof.
  apply (IsDayFirstFormat_rule "15-15-2024" "-"); vm_compute; reflexivity.
Defined.

(** C4 as stated fails: the first field of ["32/13/2024"] is 32, greater
    than 12, and the answer is [false]; the second field of ["05/32/2024"]
    is 32, greater than 12 with a first field of 5, and the answer is [true]. *)
Lemma IsDayFirstFormat_first_field_above_31 :
  field1 "32/13/2024" = 32
  /\ IsDayFirstFormat "32/13/2024" "/" = false
  /\ field1 "05/32/2024" = 5
  /\ field2 "05/32/2024" "/" = 32
  /\ IsDayFirstFormat "05/32/2024" "/" = true.
Proof. repeat split; reflexivity. Qed.

(** ** [std::string] operations *)

Lemma size_drop (n : nat) (s : string) : size (drop n s) = (size s - n)%nat.
Proof.
  revert s. induction n as [|n IH]; intros [|c s]; simpl; auto.
Qed.

Lemma size_take (n : nat) (s : string) : size (take n s) = Nat.min n (size s).
Proof.
  revert s. induction n as [|n IH]; intros [|c s]; simpl; auto.
Qed.

Lemma size_append (s t : string) : size (s ++ t) = (size s + size t)%nat.
Proof. induction s as [|c s IH]; simpl; auto. Qed.

Lemma size_repeat_char (n : nat) (c : ascii) : size (repeat_char n c) = n.
Proof. induction n; simpl; auto. Qed.

Lemma take_all (n : nat) (s : string) : (size s <= n)%nat -> take n s = s.
Proof.
  revert s. induction n as [|n IH]; intros [|c s]; simpl; intros H; auto; try lia.
  f_equal. apply IH. lia.
Qed.

Lemma take_append (n : nat) (s t : string) :
  take n (s ++ t) = take n s ++ take (n - size s) t.
Proof.
  revert n. induction s as [|c s IH]; intros n; simpl.
  - rewrite Nat.sub_0_r. destruct n; reflexivity.
  - destruct n as [|n]; simpl; [reflexivity |]. f_equal. apply IH.
Qed.

Lemma take_repeat_char (k n : nat) (c : ascii) :
  (k <= n)%nat -> take k (repeat_char n c) = repeat_char k c.
Proof.
  revert n. induction k as [|k IH]; intros [|n] H; simpl; auto; try lia.
  f_equal. apply IH. lia.
Qed.

Lemma span_le (p : ascii -> bool) (s : string) : (span p s <= size s)%nat.
Proof. induction s as [|c s IH]; simpl; [lia |]. destruct (p c); simpl; lia. Qed.

Lemma rfind_char_lt (c : ascii) (s : string) (i : nat) :
  rfind_char c s = Some i -> (i < size s)%nat.
Proof.
  revert i. induction s as [|d s IH]; simpl; intros i H; [discriminate |].
  destruct (rfind_char c s) as [j|].
  - injection H as <-. specialize (IH j eq_refl). lia.
  - destruct (Ascii.eqb d c); [injection H as <-; lia | discriminate].
Qed.

Lemma all_chars_take_span (p : ascii -> bool) (s : string) :
  all_chars p (take (span p s) s) = true.
Proof.
  induction s as [|c s IH]; simpl; [reflexivity |].
  destruct (p c) eqn:Hc; simpl; [| reflexivity]. now rewrite Hc.
Qed.

Lemma all_chars_append (p : ascii -> bool) (s t : string) :
  all_chars p (s ++ t) = all_chars p s && all_chars p t.
Proof.
  induction s as [|c s IH]; simpl; [reflexivity |].
  rewrite IH. now rewrite andb_assoc.
Qed.

Lemma all_chars_take (p : ascii -> bool) (n : nat) (s : string) :
  all_chars p s = true -> all_chars p (take n s) = true.
Proof.
  revert s. induction n as [|n IH]; intros [|c s]; simpl; auto.
  intros H. apply andb_true_iff in H. destruct H as [Hc Hs].
  rewrite Hc. simpl. now apply IH.
Qed.

(** ** [std::stoll] on a run of decimal digits *)

Lemma isdigit_in_base_10 (c : ascii) :
  isdigit c = true -> digit_in_base 10 c = Some (digit_val c).
Proof.
  unfold isdigit, digit_in_base, digit_val. intros H. rewrite H.
  apply andb_true_iff in H. destruct H as [H1 H2]. apply Z.leb_le in H1, H2.
  replace (code c - 48 <? 10) with true by (symmetry; apply Z.ltb_lt; lia).
  reflexivity.
Qed.

Lemma isdigit_not_space (c : ascii) : isdigit c = true -> isspace c = false.
Proof.
  unfold isdigit, isspace. intros H.
  apply andb_true_iff in H. destruct H as [H1 H2]. apply Z.leb_le in H1, H2.
  apply orb_false_iff. split.
  - apply Z.eqb_neq. lia.
  - apply andb_false_iff. right. apply Z.leb_gt. lia.
Qed.

Lemma isdigit_not_char (c d : ascii) :
  isdigit c = true -> isdigit d = false -> Ascii.eqb c d = false.
Proof.
  intros Hc Hd. destruct (Ascii.eqb c d) eqn:E; [| reflexivity].
  apply Ascii.eqb_eq in E. congruence.
Qed.

Lemma digits_value_bounds (s : string) (acc : Z) :
  all_chars isdigit s = true -> 0 <= acc ->
  acc * 10 ^ Z.of_nat (size s) <= digits_value 10 acc s
  /\ digits_value 10 acc s < (acc + 1) * 10 ^ Z.of_nat (size s).
Proof.
  revert acc. induction s as [|c s IH]; intros acc Hs Hacc.
  - simpl. lia.
  - simpl in Hs. apply andb_true_iff in Hs. destruct Hs as [Hc Hs].
    cbn [digits_value size String.length].
    rewrite (isdigit_in_base_10 c Hc).
    pose proof (isdigit_digit_val c Hc) as Hd.
    specialize (IH (acc * 10 + digit_val c) Hs ltac:(lia)).
    change (String.length s) with (size s).
    rewrite Nat2Z.inj_succ, Z.pow_succ_r by lia.
    assert (0 < 10 ^ Z.of_nat (size s)) by (apply Z.pow_pos_nonneg; lia).
    nia.
Qed.

Lemma stoll_digits (s : string) :
  all_chars isdigit s = true -> s <> "" -> (size s <= 18)%nat ->
  stoll s = Ret (digits_value 10 0 s).
Proof.
  intros Hs Hne Hlen.
  pose proof (digits_value_bounds s 0 Hs ltac:(lia)) as [Hlo Hhi].
  destruct s as [|c s]; [congruence |].
  pose proof Hs as Hs'. simpl in Hs'. apply andb_true_iff in Hs'. destruct Hs' as [Hc Hs'].
  unfold stoll, stoll_base.
  assert (Hsp : span isspace (String c s) = 0%nat).
  { simpl. now rewrite (isdigit_not_space c Hc). }
  rewrite Hsp. cbn [drop].
  assert (Hsg : strip_sign (String c s) = (false, String c s)).
  { unfold strip_sign.
    rewrite (isdigit_not_char c "-" Hc eq_refl), (isdigit_not_char c "+" Hc eq_refl).
    reflexivity. }
  rewrite Hsg. cbn [fst snd].
  assert (Hhex : skip_hex_prefix 10 (String c s) = String c s).
  { unfold skip_hex_prefix. destruct s as [|x [|h r]]; reflexivity. }
  rewrite Hhex.
  assert (Hdig : span (is_digit_in_base 10) (String c s) <> 0%nat).
  { simpl. unfold is_digit_in_base. rewrite (isdigit_in_base_10 c Hc). discriminate. }
  apply Nat.eqb_neq in Hdig. rewrite Hdig.
  assert (Hpow : 10 ^ Z.of_nat (size (String c s)) <= 10 ^ 18).
  { apply Z.pow_le_mono_r; lia. }
  replace (digits_value 10 0 (String c s) <? INT64_MIN) with false
    by (symmetry; apply Z.ltb_ge; unfold INT64_MIN; lia).
  replace (INT64_MAX <? digits_value 10 0 (String c s)) with false
    by (symmetry; apply Z.ltb_ge; unfold INT64_MAX; lia).
  reflexivity.
Qed.

(** ** FractionalSecondSplitter *)

Lemma size_digit_run (s : string) : size (digit_run s) = span isdigit s.
Proof. unfold digit_run. rewrite size_take. pose proof (span_le isdigit s). lia. Qed.

Lemma all_digits_nine (digits : string) :
  all_chars isdigit digits = true -> all_chars isdigit (nine_digits digits) = true.
Proof.
  intros H. unfold nine_digits. apply all_chars_take.
  rewrite all_chars_append, H. reflexivity.
Qed.

Lemma size_nine_digits (digits : string) : size (nine_digits digits) = 9%nat.
Proof.
  unfold nine_digits. rewrite size_take, size_append, size_repeat_char. lia.
Qed.

(** The pad-or-truncate step yields [nine_digits]. *)
Lemma pad_or_truncate (frac_str : string) :
  (if (size frac_str <? 9)%nat
   then Ret (frac_str ++ repeat_char (9 - size frac_str) "0")
   else if (9 <? size frac_str)%nat then substr frac_str 0 9 else Ret frac_str)
  = Ret (nine_digits frac_str).
Proof.
  unfold nine_digits. rewrite take_append.
  destruct (size frac_str <? 9)%nat eqn:E1.
  - apply Nat.ltb_lt in E1.
    rewrite (take_all 9 frac_str) by lia.
    rewrite take_repeat_char by lia. reflexivity.
  - apply Nat.ltb_ge in E1.
    replace (9 - size frac_str)%nat with 0%nat by lia.
    assert (Ht : take 0 (repeat_char 9 "0") = "") by reflexivity.
    rewrite Ht.
    assert (Happ : forall s, s ++ "" = s).
    { induction s as [|c s IH]; simpl; congruence. }
    rewrite Happ.
    destruct (9 <? size frac_str)%nat eqn:E2.
    + unfold substr. simpl. reflexivity.
    + apply Nat.ltb_ge in E2. rewrite take_all by lia. reflexivity.
Qed.

Lemma stoll_nine_digits (digits : string) :
  all_chars isdigit digits = true ->
  stoll (nine_digits digits) = Ret (digits_value 10 0 (nine_digits digits))
  /\ 0 <= digits_value 10 0 (nine_digits digits) <= 999999999.
Proof.
  intros H.
  pose proof (all_digits_nine digits H) as Hall.
  pose proof (size_nine_digits digits) as Hsz.
  split.
  - apply stoll_digits; [assumption | | lia].
    intros E. rewrite E in Hsz. discriminate.
  - pose proof (digits_value_bounds _ 0 Hall ltac:(lia)) as [Hlo Hhi].
    rewrite Hsz in Hlo, Hhi. change (10 ^ Z.of_nat 9) with 1000000000 in *. lia.
Qed.

(** The fraction is extracted exactly when the last ['.'] follows the last
    [':'] and a digit follows it. *)
Lemma Extract_fraction (input : string) (d c : nat) :
  rfind_char "." input = Some d -> rfind_char ":" input = Some c -> (c < d)%nat ->
  digit_run (drop (d + 1) input) <> "" ->
  ExtractFractionalSeconds input
  = Ret (take d input ++ drop (d + 1 + size (digit_run (drop (d + 1) input))) input,
         digits_value 10 0 (nine_digits (digit_run (drop (d + 1) input)))).
Proof.
  intros Hd Hc Hlt Hrun.
  pose proof (rfind_char_lt _ _ _ Hd) as Hdlt.
  pose proof (span_le isdigit (drop (d + 1) input)) as Hsp.
  rewrite size_drop in Hsp.
  rewrite size_digit_run.
  assert (Hpos : span isdigit (drop (d + 1) input) <> 0%nat).
  { intros E. apply Hrun. unfold digit_run. rewrite E. reflexivity. }
  unfold ExtractFractionalSeconds. rewrite Hd, Hc.
  replace (d <=? c)%nat with false by (symmetry; apply Nat.leb_gt; lia).
  replace (d + 1 + span isdigit (drop (d + 1) input) <=? d + 1)%nat with false
    by (symmetry; apply Nat.leb_gt; lia).
  unfold substr at 1.
  replace (d + 1 <=? size input)%nat with true by (symmetry; apply Nat.leb_le; lia).
  replace (d + 1 + span isdigit (drop (d + 1) input) - (d + 1))%nat
    with (span isdigit (drop (d + 1) input)) by lia.
  cbn [obind]. fold (digit_run (drop (d + 1) input)).
  rewrite pad_or_truncate. cbn [obind].
  destruct (stoll_nine_digits (digit_run (drop (d + 1) input))) as [Hst _].
  { unfold digit_run. apply all_chars_take_span. }
  rewrite Hst. cbn [ocatch obind].
  unfold substr, substr_from. cbn [Nat.leb drop].
  replace (d + 1 + span isdigit (drop (d + 1) input) <=? size input)%nat with true
    by (symmetry; apply Nat.leb_le; lia).
  reflexivity.
Qed.

Lemma Extract_unchanged_or_fraction (input : string) :
  ExtractFractionalSeconds input = Ret (input, 0)
  \/ exists d c, rfind_char "." input = Some d /\ rfind_char ":" input = Some c
       /\ (c < d)%nat /\ digit_run (drop (d + 1) input) <> "".
Proof.
  destruct (rfind_char "." input) as [d|] eqn:Hd;
    [| left; unfold ExtractFractionalSeconds; rewrite Hd; reflexivity].
  destruct (rfind_char ":" input) as [c|] eqn:Hc;
    [| left; unfold ExtractFractionalSeconds; rewrite Hd, Hc; reflexivity].
  destruct (d <=? c)%nat eqn:E;
    [left; unfold ExtractFractionalSeconds; rewrite Hd, Hc, E; reflexivity |].
  apply Nat.leb_gt in E.
  destruct (span isdigit (drop (d + 1) input)) as [|k] eqn:Hk.
  - left. unfold ExtractFractionalSeconds. rewrite Hd, Hc.
    replace (d <=? c)%nat with false by (symmetry; apply Nat.leb_gt; lia).
    rewrite Hk.
    replace (d + 1 + 0 <=? d + 1)%nat with true by (symmetry; apply Nat.leb_le; lia).
    reflexivity.
  - right. exists d, c. repeat split; auto.
    intros Hr. pose proof (size_digit_run (drop (d + 1) input)) as Hs.
    rewrite Hr, Hk in Hs. discriminate.
Qed.

Lemma Extract_returns (input : string) :
  exists base ns,
    ExtractFractionalSeconds input = Ret (base, ns) /\ 0 <= ns <= 999999999.
Proof.
  destruct (Extract_unchanged_or_fraction input) as [H | (d & c & Hd & Hc & Hlt & Hrun)].
  - exists input, 0. split; [assumption | lia].
  - eexists _, _. split; [apply (Extract_fraction input d c); assumption |].
    apply stoll_nine_digits. unfold digit_run. apply all_chars_take_span.
Qed.

(** A last ['.'] that follows the last [':'] with no digit behind it leaves
    the input as it is. *)
Lemma Extract_no_digit (input : string) (d c : nat) :
  rfind_char "." input = Some d -> rfind_char ":" input = Some c -> (c < d)%nat ->
  digit_run (drop (d + 1) input) = "" ->
  ExtractFractionalSeconds input = Ret (input, 0).
Proof.
  intros Hd Hc Hlt Hrun.
  pose proof (size_digit_run (drop (d + 1) input)) as Hs. rewrite Hrun in Hs.
  unfold ExtractFractionalSeconds. rewrite Hd, Hc.
  replace (d <=? c)%nat with false by (symmetry; apply Nat.leb_gt; lia).
  rewrite <- Hs. cbn [size String.length].
  replace (d + 1 + 0 <=? d + 1)%nat with true by (symmetry; apply Nat.leb_le; lia).
  reflexivity.
Qed.

(** C8, as the code has it.  The nanosecond count always lies in
    0..999999999.  The input comes back unchanged with zero nanoseconds when
    it has no ['.'], when it has no [':'], when its last ['.'] stands before
    its last [':'], and when no digit follows its last ['.'].  In the one
    case left, the last ['.'] following the last [':'] with a digit behind
    it, the ['.'] and the digits after it are removed from the string and
    those digits, padded with zeros to nine digits or cut to the first nine,
    give the nanosecond count. *)
Theorem ExtractFractionalSeconds_spec (input : string) :
  (exists base ns,
     ExtractFractionalSeconds input = Ret (base, ns) /\ 0 <= ns <= 999999999)
  /\ (rfind_char "." input = None ->
      ExtractFractionalSeconds input = Ret (input, 0))
  /\ (rfind_char ":" input = None ->
      ExtractFractionalSeconds input = Ret (input, 0))
  /\ (forall d c : nat,
        rfind_char "." input = Some d -> rfind_char ":" input = Some c ->
        (d < c)%nat ->
        ExtractFractionalSeconds input = Ret (input, 0))
  /\ (forall d c : nat,
        rfind_char "." input = Some d -> rfind_char ":" input = Some c ->
        (c < d)%nat ->
        digit_run (drop (d + 1) input) = "" ->
        ExtractFractionalSeconds input = Ret (input, 0))
  /\ (forall d c : nat,
        rfind_char "." input = Some d -> rfind_char ":" input = Some c ->
        (c < d)%nat ->
        digit_run (drop (d + 1) input) <> "" ->
        ExtractFractionalSeconds input
        = Ret (take d input
                 ++ drop (d + 1 + size (digit_run (drop (d + 1) input))) input,
               digits_value 10 0 (nine_digits (digit_run (drop (d + 1) input)))))
  /\ ExtractFractionalSeconds "12:30:45.5" = Ret ("12:30:45", 500000000)
  /\ ExtractFractionalSeconds "12:30:45" = Ret ("12:30:45", 0)
  /\ ExtractFractionalSeconds "2024.01.01" = Ret ("2024.01.01", 0)
  /\ ExtractFractionalSeconds "12:30:45." = Ret ("12:30:45.", 0).
Proof.
  split; [apply Extract_returns |].
  split.
  { intros H. unfold ExtractFractionalSeconds. rewrite H. reflexivity. }
  split.
  { intros H. unfold ExtractFractionalSeconds. rewrite H.
    destruct (rfind_char "." input); reflexivity. }
  split.
  { intros d c Hd Hc Hlt. unfold ExtractFractionalSeconds. rewrite Hd, Hc.
    replace (d <=? c)%nat with true by (symmetry; apply Nat.leb_le; lia).
    reflexivity. }
  split; [intros d c; apply Extract_no_digit |].
  split; [intros d c; apply Extract_fraction |].
  repeat split; reflexivity.
Qed.

Lemma ExtractFractionalSeconds_spec_witness :
  ExtractFractionalSeconds "10:30:45.123456789123Z"
  = Ret ("10:30:45Z", 123456789).
Proof.
  apply (proj1 (proj2 (proj2 (proj2 (proj2 (proj2
           (ExtractFractionalSeconds_spec "10:30:45.123456789123Z"))))))
           8%nat 5%nat);
    [reflexivity | reflexivity | lia | discriminate].
Defined.

(** C8 as stated fails at ["45.5"]: the string has a ['.'] and a digit run
    after it, which padded to nine digits spells 500000000, but it has no
    [':'], so the code returns it unchanged with zero nanoseconds. *)
Lemma ExtractFractionalSeconds_needs_a_colon :
  rfind_char "." "45.5" = Some 2%nat
  /\ rfind_char ":" "45.5" = None
  /\ digits_value 10 0 (nine_digits (digit_run (drop 3 "45.5"))) = 500000000
  /\ ExtractFractionalSeconds "45.5" = Ret ("45.5", 0).
Proof. repeat split; reflexivity. Qed.

(** ** Runs *)

Lemma rbind_lift_ret {A B : Type} (a : A) (k : A -> run B) :
  rbind (rlift (Ret a)) k = k a.
Proof. unfold rbind, rlift. simpl. destruct (k a); reflexivity. Qed.

Lemma rbind_ret {A B : Type} (a : A) (k : A -> run B) : rbind (rret a) k = k a.
Proof. apply rbind_lift_ret. Qed.

Lemma rbind_returns {A B : Type} (m : run A) (k : A -> run B) (a : A) :
  fst m = Ret a -> rbind m k = (fst (k a), (snd m ++ snd (k a))%list).
Proof. intros H. unfold rbind. rewrite H. reflexivity. Qed.

Lemma returns_rret {A : Type} (a : A) : returns (rret a).
Proof. exists a. reflexivity. Qed.

Lemma returns_rlift {A : Type} (m : outcome A) (a : A) : m = Ret a -> returns (rlift m).
Proof. intros ->. exists a. reflexivity. Qed.

Lemma returns_rbind {A B : Type} (m : run A) (k : A -> run B) :
  returns m -> (forall a, fst m = Ret a -> returns (k a)) -> returns (rbind m k).
Proof.
  intros [a Ha] Hk. destruct (Hk a Ha) as [b Hb].
  exists b. rewrite (rbind_returns m k a Ha). exact Hb.
Qed.

(** A [try] block whose body cannot run into undefined behaviour, with a
    handler that returns, returns. *)
Lemma returns_rcatch {A : Type} (m h : run A) :
  fst m <> Undefined -> returns h -> returns (rcatch m h).
Proof.
  intros Hm [b Hb]. unfold rcatch, returns.
  destruct (fst m) as [a|e|] eqn:E.
  - exists a. exact E.
  - exists b. exact Hb.
  - congruence.
Qed.

Lemma defined_rbind_lift {A B : Type} (m : outcome A) (k : A -> run B) :
  m <> Undefined -> (forall a, m = Ret a -> fst (k a) <> Undefined) ->
  fst (rbind (rlift m) k) <> Undefined.
Proof.
  intros Hm Hk. unfold rbind, rlift. simpl.
  destruct m as [a|e|]; simpl; [apply Hk; reflexivity | discriminate | congruence].
Qed.

(** ** Normalizer *)

Lemma find_first_not_of_lt (set s : string) (i : nat) :
  find_first_not_of set s = Some i -> (i < size s)%nat.
Proof.
  revert i. induction s as [|c s IH]; simpl; intros i H; [discriminate |].
  destruct (mem_char c set).
  - destruct (find_first_not_of set s) as [j|]; [| discriminate].
    injection H as <-. specialize (IH j eq_refl). lia.
  - injection H as <-. lia.
Qed.

Lemma Trim_returns (str : string) : exists trimmed, Trim str = Ret trimmed.
Proof.
  unfold Trim.
  destruct (find_first_not_of blanks str) as [start|] eqn:E; [| eauto].
  apply find_first_not_of_lt in E.
  unfold substr.
  replace (start <=? size str)%nat with true by (symmetry; apply Nat.leb_le; lia).
  destruct (find_last_not_of blanks str); eauto.
Qed.

Lemma Trim_blank (str : string) : blank_only str = true -> Trim str = Ret "".
Proof.
  intros H. unfold Trim.
  assert (E : find_first_not_of blanks str = None).
  { induction str as [|c s IH]; [reflexivity |].
    unfold blank_only in H, IH. cbn [all_chars] in H.
    apply andb_true_iff in H. destruct H as [Hc Hs].
    cbn [find_first_not_of]. rewrite Hc, (IH Hs). reflexivity. }
  rewrite E. reflexivity.
Qed.

(** ** NumericClassifier *)

Lemma back_nonempty (s : string) : s <> "" -> exists c, back s = Ret c.
Proof.
  induction s as [|c s IH]; [congruence |]. intros _.
  destruct s as [|d s]; [exists c; reflexivity |].
  destruct IH as [x Hx]; [discriminate |]. exists x. exact Hx.
Qed.

Lemma CheckNumeric_returns (str : string) :
  str <> "" -> exists info, CheckNumeric str = Ret info.
Proof.
  intros H. unfold CheckNumeric.
  destruct (CheckNumeric_loop str str 0 _ false) as [info has_digit].
  destruct (is_number info); [| eauto].
  destruct (back_nonempty str H) as [c ->]. simpl.
  destruct (negb has_digit || is_e c || is_sign c); eauto.
Qed.

Lemma CheckNumeric_empty : CheckNumeric "" = Undefined.
Proof. reflexivity. Qed.

Lemma empty_false (s : string) : empty s = false -> s <> "".
Proof. destruct s; [discriminate | discriminate]. Qed.

(** ** Totality of the entry points *)

Section Totality.

Variable QLocale_c_toDouble : string -> option double.
Variable date_parse : string -> string -> option (Z * string).

Lemma TryParseFormat_returns (base_str fmt : string) (ns : nanoseconds) :
  returns (TryParseFormat date_parse base_str fmt ns).
Proof.
  unfold returns, TryParseFormat. simpl.
  destruct (date_parse fmt base_str) as [[tp rest]|]; eauto.
Qed.

Lemma try_format_returns (base_str fmt : string) : returns (try_format date_parse base_str fmt).
Proof.
  unfold returns, try_format. simpl.
  destruct (date_parse fmt base_str); eauto.
Qed.

Lemma try_formats_returns (fmts : list string) (base_str : string) (ns : nanoseconds) :
  returns (try_formats date_parse fmts base_str ns).
Proof.
  induction fmts as [|fmt fmts IH]; simpl.
  - apply returns_rret.
  - apply returns_rbind; [apply TryParseFormat_returns |].
    intros [v|] _; [apply returns_rret | exact IH].
Qed.

Lemma detect_formats_returns (fmts : list string) (base_str : string) :
  returns (detect_formats date_parse fmts base_str).
Proof.
  induction fmts as [|fmt fmts IH]; simpl.
  - apply returns_rret.
  - apply returns_rbind; [apply try_format_returns |].
    intros [|] _; [apply returns_rret | exact IH].
Qed.

Lemma auto_ambiguous_returns (base_str : string) (ns : nanoseconds) :
  returns (auto_ambiguous date_parse base_str ns).
Proof.
  unfold auto_ambiguous.
  apply returns_rbind.
  - destruct (ambiguous_guard "/" base_str);
      [apply TryParseFormat_returns | apply returns_rret].
  - intros [v|] _; [apply returns_rret |].
    apply returns_rbind.
    + destruct (ambiguous_guard "-" base_str); [| apply returns_rret].
      destruct (IsDayFirstFormat base_str "-");
        [apply TryParseFormat_returns | apply returns_rret].
    + intros [v|] _; apply returns_rret.
Qed.

Lemma auto_datetime_returns (trimmed : string) :
  returns (auto_datetime date_parse trimmed).
Proof.
  unfold auto_datetime.
  destruct (Extract_returns trimmed) as (base & ns & E & _).
  rewrite E, rbind_lift_ret. cbn [fst snd].
  apply returns_rbind; [apply try_formats_returns |].
  intros [v|] _; [apply returns_rret | apply auto_ambiguous_returns].
Qed.

Lemma stoll_base_defined (s : string) (base : Z) : stoll_base s base <> Undefined.
Proof.
  unfold stoll_base.
  destruct (span _ _ =? 0)%nat; [discriminate |].
  destruct (_ || _); discriminate.
Qed.

Lemma auto_numeric_returns (trimmed : string) (num_info : NumericInfo) :
  returns (auto_numeric QLocale_c_toDouble trimmed num_info).
Proof.
  unfold auto_numeric.
  destruct (is_number num_info); [| apply returns_rret].
  apply returns_rcatch; [| apply returns_rret].
  destruct (negb (has_decimal num_info) && negb (has_exponent num_info)).
  - apply defined_rbind_lift; [apply stoll_base_defined |]. discriminate.
  - discriminate.
Qed.

Lemma AutoParseTimestamp_returns (str : string) :
  returns (AutoParseTimestamp QLocale_c_toDouble date_parse str).
Proof.
  unfold AutoParseTimestamp.
  destruct (Trim_returns str) as [trimmed ->]. rewrite rbind_lift_ret.
  destruct (empty trimmed) eqn:E; [apply returns_rret |].
  destruct (CheckNumeric_returns trimmed (empty_false _ E)) as [info ->].
  rewrite rbind_lift_ret.
  apply returns_rbind; [apply auto_numeric_returns |].
  intros [r|] _; [apply returns_rret | apply auto_datetime_returns].
Qed.

Lemma detect_ambiguous_returns (base_str : string) :
  returns (detect_ambiguous date_parse base_str).
Proof.
  unfold detect_ambiguous.
  apply returns_rbind.
  - destruct (ambiguous_guard "/" base_str); [| apply returns_rret].
    apply returns_rbind; [apply try_format_returns |].
    intros [|] _; apply returns_rret.
  - intros [v|] _; [apply returns_rret |].
    destruct (ambiguous_guard "-" base_str); [| apply returns_rret].
    destruct (IsDayFirstFormat base_str "-"); [| apply returns_rret].
    apply returns_rbind; [apply try_format_returns |].
    intros [|] _; apply returns_rret.
Qed.

Lemma detect_datetime_returns (trimmed : string) :
  returns (detect_datetime date_parse trimmed).
Proof.
  unfold detect_datetime.
  destruct (Extract_returns trimmed) as (base & ns & E & _).
  rewrite E, rbind_lift_ret. cbn [fst snd].
  apply returns_rbind; [apply detect_formats_returns |].
  intros [fmt|] _; [apply returns_rret |].
  apply returns_rbind; [apply detect_ambiguous_returns |].
  intros [fmt|] _; apply returns_rret.
Qed.

Lemma detect_numeric_returns (trimmed : string) (num_info : NumericInfo) :
  returns (detect_numeric trimmed num_info).
Proof.
  unfold detect_numeric.
  destruct (has_decimal num_info); [apply returns_rret |].
  apply returns_rcatch; [| apply returns_rret].
  apply defined_rbind_lift; [apply stoll_base_defined |]. discriminate.
Qed.

Lemma DetectColumnType_returns (str : string) :
  returns (DetectColumnType date_parse str).
Proof.
  unfold DetectColumnType.
  destruct (Trim_returns str) as [trimmed ->]. rewrite rbind_lift_ret.
  destruct (empty trimmed) eqn:E; [apply returns_rret |].
  destruct (has_hex_prefix trimmed); [apply returns_rret |].
  destruct (CheckNumeric_returns trimmed (empty_false _ E)) as [info ->].
  rewrite rbind_lift_ret.
  destruct (is_number info);
    [apply detect_numeric_returns | apply detect_datetime_returns].
Qed.

Lemma ParseWithType_returns (str : string) (type_info : ColumnTypeInfo) :
  returns (ParseWithType QLocale_c_toDouble date_parse str type_info).
Proof.
  unfold ParseWithType.
  destruct (Trim_returns str) as [trimmed ->]. rewrite rbind_lift_ret.
  destruct (empty trimmed) eqn:E; [apply returns_rret |].
  apply returns_rcatch; [| apply returns_rret].
  destruct (type type_info); try discriminate;
    try (apply defined_rbind_lift; [apply stoll_base_defined | discriminate]).
  destruct (Extract_returns trimmed) as (base & ns & Ex & _).
  rewrite Ex, rbind_lift_ret.
  destruct (TryParseFormat_returns (fst (base, ns)) (c_str (format type_info))
              (if has_fractional type_info then snd (base, ns) else 0)) as [r Hr].
  rewrite Hr. discriminate.
Qed.

Lemma prefix_size (pat s : string) :
  String.prefix pat s = true -> (size pat <= size s)%nat.
Proof.
  revert s. induction pat as [|c pat IH]; intros s H; simpl; [lia |].
  destruct s as [|d s]; simpl in H; [discriminate |].
  destruct (ascii_dec c d); [| discriminate].
  specialize (IH s H). simpl. lia.
Qed.

Lemma find_str_bound (pat s : string) (p : nat) :
  find_str pat s = Some p -> (p + size pat <= size s)%nat.
Proof.
  revert p. induction s as [|c s IH]; intros p H.
  - cbn [find_str] in H. destruct (String.prefix pat "") eqn:E; [| discriminate].
    injection H as <-. apply prefix_size in E. lia.
  - cbn [find_str] in H. destruct (String.prefix pat (String c s)) eqn:E.
    + injection H as <-. apply prefix_size in E. lia.
    + destruct (find_str pat s) as [q|]; [| discriminate].
      injection H as <-. specialize (IH q eq_refl). simpl. lia.
Qed.

Lemma FormatParseTimestamp_returns (str format : string) :
  returns (FormatParseTimestamp date_parse str format).
Proof.
  unfold FormatParseTimestamp.
  destruct (Trim_returns str) as [trimmed ->]. rewrite rbind_lift_ret.
  destruct (empty trimmed) eqn:E; [apply returns_rret |].
  apply returns_rbind.
  - destruct (find_str ".zzz" format) as [zzz_pos|] eqn:Hz;
      [| eapply returns_rlift; reflexivity].
    destruct (find_dot_near trimmed zzz_pos);
      [| eapply returns_rlift; reflexivity].
    destruct (Extract_returns trimmed) as (base & ns & Ex & _).
    rewrite Ex. cbn [obind].
    apply find_str_bound in Hz. change (size ".zzz") with 4%nat in Hz.
    pose proof (span_le (Ascii.eqb "z") (drop (zzz_pos + 1) format)) as Hsp.
    rewrite size_drop in Hsp.
    unfold substr, substr_from. cbn [Nat.leb obind].
    replace (zzz_pos + 1 + span (Ascii.eqb "z") (drop (zzz_pos + 1) format)
             <=? size format)%nat with true
      by (symmetry; apply Nat.leb_le; lia).
    eapply returns_rlift; reflexivity.
  - intros [[adjusted_input ns] adjusted_format] _.
    apply TryParseFormat_returns.
Qed.

End Totality.

(** ** Error handling of the entry points *)

Section ErrorHandling.

Variable QLocale_c_toDouble : string -> option double.
Variable date_parse : string -> string -> option (Z * string).

Lemma blank_DetectColumnType (str : string) :
  blank_only str = true ->
  DetectColumnType date_parse str = rret (info_of STRING).
Proof.
  intros H. unfold DetectColumnType.
  rewrite (Trim_blank str H), rbind_lift_ret. reflexivity.
Qed.

Lemma blank_ParseWithType (str : string) (type_info : ColumnTypeInfo) :
  blank_only str = true ->
  ParseWithType QLocale_c_toDouble date_parse str type_info = rret None.
Proof.
  intros H. unfold ParseWithType.
  rewrite (Trim_blank str H), rbind_lift_ret. reflexivity.
Qed.

Lemma blank_AutoParseTimestamp (str : string) :
  blank_only str = true ->
  AutoParseTimestamp QLocale_c_toDouble date_parse str = rret None.
Proof.
  intros H. unfold AutoParseTimestamp.
  rewrite (Trim_blank str H), rbind_lift_ret. reflexivity.
Qed.

Lemma blank_FormatParseTimestamp (str fmt : string) :
  blank_only str = true ->
  FormatParseTimestamp date_parse str fmt = rret None.
Proof.
  intros H. unfold FormatParseTimestamp.
  rewrite (Trim_blank str H), rbind_lift_ret. reflexivity.
Qed.

(** A [std::stoll] that throws inside [ParseWithType] ends in [nullopt]. *)
Lemma ParseWithType_catches (str trimmed : string) (type_info : ColumnTypeInfo) (e : exn) :
  Trim str = Ret trimmed ->
  (type type_info = HEX /\ stoll_base trimmed 16 = Throw e)
  \/ (is_epoch (type type_info) = true /\ stoll trimmed = Throw e) ->
  fst (ParseWithType QLocale_c_toDouble date_parse str type_info) = Ret None.
Proof.
  intros HT H. unfold ParseWithType. rewrite HT, rbind_lift_ret.
  destruct (empty trimmed); [reflexivity |].
  destruct H as [[Ht Hs] | [Ht Hs]].
  - rewrite Ht. unfold rcatch, rbind, rlift. simpl. rewrite Hs. reflexivity.
  - destruct (type type_info); try discriminate;
      unfold rcatch, rbind, rlift; simpl; rewrite Hs; reflexivity.
Qed.

(** A value the double parser or the calendar parser rejects ends in
    [nullopt] as well. *)
Lemma ParseWithType_rejects (str trimmed : string) (type_info : ColumnTypeInfo) :
  Trim str = Ret trimmed ->
  (type type_info = NUMBER /\ toDouble QLocale_c_toDouble trimmed = None)
  \/ (type type_info = DATETIME
      /\ exists base_str ns,
           ExtractFractionalSeconds trimmed = Ret (base_str, ns)
           /\ date_parse (c_str (format type_info)) base_str = None) ->
  fst (ParseWithType QLocale_c_toDouble date_parse str type_info) = Ret None.
Proof.
  intros HT H. unfold ParseWithType. rewrite HT, rbind_lift_ret.
  destruct (empty trimmed); [reflexivity |].
  destruct H as [[Ht Hs] | [Ht (base & ns & HX & Hd)]]; rewrite Ht.
  - unfold rcatch, rret. simpl. now rewrite Hs.
  - rewrite HX, rbind_lift_ret. unfold rcatch, TryParseFormat. simpl.
    rewrite Hd. reflexivity.
Qed.

End ErrorHandling.

(** C9. Whatever the two external parsers answer, each of the four entry
    points ends with a value: no exception leaves it.  On an empty or
    blank-only input [DetectColumnType] answers [STRING] and the three
    parsing entry points answer [nullopt]; inside [ParseWithType] an
    integer parse that throws, and a value the double parser or the calendar
    parser rejects, end in [nullopt]. *)
Theorem entry_points_never_throw
  (QLocale_c_toDouble : string -> option double)
  (date_parse : string -> string -> option (Z * string)) :
  (forall str, returns (DetectColumnType date_parse str))
  /\ (forall str type_info,
        returns (ParseWithType QLocale_c_toDouble date_parse str type_info))
  /\ (forall str, returns (AutoParseTimestamp QLocale_c_toDouble date_parse str))
  /\ (forall str fmt, returns (FormatParseTimestamp date_parse str fmt))
  /\ (forall str,
        blank_only str = true ->
        fst (DetectColumnType date_parse str) = Ret (info_of STRING)
        /\ (forall type_info,
              fst (ParseWithType QLocale_c_toDouble date_parse str type_info)
              = Ret None)
        /\ fst (AutoParseTimestamp QLocale_c_toDouble date_parse str) = Ret None
        /\ (forall fmt, fst (FormatParseTimestamp date_parse str fmt) = Ret None))
  /\ (forall str trimmed type_info e,
        Trim str = Ret trimmed ->
        (type type_info = HEX /\ stoll_base trimmed 16 = Throw e)
        \/ (is_epoch (type type_info) = true /\ stoll trimmed = Throw e) ->
        fst (ParseWithType QLocale_c_toDouble date_parse str type_info) = Ret None)
  /\ (forall str trimmed type_info,
        Trim str = Ret trimmed ->
        (type type_info = NUMBER /\ toDouble QLocale_c_toDouble trimmed = None)
        \/ (type type_info = DATETIME
            /\ exists base_str ns,
                 ExtractFractionalSeconds trimmed = Ret (base_str, ns)
                 /\ date_parse (c_str (format type_info)) base_str = None) ->
        fst (ParseWithType QLocale_c_toDouble date_parse str type_info) = Ret None).
Proof.
  split; [apply DetectColumnType_returns |].
  split; [intros; apply ParseWithType_returns |].
  split; [apply AutoParseTimestamp_returns |].
  split; [intros; apply FormatParseTimestamp_returns |].
  split.
  - intros str H. split; [now rewrite blank_DetectColumnType |].
    split; [intros; now rewrite blank_ParseWithType |].
    split; [now rewrite blank_AutoParseTimestamp |].
    intros; now rewrite blank_FormatParseTimestamp.
  - split.
    + intros str trimmed type_info e. apply ParseWithType_catches.
    + intros str trimmed type_info. apply ParseWithType_rejects.
Qed.

Lemma entry_points_never_throw_witness :
  (fst (DetectColumnType DateLib.parse "  ") = Ret (info_of STRING)
   /\ (forall type_info,
         fst (ParseWithType QtLib.toDouble DateLib.parse "  " type_info) = Ret None)
   /\ fst (AutoParseTimestamp QtLib.toDouble DateLib.parse "  ") = Ret None
   /\ (forall fmt, fst (FormatParseTimestamp DateLib.parse "  " fmt) = Ret None))
  /\ fst (ParseWithType QtLib.toDouble DateLib.parse "n/a" (info_of EPOCH_MILLIS))
     = Ret None.
Proof.
  pose proof (entry_points_never_throw QtLib.toDouble DateLib.parse)
    as (_ & _ & _ & _ & Hblank & Hcatch & _).
  split.
  - apply Hblank. reflexivity.
  - apply (Hcatch "n/a" "n/a" (info_of EPOCH_MILLIS) invalid_argument); [reflexivity |].
    right. split; reflexivity.
Defined.

(** ** The last-character access of [CheckNumeric] *)

Lemma returns_defined {A : Type} (m : run A) : returns m -> fst m <> Undefined.
Proof. intros [a Ha]. rewrite Ha. discriminate. Qed.

Lemma CheckNumeric_undefined_iff (str : string) :
  CheckNumeric str = Undefined <-> str = "".
Proof.
  split.
  - intros H. destruct str as [|c s]; [reflexivity |].
    destruct (CheckNumeric_returns (String c s)) as [info Hi]; [discriminate |].
    rewrite Hi in H. discriminate.
  - intros ->. apply CheckNumeric_empty.
Qed.

(** C10. On the empty string the scan loop leaves [is_number] set and
    [str.back()] is read out of bounds; on every other string the access is
    in bounds and [CheckNumeric] returns.  [DetectColumnType] and
    [AutoParseTimestamp] return before the call when the trimmed input is
    empty, so neither ever runs into the out-of-bounds access. *)
Theorem CheckNumeric_back_in_bounds
  (QLocale_c_toDouble : string -> option double)
  (date_parse : string -> string -> option (Z * string)) :
  CheckNumeric "" = Undefined
  /\ (forall str, str <> "" -> exists info, CheckNumeric str = Ret info)
  /\ (forall str, CheckNumeric str = Undefined -> str = "")
  /\ (forall str,
        Trim str = Ret "" ->
        DetectColumnType date_parse str = rret (info_of STRING)
        /\ AutoParseTimestamp QLocale_c_toDouble date_parse str = rret None)
  /\ (forall str,
        fst (DetectColumnType date_parse str) <> Undefined
        /\ fst (AutoParseTimestamp QLocale_c_toDouble date_parse str) <> Undefined).
Proof.
  split; [reflexivity |].
  split; [apply CheckNumeric_returns |].
  split; [intros str; apply CheckNumeric_undefined_iff |].
  split.
  - intros str H. unfold DetectColumnType, AutoParseTimestamp.
    rewrite H, !rbind_lift_ret. split; reflexivity.
  - intros str. split; apply returns_defined.
    + apply DetectColumnType_returns.
    + apply AutoParseTimestamp_returns.
Qed.

Lemma CheckNumeric_back_in_bounds_witness :
  (exists info, CheckNumeric "1e5" = Ret info)
  /\ DetectColumnType DateLib.parse " " = rret (info_of STRING)
  /\ AutoParseTimestamp QtLib.toDouble DateLib.parse " " = rret None.
Proof.
  pose proof (CheckNumeric_back_in_bounds QtLib.toDouble DateLib.parse)
    as (_ & Hret & _ & Hguard & _).
  split; [apply Hret; discriminate |].
  apply Hguard. reflexivity.
Defined.

(** ** TypeDetector, numeric branch *)

(** What [DetectColumnType] does with a numeric string: a decimal point
    gives [NUMBER]; without one the string goes to [std::stoll] and the
    epoch classifier, whether or not it has an exponent. *)
Lemma DetectColumnType_numeric
  (date_parse : string -> string -> option (Z * string))
  (str trimmed : string) (num_info : NumericInfo) :
  Trim str = Ret trimmed -> empty trimmed = false ->
  has_hex_prefix trimmed = false ->
  CheckNumeric trimmed = Ret num_info -> is_number num_info = true ->
  DetectColumnType date_parse str
  = if has_decimal num_info then rret (info_of NUMBER)
    else match stoll trimmed with
         | Ret ts => rret (info_of (DetectEpochType ts))
         | _ => rret (info_of NUMBER)
         end.
Proof.
  intros HT HE HX HC HN. unfold DetectColumnType.
  rewrite HT, rbind_lift_ret, HE, HX, HC, rbind_lift_ret, HN.
  unfold detect_numeric. destruct (has_decimal num_info); [reflexivity |].
  pose proof (stoll_base_defined trimmed 10) as Hd. unfold stoll.
  destruct (stoll_base trimmed 10) as [ts|e|]; [| | congruence]; reflexivity.
Qed.

(** C2, at the failing input.  ["1500000000e3"] is numeric with an exponent
    and no decimal point; [DetectColumnType] classifies its leading integer
    and answers [EPOCH_SECONDS], where [AutoParseTimestamp] hands the same
    string to the double parser. *)
Theorem DetectColumnType_exponent_reaches_epoch_classifier
  (QLocale_c_toDouble : string -> option double)
  (date_parse : string -> string -> option (Z * string)) :
  CheckNumeric "1500000000e3"
  = Ret {| is_number := true; has_decimal := false; has_exponent := true |}
  /\ DetectColumnType date_parse "1500000000e3" = rret (info_of EPOCH_SECONDS)
  /\ AutoParseTimestamp QLocale_c_toDouble date_parse "1500000000e3"
     = rret (QLocale_c_toDouble "1500000000e3").
Proof. repeat split; reflexivity. Qed.

(** ** FormatMatcher: the loops over the format table *)

Section FormatTable.

Variable QLocale_c_toDouble : string -> option double.
Variable date_parse : string -> string -> option (Z * string).

Lemma TryParseFormat_fails (base_str fmt : string) (ns : nanoseconds) :
  date_parse fmt base_str = None ->
  TryParseFormat date_parse base_str fmt ns
  = (Ret None, [ {| call_fmt := fmt; call_input := base_str |} ]).
Proof. intros H. unfold TryParseFormat. rewrite H. reflexivity. Qed.

Lemma try_format_fails (base_str fmt : string) :
  date_parse fmt base_str = None ->
  try_format date_parse base_str fmt
  = (Ret false, [ {| call_fmt := fmt; call_input := base_str |} ]).
Proof. intros H. unfold try_format. rewrite H. reflexivity. Qed.

(** The table is tried in order and the loop stops at the first pattern the
    calendar parser accepts. *)
Lemma try_formats_first_success
  (before after : list string) (fmt base_str : string) (ns : nanoseconds) (v : double) :
  fails_on date_parse before base_str ->
  fst (TryParseFormat date_parse base_str fmt ns) = Ret (Some v) ->
  try_formats date_parse (before ++ fmt :: after) base_str ns
  = (Ret (Some v), calls_of (before ++ [fmt]) base_str).
Proof.
  intros Hb Hv. induction before as [|f before IH]; simpl.
  - rewrite (rbind_returns _ _ _ Hv). reflexivity.
  - rewrite (rbind_returns _ _ None).
    + rewrite IH; [reflexivity |]. intros g Hg. apply Hb. now right.
    + rewrite TryParseFormat_fails; [reflexivity |]. apply Hb. now left.
Qed.

Lemma try_formats_all_fail (fmts : list string) (base_str : string) (ns : nanoseconds) :
  fails_on date_parse fmts base_str ->
  try_formats date_parse fmts base_str ns = (Ret None, calls_of fmts base_str).
Proof.
  intros Hb. induction fmts as [|f fmts IH]; simpl; [reflexivity |].
  rewrite (rbind_returns _ _ None).
  - rewrite IH; [reflexivity |]. intros g Hg. apply Hb. now right.
  - rewrite TryParseFormat_fails; [reflexivity |]. apply Hb. now left.
Qed.

Lemma detect_formats_first_success
  (before after : list string) (fmt base_str : string) :
  fails_on date_parse before base_str ->
  date_parse fmt base_str <> None ->
  detect_formats date_parse (before ++ fmt :: after) base_str
  = (Ret (Some fmt), calls_of (before ++ [fmt]) base_str).
Proof.
  intros Hb Hv. induction before as [|f before IH]; simpl.
  - rewrite (rbind_returns _ _ true); [reflexivity |].
    unfold try_format. simpl. destruct (date_parse fmt base_str); congruence.
  - rewrite (rbind_returns _ _ false).
    + rewrite IH; [reflexivity |]. intros g Hg. apply Hb. now right.
    + rewrite try_format_fails; [reflexivity |]. apply Hb. now left.
Qed.

Lemma detect_formats_all_fail (fmts : list string) (base_str : string) :
  fails_on date_parse fmts base_str ->
  detect_formats date_parse fmts base_str = (Ret None, calls_of fmts base_str).
Proof.
  intros Hb. induction fmts as [|f fmts IH]; simpl; [reflexivity |].
  rewrite (rbind_returns _ _ false).
  - rewrite IH; [reflexivity |]. intros g Hg. apply Hb. now right.
  - rewrite try_format_fails; [reflexivity |]. apply Hb. now left.
Qed.

(** Detection and one-shot parsing agree on the table: the pattern the
    detector records is the one whose value the parser returns. *)
Lemma formats_agree (fmts : list string) (base_str : string) (ns : nanoseconds) :
  match fst (detect_formats date_parse fmts base_str) with
  | Ret (Some fmt) =>
      fst (try_formats date_parse fmts base_str ns)
      = fst (TryParseFormat date_parse base_str fmt ns)
      /\ exists v, fst (TryParseFormat date_parse base_str fmt ns) = Ret (Some v)
  | Ret None => fst (try_formats date_parse fmts base_str ns) = Ret None
  | _ => False
  end.
Proof.
  induction fmts as [|f fmts IH]; simpl; [reflexivity |].
  unfold rbind at 1 3. unfold try_format, TryParseFormat at 1 2. simpl.
  destruct (date_parse f base_str) as [[tp rest]|] eqn:E; simpl.
  - unfold TryParseFormat. rewrite E. simpl. split; eauto.
  - exact IH.
Qed.

Lemma ambiguous_agree (base_str : string) (ns : nanoseconds) :
  match fst (detect_ambiguous date_parse base_str) with
  | Ret (Some fmt) =>
      fst (auto_ambiguous date_parse base_str ns)
      = fst (TryParseFormat date_parse base_str fmt ns)
      /\ exists v, fst (TryParseFormat date_parse base_str fmt ns) = Ret (Some v)
  | Ret None => fst (auto_ambiguous date_parse base_str ns) = Ret None
  | _ => False
  end.
Proof.
  unfold detect_ambiguous, auto_ambiguous.
  destruct (ambiguous_guard "/" base_str);
    destruct (ambiguous_guard "-" base_str);
    destruct (IsDayFirstFormat base_str "/");
    destruct (IsDayFirstFormat base_str "-");
    unfold rbind, rret, try_format, TryParseFormat; simpl;
    repeat match goal with
      | |- context [date_parse ?f ?b] =>
          destruct (date_parse f b) as [[? ?]|] eqn:?; simpl
      end;
    repeat match goal with
      | H : Some _ = Some _ |- _ => inversion H; subst; clear H
      | H : Some _ = None |- _ => discriminate H
      | H : None = Some _ |- _ => discriminate H
      end;
    try reflexivity; split; eauto.
Qed.

(** ** The datetime branch *)

Lemma DetectColumnType_datetime (str trimmed : string) (num_info : NumericInfo) :
  Trim str = Ret trimmed -> empty trimmed = false ->
  has_hex_prefix trimmed = false ->
  CheckNumeric trimmed = Ret num_info -> is_number num_info = false ->
  DetectColumnType date_parse str = detect_datetime date_parse trimmed.
Proof.
  intros HT HE HX HC HN. unfold DetectColumnType.
  rewrite HT, rbind_lift_ret, HE, HX, HC, rbind_lift_ret, HN. reflexivity.
Qed.

Lemma AutoParseTimestamp_datetime (str trimmed : string) (num_info : NumericInfo) :
  Trim str = Ret trimmed -> empty trimmed = false ->
  CheckNumeric trimmed = Ret num_info -> is_number num_info = false ->
  AutoParseTimestamp QLocale_c_toDouble date_parse str
  = auto_datetime date_parse trimmed.
Proof.
  intros HT HE HC HN. unfold AutoParseTimestamp.
  rewrite HT, rbind_lift_ret, HE, HC, rbind_lift_ret.
  unfold auto_numeric. rewrite HN, rbind_ret. reflexivity.
Qed.

Lemma rcatch_returns {A : Type} (m h : run A) : returns m -> rcatch m h = m.
Proof. intros [a Ha]. unfold rcatch. rewrite Ha. reflexivity. Qed.

Lemma ParseWithType_DATETIME (str trimmed base_str : string) (ns : nanoseconds)
  (type_info : ColumnTypeInfo) :
  Trim str = Ret trimmed -> empty trimmed = false ->
  ExtractFractionalSeconds trimmed = Ret (base_str, ns) ->
  type type_info = DATETIME ->
  ParseWithType QLocale_c_toDouble date_parse str type_info
  = TryParseFormat date_parse base_str (c_str (format type_info))
      (if has_fractional type_info then ns else 0).
Proof.
  intros HT HE HX Ht. unfold ParseWithType.
  rewrite HT, rbind_lift_ret, HE, Ht, HX, rbind_lift_ret.
  apply rcatch_returns. apply TryParseFormat_returns.
Qed.

Lemma ParseWithType_STRING (str : string) (type_info : ColumnTypeInfo) :
  type type_info = STRING ->
  ParseWithType QLocale_c_toDouble date_parse str type_info = rret None.
Proof.
  intros Ht. unfold ParseWithType.
  destruct (Trim_returns str) as [trimmed ->]. rewrite rbind_lift_ret, Ht.
  destruct (empty trimmed); reflexivity.
Qed.

(** The fraction the detector records is the one the fast parser adds. *)
Lemma recorded_fraction (trimmed base_str : string) (ns : nanoseconds) :
  0 <= ns ->
  (if (0 <? ns) || negb (String.eqb trimmed base_str) then ns else 0) = ns.
Proof.
  intros H. destruct (0 <? ns) eqn:E; [reflexivity |].
  apply Z.ltb_ge in E. destruct (negb _); simpl; lia.
Qed.

(** The pattern the detector records is one of the program's constants. *)
Lemma detect_formats_in (fmts : list string) (base_str fmt : string) :
  fst (detect_formats date_parse fmts base_str) = Ret (Some fmt) -> In fmt fmts.
Proof.
  induction fmts as [|f fmts IH]; [discriminate |].
  cbn [detect_formats]. unfold rbind, try_format. cbn [fst snd].
  destruct (date_parse f base_str).
  - cbn [fst rret]. intros [= <-]. now left.
  - intros H. right. now apply IH.
Qed.

Lemma detect_ambiguous_in (base_str fmt : string) :
  fst (detect_ambiguous date_parse base_str) = Ret (Some fmt) ->
  In fmt day_month_patterns.
Proof.
  unfold detect_ambiguous, rbind, try_format, rret, day_month_patterns.
  destruct (ambiguous_guard "/" base_str), (ambiguous_guard "-" base_str),
    (IsDayFirstFormat base_str "/"), (IsDayFirstFormat base_str "-");
    cbn [fst snd];
    repeat match goal with
      | |- context [date_parse ?f ?b] => destruct (date_parse f b); cbn [fst snd]
      end;
    intros H; try discriminate H; injection H as <-; simpl; tauto.
Qed.

(** The constants hold no NUL: as C strings they are themselves. *)
Lemma c_str_constant (fmt : string) :
  In fmt (UNAMBIGUOUS_FORMATS ++ day_month_patterns) -> c_str fmt = fmt.
Proof.
  intros H. simpl in H.
  repeat (destruct H as [<- | H]; [reflexivity |]). destruct H.
Qed.

(** On the datetime branch, parsing with the detected type gives what the
    one-shot parser gives. *)
Lemma datetime_round_trip (str trimmed : string) (info : ColumnTypeInfo) :
  Trim str = Ret trimmed -> empty trimmed = false ->
  fst (detect_datetime date_parse trimmed) = Ret info ->
  fst (ParseWithType QLocale_c_toDouble date_parse str info)
  = fst (auto_datetime date_parse trimmed).
Proof.
  intros HT HE. unfold detect_datetime, auto_datetime.
  destruct (Extract_returns trimmed) as (base & ns & HX & Hns & _).
  rewrite HX, !rbind_lift_ret. cbn [fst snd].
  pose proof (formats_agree UNAMBIGUOUS_FORMATS base ns) as Htab.
  pose proof (ambiguous_agree base ns) as Hamb.
  pose proof (try_formats_returns date_parse UNAMBIGUOUS_FORMATS base ns) as [r Hr].
  pose proof (detect_formats_returns date_parse UNAMBIGUOUS_FORMATS base) as [m Hm].
  rewrite (rbind_returns _ _ _ Hr), (rbind_returns _ _ _ Hm). cbn [fst].
  rewrite Hm in Htab.
  destruct m as [fmt|].
  - destruct Htab as [Heq [v Hv]]. rewrite Hr, Hv in Heq.
    injection Heq as ->. cbn [fst rret]. intros Hi. injection Hi as <-.
    rewrite (ParseWithType_DATETIME str trimmed base ns) by (assumption || reflexivity).
    cbn [format has_fractional datetime_info].
    rewrite (c_str_constant fmt)
      by (apply in_or_app; left; exact (detect_formats_in _ _ _ Hm)).
    rewrite (recorded_fraction trimmed base ns Hns). exact Hv.
  - rewrite Hr in Htab. injection Htab as ->.
    pose proof (detect_ambiguous_returns date_parse base) as [m' Hm'].
    rewrite (rbind_returns _ _ _ Hm'). cbn [fst].
    rewrite Hm' in Hamb.
    destruct m' as [fmt|].
    + destruct Hamb as [Heq [v Hv]].
      cbn [fst rret]. intros Hi. injection Hi as <-.
      rewrite (ParseWithType_DATETIME str trimmed base ns) by (assumption || reflexivity).
      cbn [format has_fractional datetime_info].
      rewrite (c_str_constant fmt)
        by (apply in_or_app; right; exact (detect_ambiguous_in _ _ Hm')).
      rewrite (recorded_fraction trimmed base ns Hns). now rewrite Heq.
    + cbn [fst rret]. intros Hi. injection Hi as <-.
      rewrite ParseWithType_STRING by reflexivity. now rewrite Hamb.
Qed.

End FormatTable.

(** ** Round trip between detection and one-shot parsing *)

Lemma round_trip_datetime
  (QLocale_c_toDouble : string -> option double)
  (date_parse : string -> string -> option (Z * string))
  (str trimmed : string) (num_info : NumericInfo) :
  Trim str = Ret trimmed -> empty trimmed = false ->
  has_hex_prefix trimmed = false ->
  CheckNumeric trimmed = Ret num_info -> is_number num_info = false ->
  round_trip QLocale_c_toDouble date_parse str.
Proof.
  intros HT HE HX HC HN.
  destruct (detect_datetime_returns date_parse trimmed) as [info Hi].
  exists info. split.
  - rewrite (DetectColumnType_datetime date_parse str trimmed num_info); assumption.
  - rewrite (AutoParseTimestamp_datetime QLocale_c_toDouble date_parse
               str trimmed num_info) by assumption.
    now apply datetime_round_trip.
Qed.

Lemma AutoParseTimestamp_hex_prefix
  (QLocale_c_toDouble : string -> option double)
  (date_parse : string -> string -> option (Z * string)) :
  fails_on date_parse UNAMBIGUOUS_FORMATS "0x1F" ->
  fst (AutoParseTimestamp QLocale_c_toDouble date_parse "0x1F") = Ret None.
Proof.
  intros H.
  rewrite (AutoParseTimestamp_datetime QLocale_c_toDouble date_parse "0x1F" "0x1F"
             {| is_number := false; has_decimal := false; has_exponent := false |})
    by reflexivity.
  unfold auto_datetime.
  change (ExtractFractionalSeconds "0x1F") with (Ret ("0x1F", 0)).
  rewrite rbind_lift_ret. cbn [fst snd].
  rewrite (try_formats_all_fail date_parse _ _ _ H). reflexivity.
Qed.

(** C1, as the code has it.  When the double parser reads ["42"] as 42, the
    round trip holds for ["42"], ["3.14"], ["1718000000"],
    ["2024-01-15T10:30:00"] and ["not a date"], whatever the calendar parser
    answers.  For ["0x1F"] detection answers [HEX] and the fast parser 31,
    while the one-shot parser, which has no hexadecimal rule, answers
    [nullopt] once the calendar patterns reject the string. *)
Theorem round_trip_canonical
  (QLocale_c_toDouble : string -> option double)
  (date_parse : string -> string -> option (Z * string)) :
  QLocale_c_toDouble "42" = Some (Z2D 42) ->
  (forall s,
     In s ["42"; "3.14"; "1718000000"; "2024-01-15T10:30:00"; "not a date"] ->
     round_trip QLocale_c_toDouble date_parse s)
  /\ fst (DetectColumnType date_parse "0x1F") = Ret (info_of HEX)
  /\ fst (ParseWithType QLocale_c_toDouble date_parse "0x1F" (info_of HEX))
     = Ret (Some (Z2D 31))
  /\ (fails_on date_parse UNAMBIGUOUS_FORMATS "0x1F" ->
      fst (AutoParseTimestamp QLocale_c_toDouble date_parse "0x1F") = Ret None).
Proof.
  intros H42. split; [| split; [reflexivity | split; [reflexivity |]]].
  - intros s Hs. simpl in Hs.
    destruct Hs as [<- | [<- | [<- | [<- | [<- | []]]]]].
    + exists (info_of NUMBER). split; [reflexivity |].
      change (fst (ParseWithType QLocale_c_toDouble date_parse "42" (info_of NUMBER)))
        with (Ret (QLocale_c_toDouble "42")).
      rewrite H42. reflexivity.
    + exists (info_of NUMBER). split; reflexivity.
    + exists (info_of EPOCH_SECONDS). split; reflexivity.
    + apply (round_trip_datetime _ _ _ "2024-01-15T10:30:00"
               {| is_number := false; has_decimal := false; has_exponent := false |});
        reflexivity.
    + apply (round_trip_datetime _ _ _ "not a date"
               {| is_number := false; has_decimal := false; has_exponent := false |});
        reflexivity.
  - apply AutoParseTimestamp_hex_prefix.
Qed.

Lemma round_trip_canonical_witness :
  (forall s,
     In s ["42"; "3.14"; "1718000000"; "2024-01-15T10:30:00"; "not a date"] ->
     round_trip QtLib.toDouble DateLib.parse s)
  /\ fst (DetectColumnType DateLib.parse "0x1F") = Ret (info_of HEX)
  /\ fst (ParseWithType QtLib.toDouble DateLib.parse "0x1F" (info_of HEX))
     = Ret (Some (Z2D 31))
  /\ (fails_on DateLib.parse UNAMBIGUOUS_FORMATS "0x1F" ->
      fst (AutoParseTimestamp QtLib.toDouble DateLib.parse "0x1F") = Ret None).
Proof.
  apply (round_trip_canonical QtLib.toDouble DateLib.parse). reflexivity.
Defined.

(** C1 as stated fails at ["0x1F"]: detection answers [HEX], parsing with
    that type answers 31, and the one-shot parser answers [nullopt]. *)
Lemma round_trip_fails_on_hex :
  fst (DetectColumnType_ref "0x1F") = Ret (info_of HEX)
  /\ fst (ParseWithType_ref "0x1F" (info_of HEX)) = Ret (Some (Z2D 31))
  /\ fst (AutoParseTimestamp_ref "0x1F") = Ret None.
Proof. repeat split; reflexivity. Qed.

(** ** The ambiguous variants for ['-'] *)

Section DashVariant.

Variable QLocale_c_toDouble : string -> option double.
Variable date_parse : string -> string -> option (Z * string).

Lemma dash_guards (base_str : string) :
  contains "-" base_str = true -> contains "/" base_str = false ->
  Ascii.eqb (at_ base_str 0) "2" = false ->
  ambiguous_guard "/" base_str = false /\ ambiguous_guard "-" base_str = true.
Proof.
  intros Hd Hs H2. unfold ambiguous_guard. rewrite Hd, Hs, H2.
  destruct base_str; [discriminate Hd |]. split; reflexivity.
Qed.

Lemma auto_ambiguous_dash (base_str : string) (ns : nanoseconds) :
  contains "-" base_str = true -> contains "/" base_str = false ->
  Ascii.eqb (at_ base_str 0) "2" = false ->
  auto_ambiguous date_parse base_str ns
  = if IsDayFirstFormat base_str "-"
    then (fst (TryParseFormat date_parse base_str "%d-%m-%Y %H:%M:%S" ns),
          [ {| call_fmt := "%d-%m-%Y %H:%M:%S"; call_input := base_str |} ])
    else rret None.
Proof.
  intros Hd Hs H2. destruct (dash_guards base_str Hd Hs H2) as [G1 G2].
  unfold auto_ambiguous. rewrite G1, G2, rbind_ret.
  destruct (IsDayFirstFormat base_str "-"); [| reflexivity].
  unfold rbind, TryParseFormat. simpl.
  destruct (date_parse "%d-%m-%Y %H:%M:%S" base_str) as [[tp rest]|]; reflexivity.
Qed.

Lemma detect_ambiguous_dash (base_str : string) :
  contains "-" base_str = true -> contains "/" base_str = false ->
  Ascii.eqb (at_ base_str 0) "2" = false ->
  detect_ambiguous date_parse base_str
  = if IsDayFirstFormat base_str "-"
    then (Ret (match date_parse "%d-%m-%Y %H:%M:%S" base_str with
               | Some _ => Some "%d-%m-%Y %H:%M:%S"
               | None => None
               end),
          [ {| call_fmt := "%d-%m-%Y %H:%M:%S"; call_input := base_str |} ])
    else rret None.
Proof.
  intros Hd Hs H2. destruct (dash_guards base_str Hd Hs H2) as [G1 G2].
  unfold detect_ambiguous. rewrite G1, G2, rbind_ret.
  destruct (IsDayFirstFormat base_str "-"); [| reflexivity].
  unfold rbind, try_format. simpl.
  destruct (date_parse "%d-%m-%Y %H:%M:%S" base_str); reflexivity.
Qed.

End DashVariant.

(** C3, as the code has it.  Take an input on the datetime branch whose base
    string holds a ['-'] and no ['/'], does not begin with ['2'], and is
    rejected under every pattern of the table.  After the table, both
    [AutoParseTimestamp] and [DetectColumnType] call the calendar parser
    once more, with the day-first pattern [%d-%m-%Y %H:%M:%S], when
    [IsDayFirstFormat] answers [true]; when it answers [false] they make no
    further call and end in [nullopt] and [STRING]. *)
Theorem dash_ambiguous_variant
  (QLocale_c_toDouble : string -> option double)
  (date_parse : string -> string -> option (Z * string))
  (str trimmed base_str : string) (ns : nanoseconds) (num_info : NumericInfo) :
  Trim str = Ret trimmed -> empty trimmed = false ->
  has_hex_prefix trimmed = false ->
  CheckNumeric trimmed = Ret num_info -> is_number num_info = false ->
  ExtractFractionalSeconds trimmed = Ret (base_str, ns) ->
  contains "-" base_str = true -> contains "/" base_str = false ->
  Ascii.eqb (at_ base_str 0) "2" = false ->
  fails_on date_parse UNAMBIGUOUS_FORMATS base_str ->
  let day_first :=
    [ {| call_fmt := "%d-%m-%Y %H:%M:%S"; call_input := base_str |} ] in
  let after_table :=
    if IsDayFirstFormat base_str "-" then day_first else [] in
  snd (AutoParseTimestamp QLocale_c_toDouble date_parse str)
  = (calls_of UNAMBIGUOUS_FORMATS base_str ++ after_table)%list
  /\ snd (DetectColumnType date_parse str)
     = (calls_of UNAMBIGUOUS_FORMATS base_str ++ after_table)%list
  /\ (IsDayFirstFormat base_str "-" = false ->
      fst (AutoParseTimestamp QLocale_c_toDouble date_parse str) = Ret None
      /\ type_of_run (DetectColumnType date_parse str) = Some STRING).
Proof.
  intros HT HE HX HC HN HS Hd Hs H2 Hfail day_first after_table.
  rewrite (AutoParseTimestamp_datetime QLocale_c_toDouble date_parse
             str trimmed num_info) by assumption.
  rewrite (DetectColumnType_datetime date_parse str trimmed num_info) by assumption.
  unfold auto_datetime, detect_datetime, type_of_run.
  rewrite HS, !rbind_lift_ret. cbn [fst snd].
  rewrite (try_formats_all_fail date_parse _ _ _ Hfail).
  rewrite (detect_formats_all_fail date_parse _ _ Hfail).
  rewrite (auto_ambiguous_dash date_parse base_str ns Hd Hs H2).
  rewrite (detect_ambiguous_dash date_parse base_str Hd Hs H2).
  subst after_table day_first.
  destruct (IsDayFirstFormat base_str "-").
  - unfold rbind. simpl.
    destruct (date_parse "%d-%m-%Y %H:%M:%S" base_str); simpl;
      repeat split; discriminate.
  - unfold rbind. simpl. repeat split; reflexivity.
Qed.

Lemma dash_ambiguous_variant_witness :
  snd (AutoParseTimestamp QtLib.toDouble DateLib.parse " 15-13-2024 10:00:00.25 ")
  = (calls_of UNAMBIGUOUS_FORMATS "15-13-2024 10:00:00"
     ++ [ {| call_fmt := "%d-%m-%Y %H:%M:%S";
             call_input := "15-13-2024 10:00:00" |} ])%list
  /\ snd (DetectColumnType DateLib.parse " 15-13-2024 10:00:00.25 ")
     = (calls_of UNAMBIGUOUS_FORMATS "15-13-2024 10:00:00"
        ++ [ {| call_fmt := "%d-%m-%Y %H:%M:%S";
                call_input := "15-13-2024 10:00:00" |} ])%list
  /\ (IsDayFirstFormat "15-13-2024 10:00:00" "-" = false ->
      fst (AutoParseTimestamp QtLib.toDouble DateLib.parse " 15-13-2024 10:00:00.25 ")
      = Ret None
      /\ type_of_run (DetectColumnType DateLib.parse " 15-13-2024 10:00:00.25 ")
         = Some STRING).
Proof.
  apply (dash_ambiguous_variant QtLib.toDouble DateLib.parse
           " 15-13-2024 10:00:00.25 " "15-13-2024 10:00:00.25" "15-13-2024 10:00:00"
           250000000
           {| is_number := false; has_decimal := false; has_exponent := false |});
    try reflexivity.
  intros fmt Hin. simpl in Hin.
  repeat (destruct Hin as [<- | Hin]; [reflexivity |]). destruct Hin.
Defined.

(** C3 as stated fails at ["05-13-2024 10:00:00"]: [IsDayFirstFormat]
    answers [false], and neither entry point calls the calendar parser with
    a month-first pattern: the only calls are those of the table, and the
    results are [nullopt] and [STRING]. *)
Lemma dash_month_first_is_not_tried :
  IsDayFirstFormat "05-13-2024 10:00:00" "-" = false
  /\ AutoParseTimestamp_ref "05-13-2024 10:00:00"
     = (Ret None, calls_of UNAMBIGUOUS_FORMATS "05-13-2024 10:00:00")
  /\ DetectColumnType_ref "05-13-2024 10:00:00"
     = (Ret (string_info false), calls_of UNAMBIGUOUS_FORMATS "05-13-2024 10:00:00").
Proof. repeat split; reflexivity. Qed.

(** ** FastParser: the [Datetime] and [String] rules *)

Lemma c_str_no_nul (s : string) :
  all_chars (fun c => negb (Ascii.eqb c zero)) s = true -> c_str s = s.
Proof.
  induction s as [|c s IH]; [reflexivity |].
  cbn [all_chars c_str]. intros H. apply andb_true_iff in H. destruct H as [Hc Hs].
  apply negb_true_iff in Hc. now rewrite Hc, (IH Hs).
Qed.

(** C5, as the code has it.  For a [Datetime] column the splitter is always
    run on the trimmed value; the calendar parser is then called exactly
    once, on the base string the splitter returned and with the stored
    format passed as a C string (the stored format itself when it holds no
    NUL, its part before the first NUL otherwise), and [has_fractional]
    decides only whether the extracted nanoseconds are added.  For a
    [String] column the answer is [nullopt] and the calendar parser is not
    called. *)
Theorem ParseWithType_datetime_and_string
  (QLocale_c_toDouble : string -> option double)
  (date_parse : string -> string -> option (Z * string))
  (str : string) (type_info : ColumnTypeInfo) :
  (type type_info = DATETIME ->
   forall trimmed,
     Trim str = Ret trimmed -> empty trimmed = false ->
     exists base_str ns,
       ExtractFractionalSeconds trimmed = Ret (base_str, ns)
       /\ ParseWithType QLocale_c_toDouble date_parse str type_info
          = TryParseFormat date_parse base_str (c_str (format type_info))
              (if has_fractional type_info then ns else 0)
       /\ snd (ParseWithType QLocale_c_toDouble date_parse str type_info)
          = [ {| call_fmt := c_str (format type_info); call_input := base_str |} ]
       /\ (all_chars (fun c => negb (Ascii.eqb c zero)) (format type_info) = true ->
           snd (ParseWithType QLocale_c_toDouble date_parse str type_info)
           = [ {| call_fmt := format type_info; call_input := base_str |} ]))
  /\ (type type_info = STRING ->
      ParseWithType QLocale_c_toDouble date_parse str type_info = rret None).
Proof.
  split.
  - intros Ht trimmed HT HE.
    destruct (Extract_returns trimmed) as (base & ns & HX & _).
    exists base, ns. split; [exact HX |].
    rewrite (ParseWithType_DATETIME QLocale_c_toDouble date_parse
               str trimmed base ns type_info HT HE HX Ht).
    split; [reflexivity |]. split; [reflexivity |].
    intros Hn. cbn [snd TryParseFormat]. unfold TryParseFormat. cbn [snd].
    now rewrite (c_str_no_nul _ Hn).
  - apply ParseWithType_STRING.
Qed.

Lemma ParseWithType_datetime_and_string_witness :
  (exists base_str ns,
     ExtractFractionalSeconds "2024-01-15 10:30:00.5" = Ret (base_str, ns)
     /\ ParseWithType QtLib.toDouble DateLib.parse " 2024-01-15 10:30:00.5"
          (datetime_info "%Y-%m-%d %H:%M:%S" true)
        = TryParseFormat DateLib.parse base_str "%Y-%m-%d %H:%M:%S" ns
     /\ snd (ParseWithType QtLib.toDouble DateLib.parse " 2024-01-15 10:30:00.5"
               (datetime_info "%Y-%m-%d %H:%M:%S" true))
        = [ {| call_fmt := "%Y-%m-%d %H:%M:%S"; call_input := base_str |} ])
  /\ ParseWithType QtLib.toDouble DateLib.parse "2024-01-15" (string_info false)
     = rret None.
Proof.
  split.
  - destruct (proj1 (ParseWithType_datetime_and_string QtLib.toDouble DateLib.parse
                       " 2024-01-15 10:30:00.5"
                       (datetime_info "%Y-%m-%d %H:%M:%S" true))
                eq_refl "2024-01-15 10:30:00.5" eq_refl eq_refl)
      as (base_str & ns & HX & HP & HL & _).
    exists base_str, ns. split; [exact HX |]. split; [exact HP | exact HL].
  - apply (proj2 (ParseWithType_datetime_and_string QtLib.toDouble DateLib.parse
                    "2024-01-15" (string_info false))).
    reflexivity.
Defined.

(** C5 as stated fails: with [has_fractional] not recorded, the value
    ["2024-01-15T10:30:00.5Z"] still goes through the splitter, so the
    calendar parser receives ["2024-01-15T10:30:00Z"] and accepts it; had
    the splitter been skipped, it would have received the value itself and
    rejected it. *)
Lemma ParseWithType_always_splits :
  snd (ParseWithType_ref "2024-01-15T10:30:00.5Z"
         (datetime_info "%Y-%m-%dT%H:%M:%SZ" false))
  = [ {| call_fmt := "%Y-%m-%dT%H:%M:%SZ"; call_input := "2024-01-15T10:30:00Z" |} ]
  /\ fst (ParseWithType_ref "2024-01-15T10:30:00.5Z"
            (datetime_info "%Y-%m-%dT%H:%M:%SZ" false))
     = Ret (Some (Z2D 1705314600))
  /\ snd (ParseWithType_as_specified QtLib.toDouble DateLib.parse
            "2024-01-15T10:30:00.5Z" (datetime_info "%Y-%m-%dT%H:%M:%SZ" false))
     = [ {| call_fmt := "%Y-%m-%dT%H:%M:%SZ"; call_input := "2024-01-15T10:30:00.5Z" |} ]
  /\ fst (ParseWithType_as_specified QtLib.toDouble DateLib.parse
            "2024-01-15T10:30:00.5Z" (datetime_info "%Y-%m-%dT%H:%M:%SZ" false))
     = Ret None.
Proof. repeat split; vm_compute; reflexivity. Qed.

(** ** A format that holds a NUL *)

(** Both entry points that take a format from their caller hand it to the
    calendar parser through [c_str()]: of ["%Y-%m-%d\0junk"] the parser
    receives ["%Y-%m-%d"], and accepts ["2024-01-15"]. *)
Example format_is_cut_at_nul :
  ParseWithType_ref "2024-01-15"
    (datetime_info ("%Y-%m-%d" ++ String zero "junk") false)
  = (Ret (Some (Z2D 1705276800)),
     [ {| call_fmt := "%Y-%m-%d"; call_input := "2024-01-15" |} ])
  /\ FormatParseTimestamp_ref "2024-01-15" ("%Y-%m-%d" ++ String zero "junk")
     = (Ret (Some (Z2D 1705276800)),
        [ {| call_fmt := "%Y-%m-%d"; call_input := "2024-01-15" |} ])
  /\ DateLib.parse ("%Y-%m-%d" ++ String zero "junk") "2024-01-15" = None.
Proof. repeat split; vm_compute; reflexivity. Qed.

(** ** An explicit format with a [.zzz] marker *)

Example FormatParseTimestamp_zzz :
  qt_to_strptime "yyyy-MM-dd hh:mm:ss" = "%Y-%m-%d %H:%M:%S"
  /\ snd (FormatParseTimestamp_ref "2024-01-15 10:30:00.250" "yyyy-MM-dd hh:mm:ss.zzz")
     = [ {| call_fmt := "%Y-%m-%d %H:%M:%S"; call_input := "2024-01-15 10:30:00" |} ].
Proof. split; reflexivity. Qed.

(** ** FormatMatcher: what counts as a match *)

(** *** Patterns shadowed in the reference calendar parser *)

Lemma scan_append_bounded (n : nat) (p q input : string) (f : DateLib.fields) :
  (String.length p <= n)%nat -> DateLib.complete p = true ->
  DateLib.scan (p ++ q) input f = DateLib.then_scan q (DateLib.scan p input f).
Proof.
  revert p input f. induction n as [|n IH]; intros p input f Hn Hp.
  - destruct p; [reflexivity | simpl in Hn; lia].
  - destruct p as [|c p']; [reflexivity |].
    cbn [DateLib.complete] in Hp. cbn [append DateLib.scan].
    destruct (Ascii.eqb c "%").
    + destruct p' as [|spec p'']; [discriminate |]. cbn [append].
      destruct (DateLib.read_spec spec input f) as [[f' rest]|]; [| reflexivity].
      apply IH; [simpl in Hn; lia | assumption].
    + destruct (isspace c).
      * apply IH; [simpl in Hn; lia | assumption].
      * destruct input as [|d rest]; [reflexivity |].
        destruct (Ascii.eqb c d); [| reflexivity].
        apply IH; [simpl in Hn; lia | assumption].
Qed.

Lemma scan_append (p q input : string) (f : DateLib.fields) :
  DateLib.complete p = true ->
  DateLib.scan (p ++ q) input f = DateLib.then_scan q (DateLib.scan p input f).
Proof. apply (scan_append_bounded (String.length p)). lia. Qed.

(** A pattern extended by a suffix that leaves the date and the time of day
    alone matches only where the pattern itself matches. *)
Lemma parse_shadowed (p q input : string) :
  DateLib.complete p = true ->
  (forall rest f g rest', DateLib.scan q rest f = Some (g, rest') -> DateLib.same_date_time f g) ->
  DateLib.parse (p ++ q) input <> None -> DateLib.parse p input <> None.
Proof.
  intros Hp Hq. unfold DateLib.parse. rewrite (scan_append p q input DateLib.no_fields Hp).
  destruct (DateLib.scan p input DateLib.no_fields) as [[f rest]|]; [| intros H; exact H].
  cbn [DateLib.then_scan].
  destruct (DateLib.scan q rest f) as [[g rest']|] eqn:E; [| intros H; now elim H].
  destruct (Hq rest f g rest' E) as (HY & Hm & Hd & HH & HM & HS).
  rewrite HY, Hm, Hd, HH, HM, HS.
  destruct (DateLib.fY g), (DateLib.fm g), (DateLib.fd g); try (intros H; now elim H).
  destruct (DateLib.ymd_ok z z0 z1 && (DateLib.or0 (DateLib.fH g) <? 24) && (DateLib.or0 (DateLib.fM g) <? 60)
            && (DateLib.or0 (DateLib.fS g) <? 60));
    [discriminate | intros H; now elim H].
Qed.

Lemma zone_suffix_same_date_time (rest : string) (f g : DateLib.fields) (rest' : string) :
  DateLib.scan "%z" rest f = Some (g, rest') -> DateLib.same_date_time f g.
Proof.
  cbn [DateLib.scan]. change (Ascii.eqb "%" "%") with true. cbv iota.
  unfold DateLib.read_spec, DateLib.set_field. simpl.
  destruct (DateLib.read_offset rest) as [[v r]|]; [| discriminate].
  destruct (DateLib.checked_set (DateLib.foffset f) v) as [x|]; simpl; [| discriminate].
  intros H. injection H as <- _. repeat split.
Qed.

Lemma Z_suffix_same_date_time (rest : string) (f g : DateLib.fields) (rest' : string) :
  DateLib.scan "Z" rest f = Some (g, rest') -> DateLib.same_date_time f g.
Proof.
  cbn [DateLib.scan]. change (Ascii.eqb "Z" "%") with false. change (isspace "Z") with false.
  cbv iota.
  destruct rest as [|d r]; [discriminate |].
  destruct (Ascii.eqb "Z" d); [| discriminate].
  intros H. injection H as <- _. repeat split.
Qed.

Section ShadowedPatterns.

Variable date_parse : string -> string -> option (Z * string).

(** Where a pattern with a zone suffix matches, the pattern without it
    matches too. *)
Hypothesis T_z_shadowed : forall base_str,
  date_parse "%Y-%m-%dT%H:%M:%S%z" base_str <> None ->
  date_parse "%Y-%m-%dT%H:%M:%S" base_str <> None.
Hypothesis T_Z_shadowed : forall base_str,
  date_parse "%Y-%m-%dT%H:%M:%SZ" base_str <> None ->
  date_parse "%Y-%m-%dT%H:%M:%S" base_str <> None.
Hypothesis space_z_shadowed : forall base_str,
  date_parse "%Y-%m-%d %H:%M:%S%z" base_str <> None ->
  date_parse "%Y-%m-%d %H:%M:%S" base_str <> None.

Lemma detect_formats_never_zone (base_str fmt : string) :
  fst (detect_formats date_parse UNAMBIGUOUS_FORMATS base_str) = Ret (Some fmt) ->
  ~ In fmt zone_patterns.
Proof.
  pose proof (T_z_shadowed base_str) as H1.
  pose proof (T_Z_shadowed base_str) as H2.
  pose proof (space_z_shadowed base_str) as H3.
  unfold UNAMBIGUOUS_FORMATS, detect_formats, rbind, try_format, rret. simpl.
  repeat match goal with
    | |- context [date_parse ?f base_str] =>
        destruct (date_parse f base_str) eqn:?; simpl
    end;
    try discriminate;
    try solve [ exfalso; apply H1; congruence
              | exfalso; apply H2; congruence
              | exfalso; apply H3; congruence ];
    intros H; injection H as <-; unfold zone_patterns; simpl;
    intros [E | [E | [E | []]]]; discriminate E.
Qed.

Lemma detect_ambiguous_never_zone (base_str fmt : string) :
  fst (detect_ambiguous date_parse base_str) = Ret (Some fmt) ->
  ~ In fmt zone_patterns.
Proof.
  unfold detect_ambiguous, rbind, try_format, rret.
  destruct (ambiguous_guard "/" base_str);
    destruct (ambiguous_guard "-" base_str);
    destruct (IsDayFirstFormat base_str "/");
    destruct (IsDayFirstFormat base_str "-"); simpl;
    repeat match goal with
      | |- context [date_parse ?f base_str] =>
          destruct (date_parse f base_str) eqn:?; simpl
      end;
    try discriminate;
    intros H; injection H as <-; unfold zone_patterns; simpl;
    intros [E | [E | [E | []]]]; discriminate E.
Qed.

Lemma detect_datetime_never_zone (trimmed : string) (info : ColumnTypeInfo) :
  fst (detect_datetime date_parse trimmed) = Ret info ->
  ~ In (format info) zone_patterns.
Proof.
  unfold detect_datetime.
  destruct (Extract_returns trimmed) as (base & ns & HX & _).
  rewrite HX, rbind_lift_ret. cbn [fst snd].
  destruct (detect_formats_returns date_parse UNAMBIGUOUS_FORMATS base) as [m Hm].
  rewrite (rbind_returns _ _ _ Hm). cbn [fst].
  destruct m as [fmt|].
  - cbn [fst rret]. intros H. injection H as <-. cbn [format datetime_info].
    now apply (detect_formats_never_zone base).
  - destruct (detect_ambiguous_returns date_parse base) as [m' Hm'].
    rewrite (rbind_returns _ _ _ Hm'). cbn [fst].
    destruct m' as [fmt|]; cbn [fst rret]; intros H; injection H as <-.
    + cbn [format datetime_info]. now apply (detect_ambiguous_never_zone base).
    + unfold zone_patterns. simpl. intros [E | [E | [E | []]]]; discriminate E.
Qed.

Lemma DetectColumnType_never_zone (str : string) (info : ColumnTypeInfo) :
  fst (DetectColumnType date_parse str) = Ret info ->
  ~ In (format info) zone_patterns.
Proof.
  assert (Hplain : forall t, ~ In (format (info_of t)) zone_patterns).
  { intros t. unfold zone_patterns. simpl. intros [E | [E | [E | []]]]; discriminate E. }
  unfold DetectColumnType.
  destruct (Trim_returns str) as [trimmed ->]. rewrite rbind_lift_ret.
  destruct (empty trimmed) eqn:E.
  { cbn [fst rret]. intros H. injection H as <-. apply Hplain. }
  destruct (has_hex_prefix trimmed).
  { cbn [fst rret]. intros H. injection H as <-. apply Hplain. }
  destruct (CheckNumeric_returns trimmed (empty_false _ E)) as [ni ->].
  rewrite rbind_lift_ret.
  destruct (is_number ni); [| apply detect_datetime_never_zone].
  unfold detect_numeric.
  destruct (has_decimal ni).
  { cbn [fst rret]. intros H. injection H as <-. apply Hplain. }
  unfold rcatch, rbind, rlift, rret. simpl.
  destruct (stoll trimmed); simpl; intros H;
    first [discriminate H | injection H as <-; apply Hplain].
Qed.

End ShadowedPatterns.

Lemma DateLib_T_z_shadowed (base_str : string) :
  DateLib.parse "%Y-%m-%dT%H:%M:%S%z" base_str <> None ->
  DateLib.parse "%Y-%m-%dT%H:%M:%S" base_str <> None.
Proof.
  apply (parse_shadowed "%Y-%m-%dT%H:%M:%S" "%z"); [reflexivity |].
  apply zone_suffix_same_date_time.
Qed.

Lemma DateLib_T_Z_shadowed (base_str : string) :
  DateLib.parse "%Y-%m-%dT%H:%M:%SZ" base_str <> None ->
  DateLib.parse "%Y-%m-%dT%H:%M:%S" base_str <> None.
Proof.
  apply (parse_shadowed "%Y-%m-%dT%H:%M:%S" "Z"); [reflexivity |].
  apply Z_suffix_same_date_time.
Qed.

Lemma DateLib_space_z_shadowed (base_str : string) :
  DateLib.parse "%Y-%m-%d %H:%M:%S%z" base_str <> None ->
  DateLib.parse "%Y-%m-%d %H:%M:%S" base_str <> None.
Proof.
  apply (parse_shadowed "%Y-%m-%d %H:%M:%S" "%z"); [reflexivity |].
  apply zone_suffix_same_date_time.
Qed.

Lemma zone_patterns_never_detected (str : string) (info : ColumnTypeInfo) :
  fst (DetectColumnType_ref str) = Ret info -> ~ In (format info) zone_patterns.
Proof.
  apply DetectColumnType_never_zone.
  - apply DateLib_T_z_shadowed.
  - apply DateLib_T_Z_shadowed.
  - apply DateLib_space_z_shadowed.
Qed.

(** C6, at the failing inputs.  The calendar parser stops after the last
    conversion of the pattern and reports no failure when input remains.
    So the first pattern of the table accepts ["2024-01-15T10:30:00Z"] and
    ["2024-01-15T10:30:00+0100"] with the zone suffix unread: detection
    records the pattern without a zone, the later zone patterns are not
    tried, and the offset is not applied (the value is that of
    ["2024-01-15T10:30:00"], where the pattern with [%z] gives one hour
    less).  On no input at all does detection record one of the three zone
    patterns of the table. *)
Theorem first_pattern_accepts_unread_suffix :
  DateLib.parse "%Y-%m-%dT%H:%M:%S" "2024-01-15T10:30:00Z" = Some (1705314600, "Z")
  /\ DetectColumnType_ref "2024-01-15T10:30:00Z"
     = (Ret (datetime_info "%Y-%m-%dT%H:%M:%S" false),
        [ {| call_fmt := "%Y-%m-%dT%H:%M:%S"; call_input := "2024-01-15T10:30:00Z" |} ])
  /\ DateLib.parse "%Y-%m-%dT%H:%M:%S" "2024-01-15T10:30:00+0100"
     = Some (1705314600, "+0100")
  /\ DateLib.parse "%Y-%m-%dT%H:%M:%S%z" "2024-01-15T10:30:00+0100"
     = Some (1705311000, "")
  /\ AutoParseTimestamp_ref "2024-01-15T10:30:00+0100"
     = (Ret (Some (Z2D 1705314600)),
        [ {| call_fmt := "%Y-%m-%dT%H:%M:%S";
             call_input := "2024-01-15T10:30:00+0100" |} ])
  /\ fst (AutoParseTimestamp_ref "2024-01-15T10:30:00")
     = Ret (Some (Z2D 1705314600))
  /\ (forall str info,
        fst (DetectColumnType_ref str) = Ret info ->
        ~ In (format info) zone_patterns).
Proof.
  do 6 (split; [vm_compute; reflexivity |]).
  intros str info. apply zone_patterns_never_detected.
Qed.

(** * Further properties *)

(** ** Normalizer: what [Trim] returns *)

Lemma find_first_not_of_span (s : string) :
  find_first_not_of blanks s
  = if (span is_blank s =? size s)%nat then None else Some (span is_blank s).
Proof.
  induction s as [|c s IH]; [reflexivity |].
  cbn [find_first_not_of span size String.length]. fold (is_blank c).
  destruct (is_blank c); [| reflexivity].
  rewrite IH. change (String.length s) with (size s).
  cbn [Nat.eqb]. destruct (span is_blank s =? size s)%nat; reflexivity.
Qed.

Lemma rstrip_take (s : string) :
  rstrip s = match find_last_not_of blanks s with
             | Some j => take (j + 1) s
             | None => ""
             end.
Proof.
  induction s as [|c s IH]; [reflexivity |].
  cbn [rstrip find_last_not_of]. rewrite IH. fold (is_blank c).
  destruct (find_last_not_of blanks s) as [j|] eqn:F.
  - cbn [Nat.add take].
    destruct (take (j + 1) s) eqn:E; [| reflexivity].
    replace (j + 1)%nat with (S j) in E by lia.
    destruct s; [discriminate F | discriminate E].
  - destruct (is_blank c); reflexivity.
Qed.

Lemma find_last_not_of_drop (s : string) (i j : nat) :
  find_last_not_of blanks s = Some j -> (i <= j)%nat ->
  find_last_not_of blanks (drop i s) = Some (j - i)%nat.
Proof.
  revert s j. induction i as [|i IH]; intros s j H Hij.
  - rewrite Nat.sub_0_r. exact H.
  - destruct s as [|c s]; [discriminate |].
    cbn [find_last_not_of] in H. cbn [drop].
    destruct (find_last_not_of blanks s) as [k|] eqn:E.
    + injection H as <-. rewrite (IH s k E) by lia. f_equal.
    + destruct (mem_char c blanks); [discriminate |]. injection H as <-. lia.
Qed.

Lemma find_last_not_of_ge (s : string) (i : nat) :
  (i < size s)%nat -> is_blank (at_ s i) = false ->
  exists j, find_last_not_of blanks s = Some j /\ (i <= j)%nat.
Proof.
  revert i. induction s as [|c s IH]; intros i Hi Hb; [unfold size in Hi; simpl in Hi; lia |].
  cbn [find_last_not_of].
  destruct i as [|i].
  - unfold at_ in Hb. simpl in Hb. fold (is_blank c). rewrite Hb.
    destruct (find_last_not_of blanks s) as [k|]; eexists; split; try reflexivity; lia.
  - destruct (IH i) as (k & Hk & Hle).
    + unfold size in *. simpl in Hi. lia.
    + exact Hb.
    + rewrite Hk. exists (S k). split; [reflexivity | lia].
Qed.

Lemma at_span_unblank (s : string) :
  (span is_blank s < size s)%nat -> is_blank (at_ s (span is_blank s)) = false.
Proof.
  induction s as [|c s IH]; [unfold size; simpl; lia |].
  cbn [span]. destruct (is_blank c) eqn:E.
  - intros H. apply IH. unfold size in *. simpl in H. lia.
  - intros _. exact E.
Qed.

(** [Trim] removes the leading blanks, then the trailing ones. *)
Lemma Trim_strip (str : string) : Trim str = Ret (rstrip (lstrip str)).
Proof.
  unfold Trim, lstrip. rewrite find_first_not_of_span.
  pose proof (span_le is_blank str) as Hle.
  destruct (span is_blank str =? size str)%nat eqn:E.
  - apply Nat.eqb_eq in E. rewrite E.
    assert (Hd : forall s, drop (size s) s = "") by (induction s; simpl; auto).
    rewrite Hd. reflexivity.
  - apply Nat.eqb_neq in E.
    set (i := span is_blank str) in *.
    assert (Hi : (i < size str)%nat) by lia.
    destruct (find_last_not_of_ge str i Hi (at_span_unblank str Hi)) as (j & Hj & Hij).
    rewrite Hj. unfold substr.
    replace (i <=? size str)%nat with true by (symmetry; apply Nat.leb_le; lia).
    rewrite rstrip_take, (find_last_not_of_drop str i j Hj Hij). reflexivity.
Qed.

Lemma append_empty_r (s : string) : s ++ "" = s.
Proof. induction s as [|c s IH]; simpl; congruence. Qed.

Lemma append_assoc (a b c : string) : (a ++ b) ++ c = a ++ b ++ c.
Proof. induction a as [|x a IH]; simpl; congruence. Qed.

Lemma take_drop (n : nat) (s : string) : take n s ++ drop n s = s.
Proof.
  revert s. induction n as [|n IH]; intros [|c s]; simpl; auto.
  now rewrite IH.
Qed.

Lemma rstrip_split (s : string) :
  exists trail, s = rstrip s ++ trail /\ blank_only trail = true.
Proof.
  induction s as [|c s IH]; [exists ""; split; reflexivity |].
  destruct IH as (trail & Hs & Hb). cbn [rstrip].
  destruct (rstrip s) as [|d r] eqn:E.
  - destruct (is_blank c) eqn:Hc.
    + exists (String c s). split; [reflexivity |].
      simpl in Hs. subst trail. unfold blank_only in *. cbn [all_chars].
      fold (is_blank c). now rewrite Hc.
    + exists trail. split; [| exact Hb]. simpl in Hs. simpl. congruence.
  - exists trail. split; [| exact Hb]. cbn [append] in *. congruence.
Qed.

Lemma rstrip_ends_unblank (s : string) : ends_unblank (rstrip s) = true.
Proof.
  induction s as [|c s IH]; [reflexivity |]. cbn [rstrip].
  destruct (rstrip s) as [|d r] eqn:E.
  - destruct (is_blank c) eqn:Hc; simpl; [reflexivity | now rewrite Hc].
  - exact IH.
Qed.

Lemma rstrip_starts_unblank (s : string) :
  starts_unblank s = true -> starts_unblank (rstrip s) = true.
Proof.
  destruct s as [|c s]; [reflexivity |]. cbn [rstrip starts_unblank]. intros Hc.
  destruct (rstrip s); [| exact Hc].
  destruct (is_blank c) eqn:E; [discriminate | simpl; now rewrite E].
Qed.

Lemma lstrip_starts_unblank (s : string) : starts_unblank (lstrip s) = true.
Proof.
  unfold lstrip. induction s as [|c s IH]; [reflexivity |].
  cbn [span]. destruct (is_blank c) eqn:Hc; [exact IH |].
  simpl. now rewrite Hc.
Qed.

Lemma rstrip_fixed (s : string) : ends_unblank s = true -> rstrip s = s.
Proof.
  induction s as [|c s IH]; [reflexivity |]. cbn [rstrip ends_unblank].
  destruct s as [|d s].
  - intros H. simpl. destruct (is_blank c); [discriminate | reflexivity].
  - intros H. rewrite (IH H). reflexivity.
Qed.

Lemma lstrip_fixed (s : string) : starts_unblank s = true -> lstrip s = s.
Proof.
  unfold lstrip. destruct s as [|c s]; [reflexivity |]. cbn [starts_unblank span].
  destruct (is_blank c); [discriminate | reflexivity].
Qed.

Lemma rstrip_blank (s : string) : blank_only s = true -> rstrip s = "".
Proof.
  unfold blank_only. induction s as [|c s IH]; [reflexivity |].
  cbn [all_chars rstrip]. fold (is_blank c). intros H.
  apply andb_true_iff in H. destruct H as [Hc Hs].
  rewrite (IH Hs), Hc. reflexivity.
Qed.

Lemma rstrip_append_blank (s trail : string) :
  blank_only trail = true -> rstrip (s ++ trail) = rstrip s.
Proof.
  intros H. induction s as [|c s IH]; [now apply rstrip_blank |].
  cbn [append rstrip]. now rewrite IH.
Qed.

Lemma lstrip_blank (s : string) : blank_only s = true -> lstrip s = "".
Proof.
  unfold blank_only, lstrip. induction s as [|c s IH]; [reflexivity |].
  cbn [all_chars span]. fold (is_blank c). intros H.
  apply andb_true_iff in H. destruct H as [Hc Hs].
  rewrite Hc. cbn [drop]. now apply IH.
Qed.

Lemma lstrip_append_blank (lead s : string) :
  blank_only lead = true -> lstrip (lead ++ s) = lstrip s.
Proof.
  unfold blank_only, lstrip. induction lead as [|c lead IH]; [reflexivity |].
  cbn [all_chars append span]. fold (is_blank c). intros H.
  apply andb_true_iff in H. destruct H as [Hc Hs].
  rewrite Hc. cbn [drop]. now apply IH.
Qed.

Lemma strip_append_blank (s trail : string) :
  blank_only trail = true -> rstrip (lstrip (s ++ trail)) = rstrip (lstrip s).
Proof.
  intros H. induction s as [|c s IH].
  - cbn [append]. rewrite (lstrip_blank trail H). reflexivity.
  - unfold lstrip in *. cbn [append span].
    destruct (is_blank c); [exact IH |].
    cbn [drop]. apply (rstrip_append_blank (String c s) trail H).
Qed.

Lemma Trim_absorbs (lead s trail : string) :
  blank_only lead = true -> blank_only trail = true ->
  Trim (lead ++ s ++ trail) = Trim s.
Proof.
  intros Hl Ht. rewrite !Trim_strip.
  rewrite (lstrip_append_blank lead _ Hl), (strip_append_blank s trail Ht).
  reflexivity.
Qed.

(** X1. [Trim] returns the part of its argument between the leading and the
    trailing run of blanks (space, tab, carriage return, line feed): the
    argument is a run of blanks, then the result, then a run of blanks, and
    the result neither begins nor ends with a blank. *)
Theorem Trim_spec (str : string) :
  exists lead trimmed trail,
    Trim str = Ret trimmed
    /\ str = lead ++ trimmed ++ trail
    /\ blank_only lead = true /\ blank_only trail = true
    /\ starts_unblank trimmed = true /\ ends_unblank trimmed = true.
Proof.
  destruct (rstrip_split (lstrip str)) as (trail & Hs & Hb).
  exists (take (span is_blank str) str), (rstrip (lstrip str)), trail.
  split; [apply Trim_strip |].
  split; [rewrite <- Hs; unfold lstrip; now rewrite take_drop |].
  split; [apply (all_chars_take_span is_blank) |].
  split; [exact Hb |].
  split; [apply rstrip_starts_unblank, lstrip_starts_unblank |].
  apply rstrip_ends_unblank.
Qed.

(** X2. Blanks around a value never change an answer: trimming absorbs
    them, trimming twice is trimming once, and each of the four entry points
    gives on the padded value what it gives on the value itself (the same
    result and the same calls of the calendar parser). *)
Theorem surrounding_blanks_are_ignored
  (QLocale_c_toDouble : string -> option double)
  (date_parse : string -> string -> option (Z * string))
  (lead str trail : string) :
  blank_only lead = true -> blank_only trail = true ->
  Trim (lead ++ str ++ trail) = Trim str
  /\ (forall trimmed, Trim str = Ret trimmed -> Trim trimmed = Ret trimmed)
  /\ DetectColumnType date_parse (lead ++ str ++ trail)
     = DetectColumnType date_parse str
  /\ AutoParseTimestamp QLocale_c_toDouble date_parse (lead ++ str ++ trail)
     = AutoParseTimestamp QLocale_c_toDouble date_parse str
  /\ (forall type_info,
        ParseWithType QLocale_c_toDouble date_parse (lead ++ str ++ trail) type_info
        = ParseWithType QLocale_c_toDouble date_parse str type_info)
  /\ (forall fmt,
        FormatParseTimestamp date_parse (lead ++ str ++ trail) fmt
        = FormatParseTimestamp date_parse str fmt).
Proof.
  intros Hl Ht. pose proof (Trim_absorbs lead str trail Hl Ht) as H.
  split; [exact H |].
  split.
  { intros trimmed HT. rewrite Trim_strip in HT. injection HT as <-.
    rewrite Trim_strip. f_equal.
    rewrite (lstrip_fixed (rstrip (lstrip str))).
    - apply rstrip_fixed, rstrip_ends_unblank.
    - apply rstrip_starts_unblank, lstrip_starts_unblank. }
  unfold DetectColumnType, AutoParseTimestamp, ParseWithType, FormatParseTimestamp.
  rewrite H. repeat split.
Qed.

Lemma surrounding_blanks_are_ignored_witness :
  Trim ("  " ++ "1e5" ++ " ") = Trim "1e5"
  /\ (forall trimmed, Trim "1e5" = Ret trimmed -> Trim trimmed = Ret trimmed)
  /\ DetectColumnType DateLib.parse ("  " ++ "1e5" ++ " ")
     = DetectColumnType DateLib.parse "1e5"
  /\ AutoParseTimestamp QtLib.toDouble DateLib.parse ("  " ++ "1e5" ++ " ")
     = AutoParseTimestamp QtLib.toDouble DateLib.parse "1e5"
  /\ (forall type_info,
        ParseWithType QtLib.toDouble DateLib.parse ("  " ++ "1e5" ++ " ") type_info
        = ParseWithType QtLib.toDouble DateLib.parse "1e5" type_info)
  /\ (forall fmt,
        FormatParseTimestamp DateLib.parse ("  " ++ "1e5" ++ " ") fmt
        = FormatParseTimestamp DateLib.parse "1e5" fmt).
Proof.
  apply (surrounding_blanks_are_ignored QtLib.toDouble DateLib.parse "  " "1e5" " ");
    reflexivity.
Defined.

(** ** Integers below [2^53] convert to [double] without rounding *)

Lemma digits2_pos_iter_xO (p d : positive) :
  digits2_pos (Pos.iter xO p d) = (digits2_pos p + d)%positive.
Proof.
  induction d as [|d IH] using Pos.peano_ind.
  - simpl. lia.
  - rewrite Pos.iter_succ. cbn [digits2_pos]. rewrite IH. lia.
Qed.

Lemma Zpos_iter_xO (p d : positive) :
  Z.pos (Pos.iter xO p d) = Z.pos p * 2 ^ Z.pos d.
Proof.
  induction d as [|d IH] using Pos.peano_ind.
  - simpl. lia.
  - rewrite Pos.iter_succ, Pos2Z.inj_succ, Z.pow_succ_r by lia.
    change (Z.pos (Pos.iter xO p d)~0) with (2 * Z.pos (Pos.iter xO p d)).
    rewrite IH. ring.
Qed.

Lemma digits2_pos_le_53 (p : positive) :
  Z.pos p < 2 ^ 53 -> Z.pos (digits2_pos p) <= 53.
Proof.
  intros H. rewrite digits2_pos_size.
  pose proof (Pos.size_le p) as Hle. apply Pos2Z.pos_le_pos in Hle.
  rewrite Pos2Z.inj_pow in Hle. change (Z.pos p~0) with (2 * Z.pos p) in Hle.
  assert (H2 : Z.pos (Pos.size p) < 54).
  { apply (Z.pow_lt_mono_r_iff 2); [lia | lia |].
    eapply Z.le_lt_trans; [eassumption |].
    change (2 ^ 54) with (2 * 2 ^ 53). lia. }
  lia.
Qed.

(** The mantissa and exponent of a rounded integer of at most 53 bits. *)
Lemma binary_round_exact (s : bool) (p : positive) :
  Z.pos (digits2_pos p) <= 53 ->
  exists m e,
    binary_round 53 1024 s p 0 = S754_finite s m e
    /\ e <= 0 /\ Z.pos m = Z.pos p * 2 ^ (- e).
Proof.
  intros Hn. unfold binary_round.
  replace (fexp 53 1024 (Z.pos (digits2_pos p) + 0))
    with (Z.pos (digits2_pos p) - 53) by (unfold fexp, emin; lia).
  unfold shl_align.
  destruct (Z.pos (digits2_pos p) - 53 - 0) as [|q|d] eqn:E; [| lia |].
  - (* exactly 53 bits *)
    exists p, 0. split; [| split; [lia | simpl; lia]].
    unfold binary_round_aux, shr_fexp, Zdigits2.
    replace (Z.pos (digits2_pos p)) with 53 by lia.
    change (fexp 53 1024 (53 + 0) - 0) with 0.
    cbn [shr shr_record_of_loc shr_m loc_of_shr_record round_nearest_even Zdigits2].
    replace (Z.pos (digits2_pos p)) with 53 by lia.
    change (fexp 53 1024 (53 + 0) - 0) with 0.
    cbn [shr shr_record_of_loc shr_m]. reflexivity.
  - (* fewer bits: shift left by [d] *)
    assert (Hd : Z.pos d = 53 - Z.pos (digits2_pos p)) by lia.
    replace (Z.pos (digits2_pos p) - 53) with (Z.neg d) by lia.
    exists (Pos.iter xO p d), (Z.neg d).
    split; [| split; [lia | rewrite Zpos_iter_xO; reflexivity]].
    assert (Hs : Z.pos (digits2_pos (Pos.iter xO p d)) = 53).
    { rewrite digits2_pos_iter_xO. lia. }
    assert (Hf : fexp 53 1024 (53 + Z.neg d) - Z.neg d = 0).
    { unfold fexp, emin. lia. }
    unfold binary_round_aux, shr_fexp, Zdigits2.
    rewrite Hs, Hf.
    cbn [shr shr_record_of_loc shr_m loc_of_shr_record round_nearest_even Zdigits2].
    rewrite Hs, Hf.
    cbn [shr shr_record_of_loc shr_m].
    replace (Z.neg d <=? 1024 - 53) with true by (symmetry; apply Z.leb_le; lia).
    reflexivity.
Qed.

Lemma D2Z_finite_exact (s : bool) (m : positive) (e : Z) (p : positive) :
  e <= 0 -> Z.pos m = Z.pos p * 2 ^ (- e) ->
  D2Z (S754_finite s m e) = Some (if s then Z.neg p else Z.pos p).
Proof.
  intros He Hm. unfold D2Z.
  assert (Hpow : 0 < 2 ^ (- e)) by (apply Z.pow_pos_nonneg; lia).
  destruct (0 <=? e) eqn:E0.
  - apply Z.leb_le in E0. assert (e = 0) by lia. subst e.
    change (2 ^ (- 0)) with 1 in Hm. change (2 ^ 0) with 1.
    destruct s; f_equal; lia.
  - rewrite Hm, Z.mod_mul, Z.eqb_refl by lia.
    destruct s.
    + replace (Z.neg m) with (Z.neg p * 2 ^ (- e)) by lia.
      rewrite Z.div_mul by lia. reflexivity.
    + rewrite Z.div_mul by lia. reflexivity.
Qed.

Lemma D2Z_Z2D_exact (t : Z) : Z.abs t < 2 ^ 53 -> D2Z (Z2D t) = Some t.
Proof.
  intros H. destruct t as [|p|p]; [reflexivity | |].
  - destruct (binary_round_exact false p) as (m & e & Hr & He & Hm).
    { apply digits2_pos_le_53. lia. }
    unfold Z2D, binary_normalize. rewrite Hr.
    apply (D2Z_finite_exact false m e p He Hm).
  - destruct (binary_round_exact true p) as (m & e & Hr & He & Hm).
    { apply digits2_pos_le_53. lia. }
    unfold Z2D, binary_normalize. rewrite Hr.
    apply (D2Z_finite_exact true m e p He Hm).
Qed.

(** ** NumericClassifier: the purely integral strings *)

Lemma loop_keeps_exponent (str rest : string) (i : nat) (info : NumericInfo) (hd : bool) :
  has_exponent info = true ->
  has_exponent (fst (CheckNumeric_loop str rest i info hd)) = true.
Proof.
  revert i info hd. induction rest as [|c rest IH]; intros i info hd H; [exact H |].
  cbn [CheckNumeric_loop]. rewrite H.
  destruct (is_e c); [exact H |].
  destruct (is_sign c).
  { destruct ((i =? 0)%nat || is_e (at_ str (i - 1))); [now apply IH | exact H]. }
  destruct (is_point c).
  { rewrite orb_true_r. exact H. }
  destruct (isdigit c); [now apply IH | exact H].
Qed.

Lemma loop_keeps_decimal (str rest : string) (i : nat) (info : NumericInfo) (hd : bool) :
  has_decimal info = true ->
  has_decimal (fst (CheckNumeric_loop str rest i info hd)) = true.
Proof.
  revert i info hd. induction rest as [|c rest IH]; intros i info hd H; [exact H |].
  cbn [CheckNumeric_loop].
  destruct (is_e c).
  { destruct (has_exponent info); [exact H | now apply IH]. }
  destruct (is_sign c).
  { destruct ((i =? 0)%nat || is_e (at_ str (i - 1))); [now apply IH | exact H]. }
  destruct (is_point c).
  { rewrite H. exact H. }
  destruct (isdigit c); [now apply IH | exact H].
Qed.

Lemma at_append (pre : string) (c : ascii) (rest : string) :
  at_ (pre ++ String c rest) (size pre) = c.
Proof. unfold at_, size. induction pre as [|d pre IH]; [reflexivity | exact IH]. Qed.

Lemma append_cons (pre : string) (c : ascii) (rest : string) :
  pre ++ String c rest = (pre ++ String c "") ++ rest.
Proof. induction pre as [|d pre IH]; simpl; congruence. Qed.

Lemma size_append_one (pre : string) (c : ascii) :
  size (pre ++ String c "") = S (size pre).
Proof. unfold size. induction pre as [|d pre IH]; simpl; congruence. Qed.

Ltac not_integral H :=
  exfalso; apply (f_equal is_number) in H; simpl in H; discriminate H.

(** Past position 0, a scan that ends with no decimal point and no exponent
    has seen digits only. *)
Lemma loop_digits_only (rest pre : string) (info : NumericInfo) (hd : bool) :
  pre <> "" ->
  (is_e (at_ (pre ++ rest) (size pre - 1)) = true -> has_exponent info = true) ->
  fst (CheckNumeric_loop (pre ++ rest) rest (size pre) info hd) = integral_info ->
  all_chars isdigit rest = true
  /\ snd (CheckNumeric_loop (pre ++ rest) rest (size pre) info hd)
     = hd || negb (empty rest).
Proof.
  revert pre info hd. induction rest as [|c rest IH]; intros pre info hd Hpre Hprev Hres.
  - simpl. now rewrite orb_false_r.
  - assert (Hsz : (size pre =? 0)%nat = false).
    { apply Nat.eqb_neq. destruct pre; [congruence | discriminate]. }
    cbn [CheckNumeric_loop] in *. rewrite Hsz in *. cbn [orb] in *.
    destruct (is_e c) eqn:Ee.
    { destruct (has_exponent info); [not_integral Hres | exfalso].
      pose proof (loop_keeps_exponent (pre ++ String c rest) rest (S (size pre))
                    {| is_number := is_number info; has_decimal := has_decimal info;
                       has_exponent := true |} hd eq_refl) as K.
      rewrite Hres in K. discriminate. }
    destruct (is_sign c).
    { exfalso. destruct (is_e (at_ (pre ++ String c rest) (size pre - 1))) eqn:Ep.
      - pose proof (loop_keeps_exponent (pre ++ String c rest) rest (S (size pre))
                      info hd (Hprev eq_refl)) as K.
        rewrite Hres in K. discriminate.
      - not_integral Hres. }
    destruct (is_point c).
    { destruct (has_decimal info || has_exponent info);
        [not_integral Hres | exfalso].
      pose proof (loop_keeps_decimal (pre ++ String c rest) rest (S (size pre))
                    {| is_number := is_number info; has_decimal := true;
                       has_exponent := has_exponent info |} hd eq_refl) as K.
      rewrite Hres in K. discriminate. }
    destruct (isdigit c) eqn:Ed; [| not_integral Hres].
    rewrite append_cons in Hres |- *. rewrite <- size_append_one with (c := c) in Hres |- *.
    destruct (IH (pre ++ String c "") info true) as [Hall Hhd].
    + destruct pre; discriminate.
    + rewrite size_append_one, Nat.sub_succ, Nat.sub_0_r.
      rewrite <- append_cons, at_append, Ee. discriminate.
    + exact Hres.
    + cbn [all_chars]. rewrite Ed, Hall, Hhd, orb_true_r. split; reflexivity.
Qed.

(** On digits only, the scan changes nothing but [has_digit]. *)
Lemma loop_on_digits (str rest : string) (i : nat) (info : NumericInfo) (hd : bool) :
  all_chars isdigit rest = true ->
  CheckNumeric_loop str rest i info hd = (info, hd || negb (empty rest)).
Proof.
  revert i hd. induction rest as [|c rest IH]; intros i hd H.
  - simpl. now rewrite orb_false_r.
  - cbn [all_chars] in H. apply andb_true_iff in H. destruct H as [Hc Hr].
    cbn [CheckNumeric_loop].
    assert (He : is_e c = false).
    { unfold is_e. rewrite (isdigit_not_char c "e" Hc eq_refl),
        (isdigit_not_char c "E" Hc eq_refl). reflexivity. }
    assert (Hs : is_sign c = false).
    { unfold is_sign. rewrite (isdigit_not_char c "-" Hc eq_refl),
        (isdigit_not_char c "+" Hc eq_refl). reflexivity. }
    assert (Hp : is_point c = false).
    { unfold is_point. rewrite (isdigit_not_char c "." Hc eq_refl),
        (isdigit_not_char c "," Hc eq_refl). reflexivity. }
    rewrite He, Hs, Hp, Hc, (IH (S i) true Hr). simpl. now rewrite orb_true_r.
Qed.

Lemma back_all_chars (p : ascii -> bool) (s : string) :
  all_chars p s = true -> s <> "" -> exists c, back s = Ret c /\ p c = true.
Proof.
  induction s as [|c s IH]; [congruence |]. intros H _.
  cbn [all_chars] in H. apply andb_true_iff in H. destruct H as [Hc Hs].
  destruct s as [|d s]; [exists c; split; [reflexivity | exact Hc] |].
  destruct (IH Hs) as (x & Hx & Hpx); [discriminate |].
  exists x. split; [exact Hx | exact Hpx].
Qed.

Lemma is_sign_strip (c : ascii) (rest : string) :
  is_sign c = true -> snd (strip_sign (String c rest)) = rest.
Proof.
  unfold is_sign, strip_sign. intros H.
  destruct (Ascii.eqb c "-"); [reflexivity |].
  destruct (Ascii.eqb c "+"); [reflexivity | discriminate].
Qed.

Lemma digit_strip (c : ascii) (rest : string) :
  isdigit c = true -> strip_sign (String c rest) = (false, String c rest).
Proof.
  intros Hc. unfold strip_sign.
  rewrite (isdigit_not_char c "-" Hc eq_refl), (isdigit_not_char c "+" Hc eq_refl).
  reflexivity.
Qed.

Lemma not_sign_strip (c : ascii) (rest : string) :
  is_sign c = false -> strip_sign (String c rest) = (false, String c rest).
Proof.
  unfold is_sign, strip_sign. intros H. apply orb_false_iff in H.
  destruct H as [-> ->]. reflexivity.
Qed.

Lemma CheckNumeric_integral_literal (str : string) :
  CheckNumeric str = Ret integral_info -> integer_literal str = true.
Proof.
  unfold CheckNumeric.
  destruct (CheckNumeric_loop str str 0 _ false) as [info hd] eqn:L.
  fold integral_info in L.
  destruct (is_number info) eqn:N; [| intros H; injection H as ->; discriminate].
  destruct (back str) as [last| |] eqn:B; cbn [obind]; try discriminate.
  destruct (negb hd || is_e last || is_sign last) eqn:G;
    [intros H; exfalso; unfold not_a_number, integral_info in H; congruence |].
  intros H. injection H as ->.
  apply orb_false_iff in G. destruct G as [G _].
  apply orb_false_iff in G. destruct G as [G _].
  apply negb_false_iff in G. subst hd.
  destruct str as [|c rest]; [discriminate B |].
  cbn [CheckNumeric_loop] in L. unfold integral_info in L.
  cbn [Nat.eqb orb is_number has_decimal has_exponent] in L.
  unfold integer_literal.
  destruct (is_e c) eqn:Ee.
  { exfalso.
    pose proof (loop_keeps_exponent (String c rest) rest 1
                  {| is_number := true; has_decimal := false; has_exponent := true |}
                  false eq_refl) as K.
    rewrite L in K. discriminate. }
  destruct (is_sign c) eqn:Es.
  { rewrite (is_sign_strip c rest Es).
    destruct (loop_digits_only rest (String c "") integral_info false) as [Hall Hhd].
    - discriminate.
    - cbn [size String.length Nat.sub append]. unfold at_. cbn [String.get].
      rewrite Ee. discriminate.
    - cbn [append size String.length]. unfold integral_info at 1. rewrite L. reflexivity.
    - cbn [append size String.length] in Hhd. unfold integral_info in Hhd.
      rewrite L in Hhd. cbn [snd orb] in Hhd.
      rewrite Hall, <- Hhd. reflexivity. }
  rewrite (not_sign_strip c rest Es). cbn [snd empty negb]. rewrite andb_true_r.
  destruct (is_point c).
  { exfalso.
    pose proof (loop_keeps_decimal (String c rest) rest 1
                  {| is_number := true; has_decimal := true; has_exponent := false |}
                  false eq_refl) as K.
    rewrite L in K. discriminate. }
  destruct (isdigit c) eqn:Ed; [| exfalso; congruence].
  destruct (loop_digits_only rest (String c "") integral_info true) as [Hall _].
  - discriminate.
  - cbn [size String.length Nat.sub append]. unfold at_. cbn [String.get].
    rewrite Ee. discriminate.
  - cbn [append size String.length]. unfold integral_info at 1. rewrite L. reflexivity.
  - cbn [all_chars]. rewrite Ed, Hall. reflexivity.
Qed.

Lemma integer_literal_CheckNumeric (str : string) :
  integer_literal str = true -> CheckNumeric str = Ret integral_info.
Proof.
  unfold integer_literal. intros H. apply andb_true_iff in H. destruct H as [Hall Hne].
  apply negb_true_iff in Hne.
  destruct str as [|c rest]; [discriminate Hne |].
  unfold CheckNumeric.
  change {| is_number := true; has_decimal := false; has_exponent := false |}
    with integral_info.
  destruct (is_sign c) eqn:Es.
  - rewrite (is_sign_strip c rest Es) in Hall, Hne.
    assert (Ee : is_e c = false).
    { unfold is_sign in Es. unfold is_e.
      destruct (Ascii.eqb c "-") eqn:E1; [apply Ascii.eqb_eq in E1; subst c; reflexivity |].
      destruct (Ascii.eqb c "+") eqn:E2; [apply Ascii.eqb_eq in E2; subst c; reflexivity |].
      discriminate. }
    cbn [CheckNumeric_loop]. cbn [Nat.eqb orb].
    rewrite Ee, Es, (loop_on_digits _ rest 1 integral_info false Hall), Hne.
    cbn [is_number integral_info orb negb].
    destruct (back_all_chars isdigit rest Hall) as (last & Hb & Hl).
    { intros ->. discriminate. }
    assert (Hb' : back (String c rest) = Ret last).
    { destruct rest; [discriminate Hne | exact Hb]. }
    rewrite Hb'. cbn [obind].
    unfold is_e, is_sign.
    rewrite (isdigit_not_char last "e" Hl eq_refl), (isdigit_not_char last "E" Hl eq_refl),
      (isdigit_not_char last "-" Hl eq_refl), (isdigit_not_char last "+" Hl eq_refl).
    reflexivity.
  - rewrite (not_sign_strip c rest Es) in Hall. cbn [snd] in Hall.
    rewrite (loop_on_digits _ (String c rest) 0 integral_info false Hall).
    cbn [is_number integral_info orb negb empty].
    destruct (back_all_chars isdigit (String c rest) Hall) as (last & Hb & Hl);
      [discriminate |].
    rewrite Hb. cbn [obind].
    unfold is_e, is_sign.
    rewrite (isdigit_not_char last "e" Hl eq_refl), (isdigit_not_char last "E" Hl eq_refl),
      (isdigit_not_char last "-" Hl eq_refl), (isdigit_not_char last "+" Hl eq_refl).
    reflexivity.
Qed.

(** ** [std::stoll] on an integer literal *)

Lemma stoll_digits_range (ds : string) (neg : bool) :
  all_chars isdigit ds = true -> ds <> "" ->
  let v := digits_value 10 0 ds in
  let r := if neg then - v else v in
  (if (span (is_digit_in_base 10) (skip_hex_prefix 10 ds) =? 0)%nat
   then Throw invalid_argument
   else
     if ((if neg then - digits_value 10 0 (skip_hex_prefix 10 ds)
          else digits_value 10 0 (skip_hex_prefix 10 ds)) <? INT64_MIN)
        || (INT64_MAX <? (if neg then - digits_value 10 0 (skip_hex_prefix 10 ds)
                          else digits_value 10 0 (skip_hex_prefix 10 ds)))
     then Throw out_of_range
     else Ret (if neg then - digits_value 10 0 (skip_hex_prefix 10 ds)
               else digits_value 10 0 (skip_hex_prefix 10 ds)))
  = if (r <? INT64_MIN) || (INT64_MAX <? r) then Throw out_of_range else Ret r.
Proof.
  intros Hall Hne v r.
  assert (Hhex : skip_hex_prefix 10 ds = ds).
  { unfold skip_hex_prefix. destruct ds as [|z [|x [|h t]]]; reflexivity. }
  rewrite Hhex.
  destruct ds as [|c t]; [congruence |].
  cbn [all_chars] in Hall. apply andb_true_iff in Hall. destruct Hall as [Hc _].
  assert (Hdig : (span (is_digit_in_base 10) (String c t) =? 0)%nat = false).
  { apply Nat.eqb_neq. simpl. unfold is_digit_in_base.
    rewrite (isdigit_in_base_10 c Hc). discriminate. }
  rewrite Hdig. reflexivity.
Qed.

Lemma stoll_literal (s : string) :
  integer_literal s = true ->
  stoll s = if (literal_value s <? INT64_MIN) || (INT64_MAX <? literal_value s)
            then Throw out_of_range else Ret (literal_value s).
Proof.
  unfold integer_literal, literal_value. intros H.
  apply andb_true_iff in H. destruct H as [Hall Hne]. apply negb_true_iff in Hne.
  assert (Hne' : snd (strip_sign s) <> "") by (intros E; rewrite E in Hne; discriminate).
  assert (Hsp : span isspace s = 0%nat).
  { destruct s as [|c t]; [reflexivity |]. cbn [span].
    destruct (is_sign c) eqn:Es.
    - unfold is_sign in Es.
      destruct (Ascii.eqb c "-") eqn:E1; [apply Ascii.eqb_eq in E1; subst c; reflexivity |].
      destruct (Ascii.eqb c "+") eqn:E2; [apply Ascii.eqb_eq in E2; subst c; reflexivity |].
      discriminate.
    - rewrite (not_sign_strip c t Es) in Hall. cbn [snd all_chars] in Hall.
      apply andb_true_iff in Hall. destruct Hall as [Hc _].
      now rewrite (isdigit_not_space c Hc). }
  unfold stoll, stoll_base. rewrite Hsp. cbn [drop].
  apply (stoll_digits_range (snd (strip_sign s)) (fst (strip_sign s)) Hall Hne').
Qed.

Lemma literal_value_bound (s : string) :
  integer_literal s = true -> (size (snd (strip_sign s)) <= 18)%nat ->
  Z.abs (literal_value s) < 10 ^ 18.
Proof.
  unfold integer_literal, literal_value. intros H Hsz.
  apply andb_true_iff in H. destruct H as [Hall _].
  pose proof (digits_value_bounds _ 0 Hall ltac:(lia)) as [Hlo Hhi].
  assert (Hpow : 10 ^ Z.of_nat (size (snd (strip_sign s))) <= 10 ^ 18).
  { apply Z.pow_le_mono_r; lia. }
  destruct (fst (strip_sign s)); lia.
Qed.

Lemma stoll_short_literal (s : string) :
  integer_literal s = true -> (size (snd (strip_sign s)) <= 18)%nat ->
  stoll s = Ret (literal_value s).
Proof.
  intros H Hsz. rewrite (stoll_literal s H).
  pose proof (literal_value_bound s H Hsz) as Hb.
  replace (literal_value s <? INT64_MIN) with false
    by (symmetry; apply Z.ltb_ge; unfold INT64_MIN; lia).
  replace (INT64_MAX <? literal_value s) with false
    by (symmetry; apply Z.ltb_ge; unfold INT64_MAX; lia).
  reflexivity.
Qed.

Lemma literal_no_hex_prefix (s : string) :
  integer_literal s = true -> has_hex_prefix s = false.
Proof.
  unfold integer_literal, has_hex_prefix. intros H.
  apply andb_true_iff in H. destruct H as [Hall _].
  destruct s as [|c [|d t]]; try reflexivity.
  unfold at_. cbn [String.get].
  destruct (is_sign c) eqn:Es.
  - unfold is_sign in Es.
    destruct (Ascii.eqb c "-") eqn:E1;
      [apply Ascii.eqb_eq in E1; subst c; now rewrite andb_false_r |].
    destruct (Ascii.eqb c "+") eqn:E2;
      [apply Ascii.eqb_eq in E2; subst c; now rewrite andb_false_r |].
    discriminate.
  - rewrite (not_sign_strip c _ Es) in Hall. cbn [snd all_chars] in Hall.
    apply andb_true_iff in Hall. destruct Hall as [_ Hall].
    apply andb_true_iff in Hall. destruct Hall as [Hd _].
    rewrite (isdigit_not_char d "x" Hd eq_refl), (isdigit_not_char d "X" Hd eq_refl).
    now rewrite !andb_false_r.
Qed.

Lemma literal_not_empty (s : string) : integer_literal s = true -> empty s = false.
Proof. destruct s; [discriminate | reflexivity]. Qed.

(** X3. [CheckNumeric] classifies a string as a number without decimal
    point and without exponent exactly when the string is one optional sign
    followed by one digit or more.  On such a string [std::stoll] cannot
    fail for want of digits: it returns the value spelled, or throws
    [std::out_of_range] when the value does not fit an [int64_t]. *)
Theorem CheckNumeric_integral (str : string) :
  (CheckNumeric str = Ret integral_info <-> integer_literal str = true)
  /\ (integer_literal str = true ->
      stoll str
      = if (literal_value str <? INT64_MIN) || (INT64_MAX <? literal_value str)
        then Throw out_of_range else Ret (literal_value str)).
Proof.
  split; [split |].
  - apply CheckNumeric_integral_literal.
  - apply integer_literal_CheckNumeric.
  - apply stoll_literal.
Qed.

Lemma CheckNumeric_integral_witness :
  stoll "-99999999999999999999" = Throw out_of_range.
Proof.
  apply (proj2 (CheckNumeric_integral "-99999999999999999999")). reflexivity.
Defined.

(** ** Integers through the entry points *)

Section Integers.

Variable QLocale_c_toDouble : string -> option double.
Variable date_parse : string -> string -> option (Z * string).

Lemma AutoParseTimestamp_integer (str trimmed : string) :
  Trim str = Ret trimmed -> integer_literal trimmed = true ->
  (size (snd (strip_sign trimmed)) <= 18)%nat ->
  AutoParseTimestamp QLocale_c_toDouble date_parse str
  = rret (Some (EpochToSeconds (literal_value trimmed)
                  (DetectEpochType (literal_value trimmed)))).
Proof.
  intros HT HL Hsz. unfold AutoParseTimestamp.
  rewrite HT, rbind_lift_ret, (literal_not_empty _ HL).
  rewrite (integer_literal_CheckNumeric _ HL), rbind_lift_ret.
  unfold auto_numeric. cbn [is_number has_decimal has_exponent integral_info negb andb].
  rewrite (stoll_short_literal _ HL Hsz), rbind_lift_ret. reflexivity.
Qed.

Lemma DetectColumnType_integer (str trimmed : string) :
  Trim str = Ret trimmed -> integer_literal trimmed = true ->
  (size (snd (strip_sign trimmed)) <= 18)%nat ->
  DetectColumnType date_parse str
  = rret (info_of (DetectEpochType (literal_value trimmed))).
Proof.
  intros HT HL Hsz.
  rewrite (DetectColumnType_numeric date_parse str trimmed integral_info HT
             (literal_not_empty _ HL) (literal_no_hex_prefix _ HL)
             (integer_literal_CheckNumeric _ HL) eq_refl).
  cbn [has_decimal integral_info]. now rewrite (stoll_short_literal _ HL Hsz).
Qed.

Lemma ParseWithType_epoch_integer (str trimmed : string) (t : ColumnType) :
  Trim str = Ret trimmed -> integer_literal trimmed = true ->
  (size (snd (strip_sign trimmed)) <= 18)%nat ->
  is_epoch t = true ->
  ParseWithType QLocale_c_toDouble date_parse str (info_of t)
  = rret (Some (EpochToSeconds (literal_value trimmed) t)).
Proof.
  intros HT HL Hsz Ht. unfold ParseWithType.
  rewrite HT, rbind_lift_ret, (literal_not_empty _ HL).
  cbn [type info_of].
  destruct t; try discriminate;
    rewrite (stoll_short_literal _ HL Hsz), rbind_lift_ret; reflexivity.
Qed.

End Integers.

(** X4. A value that trims to an integer literal of at most 18 digits never
    reaches the calendar parser.  With [v] the integer spelled,
    [DetectColumnType] answers the type [DetectEpochType v],
    [AutoParseTimestamp] answers [EpochToSeconds v (DetectEpochType v)], and
    [ParseWithType] with the detected type answers the same when that type
    is one of the four epoch types. *)
Theorem integers_bypass_the_calendar
  (QLocale_c_toDouble : string -> option double)
  (date_parse : string -> string -> option (Z * string))
  (str trimmed : string) :
  Trim str = Ret trimmed -> integer_literal trimmed = true ->
  (size (snd (strip_sign trimmed)) <= 18)%nat ->
  let v := literal_value trimmed in
  DetectColumnType date_parse str = rret (info_of (DetectEpochType v))
  /\ AutoParseTimestamp QLocale_c_toDouble date_parse str
     = rret (Some (EpochToSeconds v (DetectEpochType v)))
  /\ (is_epoch (DetectEpochType v) = true ->
      ParseWithType QLocale_c_toDouble date_parse str (info_of (DetectEpochType v))
      = rret (Some (EpochToSeconds v (DetectEpochType v)))).
Proof.
  intros HT HL Hsz v. split; [| split].
  - now apply DetectColumnType_integer.
  - now apply AutoParseTimestamp_integer.
  - now apply ParseWithType_epoch_integer.
Qed.

Lemma integers_bypass_the_calendar_witness :
  DetectColumnType DateLib.parse " 1700000000123 " = rret (info_of EPOCH_MILLIS)
  /\ AutoParseTimestamp QtLib.toDouble DateLib.parse " 1700000000123 "
     = rret (Some (EpochToSeconds 1700000000123 EPOCH_MILLIS))
  /\ (is_epoch EPOCH_MILLIS = true ->
      ParseWithType QtLib.toDouble DateLib.parse " 1700000000123 " (info_of EPOCH_MILLIS)
      = rret (Some (EpochToSeconds 1700000000123 EPOCH_MILLIS))).
Proof.
  apply (integers_bypass_the_calendar QtLib.toDouble DateLib.parse
           " 1700000000123 " "1700000000123"); [reflexivity | reflexivity |].
  apply Nat.leb_le. reflexivity.
Defined.

Lemma stoll_small_literal (s : string) :
  integer_literal s = true -> Z.abs (literal_value s) < 2 ^ 53 ->
  stoll s = Ret (literal_value s).
Proof.
  intros H Hv. rewrite (stoll_literal s H).
  change (2 ^ 53) with 9007199254740992 in Hv.
  replace (literal_value s <? INT64_MIN) with false
    by (symmetry; apply Z.ltb_ge; unfold INT64_MIN; lia).
  replace (INT64_MAX <? literal_value s) with false
    by (symmetry; apply Z.ltb_ge; unfold INT64_MAX; lia).
  reflexivity.
Qed.

(** X5. An integer literal, however many digits it is written with, whose
    value lies outside the millisecond, microsecond and nanosecond windows
    and below [2^53] in magnitude comes back from [AutoParseTimestamp] as
    the double that denotes exactly that integer. *)
Theorem AutoParseTimestamp_integer_exact
  (QLocale_c_toDouble : string -> option double)
  (date_parse : string -> string -> option (Z * string))
  (str trimmed : string) :
  Trim str = Ret trimmed -> integer_literal trimmed = true ->
  Z.abs (literal_value trimmed) < 2 ^ 53 ->
  in_window 1000 (literal_value trimmed) = false ->
  in_window 1000000 (literal_value trimmed) = false ->
  in_window 1000000000 (literal_value trimmed) = false ->
  exists d,
    AutoParseTimestamp QLocale_c_toDouble date_parse str = rret (Some d)
    /\ D2Z d = Some (literal_value trimmed).
Proof.
  intros HT HL Hv H3 H6 H9.
  exists (EpochToSeconds (literal_value trimmed)
            (DetectEpochType (literal_value trimmed))).
  split.
  - unfold AutoParseTimestamp.
    rewrite HT, rbind_lift_ret, (literal_not_empty _ HL).
    rewrite (integer_literal_CheckNumeric _ HL), rbind_lift_ret.
    unfold auto_numeric.
    cbn [is_number has_decimal has_exponent integral_info negb andb].
    rewrite (stoll_small_literal _ HL Hv), rbind_lift_ret. reflexivity.
  - rewrite DetectEpochType_chain, H9, H6, H3.
    destruct (in_window 1 (literal_value trimmed)); apply D2Z_Z2D_exact; exact Hv.
Qed.

Lemma AutoParseTimestamp_integer_exact_witness :
  exists d,
    AutoParseTimestamp QtLib.toDouble DateLib.parse " -0000000000000000000042 "
    = rret (Some d)
    /\ D2Z d = Some (-42).
Proof.
  apply (AutoParseTimestamp_integer_exact QtLib.toDouble DateLib.parse
           " -0000000000000000000042 " "-0000000000000000000042");
    reflexivity.
Defined.

(** X6. The four epoch windows do not overlap, so each type has one window:
    [DetectEpochType] answers seconds, milliseconds, microseconds or
    nanoseconds exactly for the values strictly between [EPOCH_FIRST] and
    [EPOCH_LAST] times 1, 1000, 10^6 or 10^9, and a second count of the
    window multiplied by 1000, 10^6 or 10^9 is classified accordingly. *)
Theorem DetectEpochType_scales (t : Z) :
  (DetectEpochType t = EPOCH_SECONDS <-> EPOCH_FIRST < t < EPOCH_LAST)
  /\ (DetectEpochType t = EPOCH_MILLIS
      <-> EPOCH_FIRST * 1000 < t < EPOCH_LAST * 1000)
  /\ (DetectEpochType t = EPOCH_MICROS
      <-> EPOCH_FIRST * 1000000 < t < EPOCH_LAST * 1000000)
  /\ (DetectEpochType t = EPOCH_NANOS
      <-> EPOCH_FIRST * 1000000000 < t < EPOCH_LAST * 1000000000)
  /\ (EPOCH_FIRST < t < EPOCH_LAST ->
      DetectEpochType (t * 1000) = EPOCH_MILLIS
      /\ DetectEpochType (t * 1000000) = EPOCH_MICROS
      /\ DetectEpochType (t * 1000000000) = EPOCH_NANOS).
Proof.
  assert (Hchar : forall u,
    (DetectEpochType u = EPOCH_SECONDS <-> EPOCH_FIRST < u < EPOCH_LAST)
    /\ (DetectEpochType u = EPOCH_MILLIS
        <-> EPOCH_FIRST * 1000 < u < EPOCH_LAST * 1000)
    /\ (DetectEpochType u = EPOCH_MICROS
        <-> EPOCH_FIRST * 1000000 < u < EPOCH_LAST * 1000000)
    /\ (DetectEpochType u = EPOCH_NANOS
        <-> EPOCH_FIRST * 1000000000 < u < EPOCH_LAST * 1000000000)).
  { intros u. rewrite DetectEpochType_chain. unfold in_window, EPOCH_FIRST, EPOCH_LAST.
    destruct (1400000000 * 1000000000 <? u) eqn:A9;
      destruct (u <? 2000000000 * 1000000000) eqn:B9;
      destruct (1400000000 * 1000000 <? u) eqn:A6;
      destruct (u <? 2000000000 * 1000000) eqn:B6;
      destruct (1400000000 * 1000 <? u) eqn:A3;
      destruct (u <? 2000000000 * 1000) eqn:B3;
      destruct (1400000000 * 1 <? u) eqn:A1;
      destruct (u <? 2000000000 * 1) eqn:B1;
      cbn [andb];
      repeat match goal with
        | H : (_ <? _) = true |- _ => apply Z.ltb_lt in H
        | H : (_ <? _) = false |- _ => apply Z.ltb_ge in H
        end;
      repeat split; intros; try discriminate; try lia. }
  destruct (Hchar t) as (H1 & H3 & H6 & H9).
  repeat (split; [assumption |]).
  intros Ht. unfold EPOCH_FIRST, EPOCH_LAST in Ht.
  split; [| split].
  - apply (proj1 (proj2 (Hchar (t * 1000)))). unfold EPOCH_FIRST, EPOCH_LAST. lia.
  - apply (proj1 (proj2 (proj2 (Hchar (t * 1000000))))).
    unfold EPOCH_FIRST, EPOCH_LAST. lia.
  - apply (proj2 (proj2 (proj2 (Hchar (t * 1000000000))))).
    unfold EPOCH_FIRST, EPOCH_LAST. lia.
Qed.

Lemma DetectEpochType_scales_witness :
  DetectEpochType (1700000000 * 1000) = EPOCH_MILLIS
  /\ DetectEpochType (1700000000 * 1000000) = EPOCH_MICROS
  /\ DetectEpochType (1700000000 * 1000000000) = EPOCH_NANOS.
Proof.
  apply (proj2 (proj2 (proj2 (proj2 (DetectEpochType_scales 1700000000))))).
  unfold EPOCH_FIRST, EPOCH_LAST. lia.
Defined.

(** ** Round trip, in general *)

(** X7. Detection followed by [ParseWithType] agrees with
    [AutoParseTimestamp], whatever the two external parsers answer, for
    every value without hexadecimal prefix that is not numeric, or is
    numeric with a decimal point, or is an integer literal of at most 18
    digits that falls in an epoch window. *)
Theorem round_trip_general
  (QLocale_c_toDouble : string -> option double)
  (date_parse : string -> string -> option (Z * string))
  (str trimmed : string) (num_info : NumericInfo) :
  Trim str = Ret trimmed -> empty trimmed = false ->
  has_hex_prefix trimmed = false ->
  CheckNumeric trimmed = Ret num_info ->
  is_number num_info = false
  \/ (is_number num_info = true /\ has_decimal num_info = true)
  \/ (integer_literal trimmed = true
      /\ (size (snd (strip_sign trimmed)) <= 18)%nat
      /\ is_epoch (DetectEpochType (literal_value trimmed)) = true) ->
  round_trip QLocale_c_toDouble date_parse str.
Proof.
  intros HT HE HX HC [HN | [[HN HD] | (HL & Hsz & Hep)]].
  - now apply (round_trip_datetime _ _ str trimmed num_info).
  - exists (info_of NUMBER). split.
    + rewrite (DetectColumnType_numeric date_parse str trimmed num_info HT HE HX HC HN).
      now rewrite HD.
    + unfold ParseWithType, AutoParseTimestamp.
      rewrite HT, !rbind_lift_ret, HE, HC, rbind_lift_ret.
      unfold auto_numeric. rewrite HN, HD. reflexivity.
  - exists (info_of (DetectEpochType (literal_value trimmed))). split.
    + now rewrite (DetectColumnType_integer date_parse str trimmed HT HL Hsz).
    + rewrite (ParseWithType_epoch_integer QLocale_c_toDouble date_parse
                 str trimmed _ HT HL Hsz Hep).
      now rewrite (AutoParseTimestamp_integer QLocale_c_toDouble date_parse
                     str trimmed HT HL Hsz).
Qed.

Lemma round_trip_general_witness :
  round_trip QtLib.toDouble DateLib.parse " 13/05/2024 10:00:00.5 ".
Proof.
  apply (round_trip_general QtLib.toDouble DateLib.parse
           " 13/05/2024 10:00:00.5 " "13/05/2024 10:00:00.5"
           {| is_number := false; has_decimal := false; has_exponent := false |});
    try reflexivity.
  left. reflexivity.
Defined.

(** ** The table, at the entry points *)

(** X8. On the datetime branch, when the calendar parser rejects the base
    string under the first patterns of the table and accepts it under the
    next one, both [AutoParseTimestamp] and [DetectColumnType] have called
    the parser with exactly those patterns, in table order, and stop there:
    the first answers the parsed seconds plus the extracted nanoseconds,
    the second records the accepted pattern and whether a fraction was
    there. *)
Theorem table_first_match
  (QLocale_c_toDouble : string -> option double)
  (date_parse : string -> string -> option (Z * string))
  (str trimmed base_str : string) (ns : nanoseconds) (num_info : NumericInfo)
  (before after : list string) (fmt : string) (tp : Z) (rest : string) :
  Trim str = Ret trimmed -> empty trimmed = false ->
  has_hex_prefix trimmed = false ->
  CheckNumeric trimmed = Ret num_info -> is_number num_info = false ->
  ExtractFractionalSeconds trimmed = Ret (base_str, ns) ->
  UNAMBIGUOUS_FORMATS = (before ++ fmt :: after)%list ->
  fails_on date_parse before base_str ->
  date_parse fmt base_str = Some (tp, rest) ->
  AutoParseTimestamp QLocale_c_toDouble date_parse str
  = (Ret (Some (duration_double (wrap64 (wrap64 (tp * 1000000000) + ns)))),
     calls_of (before ++ [fmt]) base_str)
  /\ DetectColumnType date_parse str
     = (Ret (datetime_info fmt ((0 <? ns) || negb (String.eqb trimmed base_str))),
        calls_of (before ++ [fmt]) base_str).
Proof.
  intros HT HE HX HC HN HS Htab Hfail Hok. split.
  - rewrite (AutoParseTimestamp_datetime QLocale_c_toDouble date_parse
               str trimmed num_info HT HE HC HN).
    unfold auto_datetime. rewrite HS, rbind_lift_ret. cbn [fst snd]. rewrite Htab.
    rewrite (try_formats_first_success date_parse before after fmt base_str ns
               (duration_double (wrap64 (wrap64 (tp * 1000000000) + ns))) Hfail).
    + unfold rbind, rret. simpl. now rewrite app_nil_r.
    + unfold TryParseFormat. rewrite Hok. reflexivity.
  - rewrite (DetectColumnType_datetime date_parse str trimmed num_info HT HE HX HC HN).
    unfold detect_datetime. rewrite HS, rbind_lift_ret. cbn [fst snd]. rewrite Htab.
    rewrite (detect_formats_first_success date_parse before after fmt base_str Hfail).
    + unfold rbind, rret. simpl. now rewrite app_nil_r.
    + rewrite Hok. discriminate.
Qed.

Lemma table_first_match_witness :
  AutoParseTimestamp QtLib.toDouble DateLib.parse "2024-01-15 10:30:00.25"
  = (Ret (Some (duration_double (wrap64 (wrap64 (1705314600 * 1000000000) + 250000000)))),
     calls_of ([ "%Y-%m-%dT%H:%M:%S"; "%Y-%m-%dT%H:%M:%S%z"; "%Y-%m-%dT%H:%M:%SZ" ]
               ++ [ "%Y-%m-%d %H:%M:%S" ]) "2024-01-15 10:30:00")
  /\ DetectColumnType DateLib.parse "2024-01-15 10:30:00.25"
     = (Ret (datetime_info "%Y-%m-%d %H:%M:%S"
               ((0 <? 250000000)
                || negb (String.eqb "2024-01-15 10:30:00.25" "2024-01-15 10:30:00"))),
        calls_of ([ "%Y-%m-%dT%H:%M:%S"; "%Y-%m-%dT%H:%M:%S%z"; "%Y-%m-%dT%H:%M:%SZ" ]
                  ++ [ "%Y-%m-%d %H:%M:%S" ]) "2024-01-15 10:30:00").
Proof.
  apply (table_first_match QtLib.toDouble DateLib.parse
           "2024-01-15 10:30:00.25" "2024-01-15 10:30:00.25" "2024-01-15 10:30:00"
           250000000
           {| is_number := false; has_decimal := false; has_exponent := false |}
           [ "%Y-%m-%dT%H:%M:%S"; "%Y-%m-%dT%H:%M:%S%z"; "%Y-%m-%dT%H:%M:%SZ" ]
           [ "%Y-%m-%d %H:%M:%S%z"; "%Y-%m-%d"; "%Y/%m/%d %H:%M:%S" ]
           "%Y-%m-%d %H:%M:%S" 1705314600 "");
    try reflexivity.
  intros f Hf. simpl in Hf.
  repeat (destruct Hf as [<- | Hf]; [reflexivity |]). destruct Hf.
Defined.

(** ** Explicit formats *)

Lemma replace_all_absent (s from to : string) :
  find_str from s = None -> replace_all s from to = s.
Proof.
  unfold replace_all. induction s as [|c s IH].
  - reflexivity.
  - cbn [find_str replace_all_from].
    destruct (String.prefix from (String c s)); [discriminate |].
    destruct (find_str from s); [discriminate |]. intros _.
    now rewrite IH.
Qed.

Lemma qt_to_strptime_no_token (format : string) :
  (forall tok, In tok qt_tokens -> find_str tok format = None) ->
  qt_to_strptime format = format.
Proof.
  intros H. unfold qt_to_strptime. cbv zeta.
  rewrite (replace_all_absent format "yyyy") by (apply H; simpl; tauto).
  rewrite (replace_all_absent format "yy") by (apply H; simpl; tauto).
  rewrite (replace_all_absent format "MM") by (apply H; simpl; tauto).
  rewrite (replace_all_absent format "dd") by (apply H; simpl; tauto).
  rewrite (replace_all_absent format "hh") by (apply H; simpl; tauto).
  rewrite (replace_all_absent format "HH") by (apply H; simpl; tauto).
  rewrite (replace_all_absent format "mm") by (apply H; simpl; tauto).
  apply replace_all_absent. apply H; simpl; tauto.
Qed.

Section ExplicitFormat.

Variable date_parse : string -> string -> option (Z * string).

Lemma FormatParseTimestamp_no_marker (str trimmed format : string) :
  Trim str = Ret trimmed -> empty trimmed = false ->
  find_str ".zzz" format = None ->
  FormatParseTimestamp date_parse str format
  = TryParseFormat date_parse trimmed (c_str (qt_to_strptime format)) 0.
Proof.
  intros HT HE HZ. unfold FormatParseTimestamp.
  rewrite HT, rbind_lift_ret, HE, HZ, rbind_lift_ret. reflexivity.
Qed.

Lemma FormatParseTimestamp_marker (str trimmed format : string) (zzz_pos : nat) :
  Trim str = Ret trimmed -> empty trimmed = false ->
  find_str ".zzz" format = Some zzz_pos ->
  FormatParseTimestamp date_parse str format
  = match find_dot_near trimmed zzz_pos with
    | Some _ =>
        match ExtractFractionalSeconds trimmed with
        | Ret (base_str, ns) =>
            TryParseFormat date_parse base_str
              (c_str (qt_to_strptime (without_marker format zzz_pos))) ns
        | _ => rret None
        end
    | None => TryParseFormat date_parse trimmed (c_str (qt_to_strptime format)) 0
    end.
Proof.
  intros HT HE HZ. unfold FormatParseTimestamp.
  rewrite HT, rbind_lift_ret, HE, HZ.
  destruct (find_dot_near trimmed zzz_pos); [| now rewrite rbind_lift_ret].
  destruct (Extract_returns trimmed) as (base & ns & HX & _).
  rewrite HX. cbn [obind].
  apply find_str_bound in HZ. change (size ".zzz") with 4%nat in HZ.
  pose proof (span_le (Ascii.eqb "z") (drop (zzz_pos + 1) format)) as Hsp.
  rewrite size_drop in Hsp.
  unfold substr, substr_from. cbn [Nat.leb obind drop].
  replace (zzz_pos + 1 + span (Ascii.eqb "z") (drop (zzz_pos + 1) format)
           <=? size format)%nat with true
    by (symmetry; apply Nat.leb_le; lia).
  cbn [obind]. rewrite rbind_lift_ret. reflexivity.
Qed.

End ExplicitFormat.

(** X9. A format that holds no [.zzz] marker and none of the Qt tokens
    ([yyyy yy MM dd hh HH mm ss]) is not rewritten: [FormatParseTimestamp]
    makes one call of the calendar parser, with the trimmed value, no
    fractional nanoseconds, and the format passed as a C string, which is
    that very format when it holds no NUL and its part before the first NUL
    otherwise. *)
Theorem FormatParseTimestamp_passes_strptime_formats
  (date_parse : string -> string -> option (Z * string))
  (str trimmed format : string) :
  Trim str = Ret trimmed -> empty trimmed = false ->
  find_str ".zzz" format = None ->
  (forall tok, In tok qt_tokens -> find_str tok format = None) ->
  FormatParseTimestamp date_parse str format
  = TryParseFormat date_parse trimmed (c_str format) 0
  /\ (all_chars (fun c => negb (Ascii.eqb c zero)) format = true ->
      FormatParseTimestamp date_parse str format
      = TryParseFormat date_parse trimmed format 0).
Proof.
  intros HT HE HZ Htok.
  rewrite (FormatParseTimestamp_no_marker date_parse str trimmed format HT HE HZ).
  rewrite (qt_to_strptime_no_token format Htok).
  split; [reflexivity |]. intros Hn. now rewrite (c_str_no_nul format Hn).
Qed.

Lemma FormatParseTimestamp_passes_strptime_formats_witness :
  FormatParseTimestamp DateLib.parse " 15/01/2024 10:30 " "%d/%m/%Y %H:%M"
  = TryParseFormat DateLib.parse "15/01/2024 10:30" "%d/%m/%Y %H:%M" 0.
Proof.
  apply (FormatParseTimestamp_passes_strptime_formats DateLib.parse
           " 15/01/2024 10:30 " "15/01/2024 10:30" "%d/%m/%Y %H:%M");
    try reflexivity.
  intros tok Htok. simpl in Htok.
  repeat (destruct Htok as [<- | Htok]; [reflexivity |]). destruct Htok.
Defined.

(** X10. With a [.zzz] marker in the format, the fraction of the value is
    split off, and the marker cut from the pattern, only when the value
    holds a ['.'] at or after five positions before the marker's position.
    When the marker starts at position 1, 2, 3 or 4 that search position
    wraps around and nothing is found: the value is never split, and the
    pattern keeps its marker, whatever the value holds.  In each case the
    pattern, once its Qt tokens are translated, reaches the calendar parser
    as a C string (cut at its first NUL, if it holds one). *)
Theorem FormatParseTimestamp_marker_position
  (date_parse : string -> string -> option (Z * string))
  (str trimmed format : string) (zzz_pos : nat) :
  Trim str = Ret trimmed -> empty trimmed = false ->
  find_str ".zzz" format = Some zzz_pos ->
  ((0 < zzz_pos < 5)%nat ->
   FormatParseTimestamp date_parse str format
   = TryParseFormat date_parse trimmed (c_str (qt_to_strptime format)) 0)
  /\ ((zzz_pos = 0 \/ 5 <= zzz_pos)%nat ->
      find_char "." trimmed (zzz_pos - 5) = None ->
      FormatParseTimestamp date_parse str format
      = TryParseFormat date_parse trimmed (c_str (qt_to_strptime format)) 0)
  /\ ((zzz_pos = 0 \/ 5 <= zzz_pos)%nat ->
      find_char "." trimmed (zzz_pos - 5) <> None ->
      exists base_str ns,
        ExtractFractionalSeconds trimmed = Ret (base_str, ns)
        /\ FormatParseTimestamp date_parse str format
           = TryParseFormat date_parse base_str
               (c_str (qt_to_strptime (without_marker format zzz_pos))) ns).
Proof.
  intros HT HE HZ.
  pose proof (FormatParseTimestamp_marker date_parse str trimmed format zzz_pos HT HE HZ)
    as H.
  split; [| split].
  - intros Hp. rewrite H. unfold find_dot_near.
    replace (0 <? zzz_pos)%nat with true by (symmetry; apply Nat.ltb_lt; lia).
    replace (zzz_pos <? 5)%nat with true by (symmetry; apply Nat.ltb_lt; lia).
    reflexivity.
  - intros Hp Hdot. rewrite H. unfold find_dot_near.
    replace ((0 <? zzz_pos)%nat && (zzz_pos <? 5)%nat) with false.
    + now rewrite Hdot.
    + symmetry. apply andb_false_iff.
      destruct Hp; [left; apply Nat.ltb_ge | right; apply Nat.ltb_ge]; lia.
  - intros Hp Hdot.
    destruct (Extract_returns trimmed) as (base & ns & HX & _).
    exists base, ns. split; [exact HX |].
    rewrite H. unfold find_dot_near.
    replace ((0 <? zzz_pos)%nat && (zzz_pos <? 5)%nat) with false.
    + destruct (find_char "." trimmed (zzz_pos - 5)); [| congruence].
      now rewrite HX.
    + symmetry. apply andb_false_iff.
      destruct Hp; [left; apply Nat.ltb_ge | right; apply Nat.ltb_ge]; lia.
Qed.

Lemma FormatParseTimestamp_marker_position_witness :
  FormatParseTimestamp DateLib.parse "45.123" "ss.zzz"
  = TryParseFormat DateLib.parse "45.123" "%S.zzz" 0.
Proof.
  apply (proj1 (FormatParseTimestamp_marker_position DateLib.parse
                  "45.123" "45.123" "ss.zzz" 2 eq_refl eq_refl eq_refl)).
  lia.
Defined.

(** ** Hexadecimal values *)

Lemma digit_in_base_range (base : Z) (c : ascii) (v : Z) :
  digit_in_base base c = Some v -> 0 <= v < base.
Proof.
  unfold digit_in_base.
  destruct ((48 <=? code c) && (code c <=? 57)) eqn:E1.
  { apply andb_true_iff in E1. destruct E1 as [E1 _]. apply Z.leb_le in E1.
    destruct (code c - 48 <? base) eqn:L; [| discriminate].
    intros [= <-]. apply Z.ltb_lt in L. lia. }
  destruct ((97 <=? code c) && (code c <=? 122)) eqn:E2.
  { apply andb_true_iff in E2. destruct E2 as [E2 _]. apply Z.leb_le in E2.
    destruct (code c - 87 <? base) eqn:L; [| discriminate].
    intros [= <-]. apply Z.ltb_lt in L. lia. }
  destruct ((65 <=? code c) && (code c <=? 90)) eqn:E3.
  { apply andb_true_iff in E3. destruct E3 as [E3 _]. apply Z.leb_le in E3.
    destruct (code c - 55 <? base) eqn:L; [| discriminate].
    intros [= <-]. apply Z.ltb_lt in L. lia. }
  destruct (36 <? base) eqn:L; [| discriminate].
  intros [= <-]. apply Z.ltb_lt in L. lia.
Qed.

Lemma digits_value_span_bounds (base : Z) (s : string) (acc : Z) :
  0 < base -> 0 <= acc ->
  acc <= digits_value base acc s
  /\ digits_value base acc s < (acc + 1) * base ^ Z.of_nat (span (is_digit_in_base base) s).
Proof.
  intros Hb. revert acc. induction s as [|c s IH]; intros acc Hacc.
  - simpl. lia.
  - cbn [digits_value span]. unfold is_digit_in_base at 1.
    destruct (digit_in_base base c) as [v|] eqn:E.
    + apply digit_in_base_range in E.
      specialize (IH (acc * base + v) ltac:(nia)).
      rewrite Nat2Z.inj_succ, Z.pow_succ_r by lia.
      assert (0 < base ^ Z.of_nat (span (is_digit_in_base base) s))
        by (apply Z.pow_pos_nonneg; lia).
      nia.
    + simpl. lia.
Qed.

Lemma at_0 (c : ascii) (s : string) : at_ (String c s) 0 = c.
Proof. reflexivity. Qed.

Lemma stoll_hex_prefixed (trimmed : string) :
  has_hex_prefix trimmed = true ->
  stoll_base trimmed 16
  = if INT64_MAX <? digits_value 16 0 (drop 2 trimmed) then Throw out_of_range
    else Ret (digits_value 16 0 (drop 2 trimmed)).
Proof.
  unfold has_hex_prefix. intros H.
  apply andb_true_iff in H. destruct H as [Hsz H].
  apply andb_true_iff in H. destruct H as [H0 Hx].
  apply Nat.ltb_lt in Hsz.
  destruct trimmed as [|z [|x [|h r]]]; simpl in Hsz; try lia.
  unfold at_ in H0, Hx. simpl in H0, Hx.
  apply Ascii.eqb_eq in H0. subst z.
  cbn [drop].
  pose proof (digits_value_span_bounds 16 (String h r) 0 ltac:(lia) ltac:(lia)) as [Hlo _].
  assert (Hx' : is_digit_in_base 16 x = false).
  { apply orb_true_iff in Hx. destruct Hx as [Hx | Hx];
      apply Ascii.eqb_eq in Hx; subst x; reflexivity. }
  assert (Hneg : forall v, 0 <= v -> (v <? INT64_MIN) = false).
  { intros v Hv. apply Z.ltb_ge. unfold INT64_MIN. lia. }
  unfold stoll_base.
  change (span isspace (String "0" (String x (String h r)))) with 0%nat.
  cbn [drop].
  change (strip_sign (String "0" (String x (String h r))))
    with (false, String "0" (String x (String h r))).
  cbn [fst snd].
  unfold skip_hex_prefix.
  change (16 =? 16) with true. change (Ascii.eqb "0" "0") with true.
  rewrite Hx. cbn [andb].
  destruct (is_digit_in_base 16 h) eqn:Hh.
  - cbn [span]. rewrite Hh. cbn [Nat.eqb].
    rewrite (Hneg _ Hlo). reflexivity.
  - cbn [span]. change (is_digit_in_base 16 "0") with true. cbn [Nat.eqb].
    assert (E : digits_value 16 0 (String "0" (String x (String h r))) = 0).
    { cbn [digits_value]. change (digit_in_base 16 "0") with (Some 0).
      unfold is_digit_in_base in Hx'.
      destruct (digit_in_base 16 x); [discriminate | reflexivity]. }
    rewrite E.
    assert (E' : digits_value 16 0 (String h r) = 0).
    { cbn [digits_value]. unfold is_digit_in_base in Hh.
      destruct (digit_in_base 16 h); [discriminate | reflexivity]. }
    rewrite E'. reflexivity.
Qed.

(** X11. A trimmed value longer than two characters that begins with [0x]
    or [0X] is classified as hexadecimal whatever follows the prefix, and
    parsing it as such reads the hexadecimal digits that follow the prefix,
    up to the first character that is not one: no digit at all gives 0
    (not a failure), a value above the 64-bit range gives nothing, at most
    15 digits always give a value, and at most 13 digits are converted
    without rounding. *)
Theorem hex_prefixed_values
  (QLocale_c_toDouble : string -> option double)
  (date_parse : string -> string -> option (Z * string))
  (str trimmed : string) :
  Trim str = Ret trimmed -> has_hex_prefix trimmed = true ->
  let digits := drop 2 trimmed in
  let v := digits_value 16 0 digits in
  DetectColumnType date_parse str = rret (info_of HEX)
  /\ ParseWithType QLocale_c_toDouble date_parse str (info_of HEX)
     = rret (if INT64_MAX <? v then None else Some (Z2D v))
  /\ (is_digit_in_base 16 (at_ digits 0) = false -> v = 0)
  /\ ((span (is_digit_in_base 16) digits <= 15)%nat -> (INT64_MAX <? v) = false)
  /\ ((span (is_digit_in_base 16) digits <= 13)%nat -> D2Z (Z2D v) = Some v).
Proof.
  intros HT HX digits v.
  assert (HE : empty trimmed = false).
  { destruct trimmed; [discriminate | reflexivity]. }
  pose proof (digits_value_span_bounds 16 digits 0 ltac:(lia) ltac:(lia)) as [Hlo Hhi].
  fold v in Hlo, Hhi. rewrite Z.mul_1_l in Hhi.
  split; [| split; [| split; [| split]]].
  - unfold DetectColumnType. rewrite HT, rbind_lift_ret, HE, HX. reflexivity.
  - unfold ParseWithType. rewrite HT, rbind_lift_ret, HE.
    cbn [type info_of].
    rewrite (stoll_hex_prefixed trimmed HX). fold digits. fold v.
    destruct (INT64_MAX <? v); reflexivity.
  - intros Hd. subst v. destruct digits as [|h r]; [reflexivity |].
    rewrite at_0 in Hd. cbn [digits_value].
    unfold is_digit_in_base in Hd.
    destruct (digit_in_base 16 h); [discriminate | reflexivity].
  - intros Hsp. apply Z.ltb_ge.
    assert (16 ^ Z.of_nat (span (is_digit_in_base 16) digits) <= 16 ^ 15)
      by (apply Z.pow_le_mono_r; lia).
    unfold INT64_MAX. change (16 ^ 15) with 1152921504606846976 in *. lia.
  - intros Hsp. apply D2Z_Z2D_exact.
    assert (16 ^ Z.of_nat (span (is_digit_in_base 16) digits) <= 16 ^ 13)
      by (apply Z.pow_le_mono_r; lia).
    change (16 ^ 13) with 4503599627370496 in *.
    change (2 ^ 53) with 9007199254740992. lia.
Qed.

Lemma hex_prefixed_values_witness :
  DetectColumnType DateLib.parse " 0xZZ " = rret (info_of HEX)
  /\ ParseWithType QtLib.toDouble DateLib.parse " 0xZZ " (info_of HEX)
     = rret (Some (Z2D 0)).
Proof.
  pose proof (hex_prefixed_values QtLib.toDouble DateLib.parse " 0xZZ " "0xZZ"
                eq_refl eq_refl) as (H1 & H2 & _).
  split; [exact H1 | exact H2].
Defined.

(** ** The guard of the ambiguous patterns *)

Lemma guard_leading_two (c : ascii) (base_str : string) :
  Ascii.eqb (at_ base_str 0) "2" = true -> ambiguous_guard c base_str = false.
Proof.
  intros H. unfold ambiguous_guard. rewrite H.
  now rewrite andb_false_r.
Qed.

(** X12. A base string that begins with ['2'] never reaches the day/month
    patterns: when the calendar parser rejects it under every pattern of the
    table, [AutoParseTimestamp] answers [nullopt] and [DetectColumnType]
    answers [STRING] after exactly the table's calls, whatever separators
    the string holds (so a day-first date on the 20th to the 29th is not
    parsed). *)
Theorem leading_two_skips_day_month_patterns
  (QLocale_c_toDouble : string -> option double)
  (date_parse : string -> string -> option (Z * string))
  (str trimmed base_str : string) (ns : nanoseconds) (num_info : NumericInfo) :
  Trim str = Ret trimmed -> empty trimmed = false ->
  has_hex_prefix trimmed = false ->
  CheckNumeric trimmed = Ret num_info -> is_number num_info = false ->
  ExtractFractionalSeconds trimmed = Ret (base_str, ns) ->
  Ascii.eqb (at_ base_str 0) "2" = true ->
  fails_on date_parse UNAMBIGUOUS_FORMATS base_str ->
  AutoParseTimestamp QLocale_c_toDouble date_parse str
  = (Ret None, calls_of UNAMBIGUOUS_FORMATS base_str)
  /\ DetectColumnType date_parse str
     = (Ret (string_info ((0 <? ns) || negb (String.eqb trimmed base_str))),
        calls_of UNAMBIGUOUS_FORMATS base_str).
Proof.
  intros HT HE HX HC HN HS H2 Hfail.
  rewrite (AutoParseTimestamp_datetime QLocale_c_toDouble date_parse
             str trimmed num_info) by assumption.
  rewrite (DetectColumnType_datetime date_parse str trimmed num_info) by assumption.
  unfold auto_datetime, detect_datetime.
  rewrite HS, !rbind_lift_ret. cbn [fst snd].
  rewrite (try_formats_all_fail date_parse _ _ _ Hfail).
  rewrite (detect_formats_all_fail date_parse _ _ Hfail).
  unfold auto_ambiguous, detect_ambiguous.
  rewrite !(guard_leading_two _ base_str H2).
  unfold rbind, rret. simpl. rewrite ?app_nil_r. split; reflexivity.
Qed.

Lemma leading_two_skips_day_month_patterns_witness :
  AutoParseTimestamp QtLib.toDouble DateLib.parse "25/12/2024 10:00:00"
  = (Ret None, calls_of UNAMBIGUOUS_FORMATS "25/12/2024 10:00:00")
  /\ DetectColumnType DateLib.parse "25/12/2024 10:00:00"
     = (Ret (string_info
               ((0 <? 0) || negb (String.eqb "25/12/2024 10:00:00" "25/12/2024 10:00:00"))),
        calls_of UNAMBIGUOUS_FORMATS "25/12/2024 10:00:00").
Proof.
  apply (leading_two_skips_day_month_patterns QtLib.toDouble DateLib.parse
           "25/12/2024 10:00:00" "25/12/2024 10:00:00" "25/12/2024 10:00:00" 0
           {| is_number := false; has_decimal := false; has_exponent := false |});
    try reflexivity.
  intros fmt Hin. simpl in Hin.
  repeat (destruct Hin as [<- | Hin]; [reflexivity |]). destruct Hin.
Defined.

(** X13. For a base string that holds a ['/'], does not begin with ['2']
    and is rejected under every pattern of the table, the one pattern tried
    next is the day-first [%d/%m/%Y %H:%M:%S] when [IsDayFirstFormat]
    answers [true] and the month-first [%m/%d/%Y %H:%M:%S] otherwise; the
    other of the two is never tried.  When the calendar parser accepts it,
    [AutoParseTimestamp] returns its value and [DetectColumnType] records
    that pattern; when it rejects it and the string holds no ['-'], they
    answer [nullopt] and [STRING]. *)
Theorem slash_ambiguous_variant
  (QLocale_c_toDouble : string -> option double)
  (date_parse : string -> string -> option (Z * string))
  (str trimmed base_str : string) (ns : nanoseconds) (num_info : NumericInfo) :
  Trim str = Ret trimmed -> empty trimmed = false ->
  has_hex_prefix trimmed = false ->
  CheckNumeric trimmed = Ret num_info -> is_number num_info = false ->
  ExtractFractionalSeconds trimmed = Ret (base_str, ns) ->
  contains "/" base_str = true ->
  Ascii.eqb (at_ base_str 0) "2" = false ->
  fails_on date_parse UNAMBIGUOUS_FORMATS base_str ->
  let fmt := slash_pattern base_str in
  let has_frac := (0 <? ns) || negb (String.eqb trimmed base_str) in
  let calls := calls_of (UNAMBIGUOUS_FORMATS ++ [fmt]) base_str in
  (forall tp rest, date_parse fmt base_str = Some (tp, rest) ->
     AutoParseTimestamp QLocale_c_toDouble date_parse str
     = (Ret (Some (duration_double (wrap64 (wrap64 (tp * 1000000000) + ns)))), calls)
     /\ DetectColumnType date_parse str = (Ret (datetime_info fmt has_frac), calls))
  /\ (date_parse fmt base_str = None -> contains "-" base_str = false ->
      AutoParseTimestamp QLocale_c_toDouble date_parse str = (Ret None, calls)
      /\ DetectColumnType date_parse str = (Ret (string_info has_frac), calls)).
Proof.
  intros HT HE HX HC HN HS Hs H2 Hfail fmt has_frac calls.
  rewrite (AutoParseTimestamp_datetime QLocale_c_toDouble date_parse
             str trimmed num_info) by assumption.
  rewrite (DetectColumnType_datetime date_parse str trimmed num_info) by assumption.
  unfold auto_datetime, detect_datetime.
  rewrite HS, !rbind_lift_ret. cbn [fst snd].
  rewrite (try_formats_all_fail date_parse _ _ _ Hfail).
  rewrite (detect_formats_all_fail date_parse _ _ Hfail).
  assert (G : ambiguous_guard "/" base_str = true).
  { unfold ambiguous_guard. rewrite Hs, H2.
    destruct base_str; [discriminate Hs | reflexivity]. }
  unfold auto_ambiguous, detect_ambiguous. rewrite G.
  fold (slash_pattern base_str). fold fmt. fold has_frac.
  subst calls. unfold calls_of. rewrite map_app. cbn [map].
  split.
  - intros tp rest Hok.
    unfold TryParseFormat, try_format. rewrite Hok.
    unfold rbind, rret. simpl. rewrite ?app_nil_r. split; reflexivity.
  - intros Hno Hd.
    assert (G' : ambiguous_guard "-" base_str = false).
    { unfold ambiguous_guard. now rewrite Hd. }
    unfold TryParseFormat, try_format. rewrite Hno, G'.
    unfold rbind, rret. simpl. rewrite ?app_nil_r. split; reflexivity.
Qed.

Lemma slash_ambiguous_variant_witness :
  slash_pattern "05/13/2024 10:00:00" = "%m/%d/%Y %H:%M:%S"
  /\ AutoParseTimestamp QtLib.toDouble DateLib.parse "05/13/2024 10:00:00.5"
     = (Ret (Some (duration_double
                     (wrap64 (wrap64 (1715594400 * 1000000000) + 500000000)))),
        calls_of (UNAMBIGUOUS_FORMATS ++ [ "%m/%d/%Y %H:%M:%S" ]) "05/13/2024 10:00:00")
  /\ DetectColumnType DateLib.parse "05/13/2024 10:00:00.5"
     = (Ret (datetime_info "%m/%d/%Y %H:%M:%S" true),
        calls_of (UNAMBIGUOUS_FORMATS ++ [ "%m/%d/%Y %H:%M:%S" ]) "05/13/2024 10:00:00").
Proof.
  split; [reflexivity |].
  apply (proj1 (slash_ambiguous_variant QtLib.toDouble DateLib.parse
           "05/13/2024 10:00:00.5" "05/13/2024 10:00:00.5" "05/13/2024 10:00:00"
           500000000
           {| is_number := false; has_decimal := false; has_exponent := false |}
           eq_refl eq_refl eq_refl eq_refl eq_refl eq_refl eq_refl eq_refl
           ltac:(intros fmt Hin; simpl in Hin;
                 repeat (destruct Hin as [<- | Hin]; [reflexivity |]); destruct Hin))
         1715594400 "").
  reflexivity.
Defined.

(** ** NumericClassifier: the grammar of the accepted strings *)

Lemma drop_step (i : nat) (str : string) (c : ascii) (rest : string) :
  drop i str = String c rest -> at_ str i = c /\ drop (S i) str = rest.
Proof.
  revert str. induction i as [|i IH]; intros str H.
  - simpl in H. subst str. split; reflexivity.
  - destruct str as [|d str]; simpl in H; [discriminate |].
    apply IH in H. exact H.
Qed.

Lemma loop_scan (str rest : string) (i : nat) (info : NumericInfo) (hd : bool) :
  drop i str = rest ->
  CheckNumeric_loop str rest i info hd
  = numeric_scan ((i =? 0)%nat || is_e (at_ str (i - 1))) rest info hd.
Proof.
  revert i info hd. induction rest as [|c rest IH]; intros i info hd H; [reflexivity |].
  destruct (drop_step i str c rest H) as [Hc Hd].
  assert (Hflag : forall info' hd',
             CheckNumeric_loop str rest (S i) info' hd'
             = numeric_scan (is_e c) rest info' hd').
  { intros info' hd'. rewrite (IH (S i) info' hd' Hd).
    cbn [Nat.eqb orb]. rewrite Nat.sub_succ, Nat.sub_0_r, Hc. reflexivity. }
  cbn [CheckNumeric_loop numeric_scan]. rewrite !Hflag.
  destruct (is_e c); reflexivity.
Qed.

Lemma mantissa_char_class (c : ascii) :
  isdigit c || is_point c = true -> is_e c = false /\ is_sign c = false.
Proof.
  intros H. apply orb_true_iff in H. destruct H as [H | H].
  - unfold is_e, is_sign.
    rewrite (isdigit_not_char c "e" H eq_refl), (isdigit_not_char c "E" H eq_refl),
      (isdigit_not_char c "-" H eq_refl), (isdigit_not_char c "+" H eq_refl).
    split; reflexivity.
  - unfold is_point in H. apply orb_true_iff in H.
    destruct H as [H | H]; apply Ascii.eqb_eq in H; subst c; split; reflexivity.
Qed.

Lemma sign_char_class (c : ascii) :
  is_sign c = true -> is_e c = false /\ is_point c = false /\ isdigit c = false.
Proof.
  unfold is_sign. intros H. apply orb_true_iff in H.
  destruct H as [H | H]; apply Ascii.eqb_eq in H; subst c; repeat split; reflexivity.
Qed.

Lemma e_char_class (c : ascii) :
  is_e c = true -> is_sign c = false /\ is_point c = false /\ isdigit c = false.
Proof.
  unfold is_e. intros H. apply orb_true_iff in H.
  destruct H as [H | H]; apply Ascii.eqb_eq in H; subst c; repeat split; reflexivity.
Qed.

Lemma digit_char_class (c : ascii) :
  isdigit c = true -> is_e c = false /\ is_sign c = false /\ is_point c = false.
Proof.
  intros H. unfold is_e, is_sign, is_point.
  rewrite (isdigit_not_char c "e" H eq_refl), (isdigit_not_char c "E" H eq_refl),
    (isdigit_not_char c "-" H eq_refl), (isdigit_not_char c "+" H eq_refl),
    (isdigit_not_char c "." H eq_refl), (isdigit_not_char c "," H eq_refl).
  repeat split; reflexivity.
Qed.

(** *** From the scan to the grammar *)

Ltac refused H := exfalso; simpl in H; discriminate H.

Lemma scan_exponent_digits (d : string) (dec hd : bool) :
  is_number (fst (numeric_scan false d (scanning dec true) hd)) = true ->
  all_chars isdigit d = true
  /\ numeric_scan false d (scanning dec true) hd
     = (scanning dec true, hd || negb (empty d)).
Proof.
  revert hd. induction d as [|c d IH]; intros hd H.
  - simpl. now rewrite orb_false_r.
  - cbn [numeric_scan] in *. cbn [scanning has_exponent has_decimal] in *.
    destruct (is_e c); [refused H |].
    destruct (is_sign c); [refused H |].
    destruct (is_point c); [rewrite orb_true_r in H; refused H |].
    destruct (isdigit c) eqn:Ed; [| refused H].
    destruct (IH true H) as [Hall Heq].
    cbn [all_chars]. rewrite Ed, Hall, Heq. cbn [orb empty negb].
    rewrite orb_true_r. split; reflexivity.
Qed.

Lemma scan_exponent (x : string) (dec hd : bool) :
  is_number (fst (numeric_scan true x (scanning dec true) hd)) = true ->
  exists sgn d,
    x = sgn ++ d /\ sign_opt sgn = true /\ all_chars isdigit d = true
    /\ numeric_scan true x (scanning dec true) hd
       = (scanning dec true, hd || negb (empty d)).
Proof.
  destruct x as [|c x]; intros H.
  - exists "", "". simpl. rewrite orb_false_r. repeat split; reflexivity.
  - cbn [numeric_scan] in *. cbn [scanning has_exponent has_decimal] in *.
    destruct (is_e c); [refused H |].
    destruct (is_sign c) eqn:Es.
    + destruct (scan_exponent_digits x dec hd H) as [Hall Heq].
      exists (String c ""), x. simpl. rewrite Es. repeat split; assumption.
    + destruct (is_point c); [rewrite orb_true_r in H; refused H |].
      destruct (isdigit c) eqn:Ed; [| refused H].
      destruct (scan_exponent_digits x dec true H) as [Hall Heq].
      exists "", (String c x). cbn [all_chars append sign_opt empty negb].
      rewrite Ed, Hall, Heq, orb_true_r. repeat split; reflexivity.
Qed.

Lemma scan_mantissa (rest : string) (dec hd : bool) :
  is_number (fst (numeric_scan false rest (scanning dec false) hd)) = true ->
  exists m x,
    rest = m ++ x
    /\ all_chars (fun c => isdigit c || is_point c) m = true
    /\ (count_char is_point m + (if dec then 1 else 0) <= 1)%nat
    /\ ((x = ""
         /\ numeric_scan false rest (scanning dec false) hd
            = (scanning (dec || any_char is_point m) false, hd || any_char isdigit m))
        \/ (exists e sgn d,
              x = String e (sgn ++ d) /\ is_e e = true /\ sign_opt sgn = true
              /\ all_chars isdigit d = true
              /\ numeric_scan false rest (scanning dec false) hd
                 = (scanning (dec || any_char is_point m) true,
                    (hd || any_char isdigit m) || negb (empty d)))).
Proof.
  revert dec hd. induction rest as [|c rest IH]; intros dec hd H.
  - exists "", "". cbn [append all_chars count_char any_char numeric_scan].
    rewrite !orb_false_r.
    split; [reflexivity |]. split; [reflexivity |].
    split; [destruct dec; simpl; lia |]. left. split; reflexivity.
  - cbn [numeric_scan] in *. cbn [scanning has_exponent has_decimal is_number] in *.
    destruct (is_e c) eqn:Ee.
    { fold (scanning dec true) in *.
      destruct (scan_exponent rest dec hd H) as (sgn & d & Hx & Hs & Hd & Heq).
      exists "", (String c rest). cbn [append all_chars count_char any_char].
      rewrite !orb_false_r.
      split; [reflexivity |]. split; [reflexivity |].
      split; [destruct dec; simpl; lia |].
      right. exists c, sgn, d.
      split; [now rewrite Hx |]. split; [exact Ee |]. split; [exact Hs |].
      split; [exact Hd | exact Heq]. }
    destruct (is_sign c); [refused H |].
    assert (Hstep : forall m x, rest = m ++ x -> String c rest = String c m ++ x).
    { intros m x ->. reflexivity. }
    destruct (is_point c) eqn:Ep.
    { rewrite orb_false_r in *.
      destruct dec; [refused H |].
      fold (scanning true false) in *.
      destruct (IH true hd H) as (m & x & Hr & Hall & Hcnt & Hcase).
      assert (Edig : isdigit c = false).
      { destruct (isdigit c) eqn:Ed; [| reflexivity].
        destruct (digit_char_class c Ed) as (_ & _ & K). congruence. }
      exists (String c m), x. cbn [all_chars count_char any_char].
      rewrite Ep, Edig, Hall. cbn [orb andb].
      split; [now apply Hstep |]. split; [reflexivity |]. split; [lia |].
      destruct Hcase as [[Hx Heq] | (e & sgn & d & Hx & He & Hs & Hd & Heq)].
      - left. split; [exact Hx | exact Heq].
      - right. exists e, sgn, d.
        split; [exact Hx |]. split; [exact He |]. split; [exact Hs |].
        split; [exact Hd | exact Heq]. }
    destruct (isdigit c) eqn:Ed; [| refused H].
    fold (scanning dec false) in *.
    destruct (IH dec true H) as (m & x & Hr & Hall & Hcnt & Hcase).
    exists (String c m), x. cbn [all_chars count_char any_char].
    rewrite Ep, Ed, Hall. cbn [orb andb Nat.add].
    rewrite !orb_true_r.
    split; [now apply Hstep |]. split; [reflexivity |]. split; [exact Hcnt |].
    destruct Hcase as [[Hx Heq] | (e & sgn & d & Hx & He & Hs & Hd & Heq)].
    + left. split; [exact Hx | exact Heq].
    + right. exists e, sgn, d.
      split; [exact Hx |]. split; [exact He |]. split; [exact Hs |].
      split; [exact Hd | exact Heq].
Qed.

Lemma scan_sign_irrelevant (c : ascii) (rest : string) (info : NumericInfo) (hd : bool) :
  is_sign c = false ->
  numeric_scan true (String c rest) info hd = numeric_scan false (String c rest) info hd.
Proof. intros H. cbn [numeric_scan]. rewrite H. reflexivity. Qed.

Lemma scan_start (str : string) :
  is_number (fst (numeric_scan true str (scanning false false) false)) = true ->
  exists sgn m x,
    str = sgn ++ m ++ x /\ sign_opt sgn = true
    /\ all_chars (fun c => isdigit c || is_point c) m = true
    /\ (count_char is_point m <= 1)%nat
    /\ ((x = ""
         /\ numeric_scan true str (scanning false false) false
            = (scanning (any_char is_point m) false, any_char isdigit m))
        \/ (exists e sgn' d,
              x = String e (sgn' ++ d) /\ is_e e = true /\ sign_opt sgn' = true
              /\ all_chars isdigit d = true
              /\ numeric_scan true str (scanning false false) false
                 = (scanning (any_char is_point m) true,
                    any_char isdigit m || negb (empty d)))).
Proof.
  intros H.
  assert (K : forall rest,
             is_number (fst (numeric_scan false rest (scanning false false) false)) = true ->
             exists m x,
               rest = m ++ x
               /\ all_chars (fun c => isdigit c || is_point c) m = true
               /\ (count_char is_point m <= 1)%nat
               /\ ((x = ""
                    /\ numeric_scan false rest (scanning false false) false
                       = (scanning (any_char is_point m) false, any_char isdigit m))
                   \/ (exists e sgn' d,
                         x = String e (sgn' ++ d) /\ is_e e = true /\ sign_opt sgn' = true
                         /\ all_chars isdigit d = true
                         /\ numeric_scan false rest (scanning false false) false
                            = (scanning (any_char is_point m) true,
                               any_char isdigit m || negb (empty d))))).
  { intros rest Hr.
    destruct (scan_mantissa rest false false Hr) as (m & x & E & Hall & Hcnt & Hcase).
    exists m, x. cbn [orb] in Hcase. rewrite Nat.add_0_r in Hcnt.
    split; [exact E |]. split; [exact Hall |]. split; [exact Hcnt | exact Hcase]. }
  destruct str as [|c rest].
  - exists "", "", "". simpl. repeat split; try lia. left. split; reflexivity.
  - destruct (is_sign c) eqn:Es.
    + destruct (sign_char_class c Es) as (Ee & _ & _).
      assert (E1 : numeric_scan true (String c rest) (scanning false false) false
                   = numeric_scan false rest (scanning false false) false).
      { cbn [numeric_scan]. rewrite Ee, Es. reflexivity. }
      rewrite E1 in *.
      destruct (K rest H) as (m & x & E & Hall & Hcnt & Hcase).
      exists (String c ""), m, x. cbn [sign_opt append].
      split; [now rewrite E |]. split; [exact Es |].
      split; [exact Hall |]. split; [exact Hcnt | exact Hcase].
    + rewrite (scan_sign_irrelevant c rest _ _ Es) in *.
      destruct (K (String c rest) H) as (m & x & E & Hall & Hcnt & Hcase).
      exists "", m, x. cbn [sign_opt append].
      split; [exact E |]. split; [reflexivity |].
      split; [exact Hall |]. split; [exact Hcnt | exact Hcase].
Qed.

Lemma back_append (s t : string) : t <> "" -> back (s ++ t) = back t.
Proof.
  intros Ht. induction s as [|c s IH]; [reflexivity |].
  cbn [append back]. rewrite IH.
  destruct (s ++ t) eqn:E; [| reflexivity].
  destruct s; simpl in E; [congruence | discriminate].
Qed.

Lemma any_char_append (p : ascii -> bool) (s t : string) :
  any_char p (s ++ t) = any_char p s || any_char p t.
Proof.
  induction s as [|c s IH]; [reflexivity |].
  cbn [append any_char]. rewrite IH. now rewrite orb_assoc.
Qed.

Lemma any_char_none (p q : ascii -> bool) (s : string) :
  (forall c, q c = true -> p c = false) ->
  all_chars q s = true -> any_char p s = false.
Proof.
  intros Hpq. induction s as [|c s IH]; [reflexivity |].
  cbn [all_chars any_char]. intros H. apply andb_true_iff in H. destruct H as [Hc Hs].
  rewrite (Hpq c Hc), (IH Hs). reflexivity.
Qed.

Lemma sign_opt_chars (s : string) : sign_opt s = true -> all_chars is_sign s = true.
Proof.
  destruct s as [|c [|d s]]; simpl; intros H; [reflexivity | | discriminate].
  now rewrite H.
Qed.

Lemma any_char_nonempty (p : ascii -> bool) (s : string) :
  any_char p s = true -> s <> "".
Proof. destruct s; [discriminate | discriminate]. Qed.

Lemma any_point_literal (sgn m : string) (x : string) :
  sign_opt sgn = true ->
  (x = "" \/ exists e sgn' d,
      x = String e (sgn' ++ d) /\ is_e e = true /\ sign_opt sgn' = true
      /\ all_chars isdigit d = true) ->
  any_char is_point (sgn ++ m ++ x) = any_char is_point m.
Proof.
  intros Hs Hx. rewrite !any_char_append.
  rewrite (any_char_none is_point is_sign sgn); [| | now apply sign_opt_chars].
  2:{ intros c Hc. now destruct (sign_char_class c Hc) as (_ & ? & _). }
  destruct Hx as [-> | (e & sgn' & d & -> & He & Hs' & Hd)].
  - simpl. now rewrite orb_false_r.
  - cbn [any_char]. rewrite any_char_append.
    destruct (e_char_class e He) as (_ & -> & _).
    rewrite (any_char_none is_point is_sign sgn'); [| | now apply sign_opt_chars].
    2:{ intros c Hc. now destruct (sign_char_class c Hc) as (_ & ? & _). }
    rewrite (any_char_none is_point isdigit d); [| | exact Hd].
    2:{ intros c Hc. now destruct (digit_char_class c Hc) as (_ & _ & ?). }
    simpl. now rewrite orb_false_r.
Qed.

Lemma any_e_prefix (sgn m : string) :
  sign_opt sgn = true ->
  all_chars (fun c => isdigit c || is_point c) m = true ->
  any_char is_e (sgn ++ m) = false.
Proof.
  intros Hs Hm. rewrite any_char_append.
  rewrite (any_char_none is_e is_sign sgn); [| | now apply sign_opt_chars].
  2:{ intros c Hc. now destruct (sign_char_class c Hc) as (? & _ & _). }
  rewrite (any_char_none is_e (fun c => isdigit c || is_point c) m); [reflexivity | | exact Hm].
  intros c Hc. now destruct (mantissa_char_class c Hc) as (? & _).
Qed.

Lemma append_assoc' (s t u : string) : (s ++ t) ++ u = s ++ t ++ u.
Proof. induction s as [|c s IH]; simpl; congruence. Qed.

(** An accepted string follows the grammar, and the two flags say whether
    it holds a decimal separator and an exponent mark. *)
Lemma CheckNumeric_accepts (str : string) (info : NumericInfo) :
  CheckNumeric str = Ret info -> is_number info = true ->
  numeric_literal str
  /\ has_decimal info = any_char is_point str
  /\ has_exponent info = any_char is_e str.
Proof.
  unfold CheckNumeric.
  rewrite (loop_scan str str 0 _ false eq_refl). cbn [Nat.eqb orb].
  fold (scanning false false).
  destruct (numeric_scan true str (scanning false false) false) as [info0 hd0] eqn:L.
  destruct (is_number info0) eqn:N; [| intros [= <-]; congruence].
  destruct (back str) as [last| |] eqn:B; cbn [obind]; try discriminate.
  destruct (negb hd0 || is_e last || is_sign last) eqn:G;
    [intros [= <-]; discriminate |].
  intros [= <-] _.
  apply orb_false_iff in G. destruct G as [G Gs].
  apply orb_false_iff in G. destruct G as [G Ge].
  apply negb_false_iff in G. subst hd0.
  assert (H : is_number (fst (numeric_scan true str (scanning false false) false)) = true)
    by now rewrite L.
  destruct (scan_start str H)
    as (sgn & m & x & E & Hs & Hall & Hcnt
        & [[Hx Heq] | (e & sgn' & d & Hx & He & Hs' & Hd & Heq)]);
    rewrite L in Heq; injection Heq as Hinfo Hhd.
  - subst x info0. cbn [has_decimal has_exponent scanning].
    split; [| split].
    + exists sgn, m, "". split; [exact E |]. split; [exact Hs |].
      split; [| left; split; [reflexivity | now symmetry]].
      unfold is_mantissa. rewrite Hall. apply Nat.leb_le in Hcnt. now rewrite Hcnt.
    + rewrite E. symmetry. apply any_point_literal; [exact Hs | now left].
    + rewrite E. cbn [append]. rewrite <- (append_assoc' sgn m ""), any_char_append.
      rewrite (any_e_prefix sgn m Hs Hall). reflexivity.
  - assert (Hne : d <> "").
    { intros ->. rewrite E, Hx in B.
      assert (B' : back (sgn ++ m ++ String e (sgn' ++ ""))
                   = back (String e (sgn' ++ ""))).
      { rewrite <- append_assoc'. apply back_append. discriminate. }
      rewrite B' in B.
      destruct sgn' as [|s [|s' r]]; simpl in B, Hs'; try discriminate.
      - injection B as <-. congruence.
      - injection B as <-. congruence. }
    subst info0. cbn [has_decimal has_exponent scanning].
    split; [| split].
    + exists sgn, m, x. split; [exact E |]. split; [exact Hs |].
      split; [| right; exists e, sgn', d;
                split; [exact Hx |]; split; [exact He |]; split; [exact Hs' |];
                split; [exact Hd | exact Hne]].
      unfold is_mantissa. rewrite Hall. apply Nat.leb_le in Hcnt. now rewrite Hcnt.
    + rewrite E. symmetry. apply any_point_literal; [exact Hs |].
      right. exists e, sgn', d. repeat split; assumption.
    + rewrite E, Hx. rewrite <- append_assoc', any_char_append.
      cbn [any_char]. rewrite He. cbn [orb]. now rewrite orb_true_r.
Qed.

(** *** From the grammar to the scan *)

Lemma scan_digits (d : string) (sign_ok dec ex hd : bool) :
  all_chars isdigit d = true ->
  numeric_scan sign_ok d (scanning dec ex) hd
  = (scanning dec ex, hd || negb (empty d)).
Proof.
  revert sign_ok hd. induction d as [|c d IH]; intros sign_ok hd H.
  - simpl. now rewrite orb_false_r.
  - cbn [all_chars] in H. apply andb_true_iff in H. destruct H as [Hc Hd].
    destruct (digit_char_class c Hc) as (Ee & Es & Ep).
    cbn [numeric_scan]. rewrite Ee, Es, Ep, Hc, (IH false true Hd).
    cbn [empty negb orb]. now rewrite orb_true_r.
Qed.

Lemma scan_over_mantissa (m x : string) (sign_ok dec hd : bool) :
  all_chars (fun c => isdigit c || is_point c) m = true ->
  (count_char is_point m + (if dec then 1 else 0) <= 1)%nat ->
  numeric_scan sign_ok (m ++ x) (scanning dec false) hd
  = numeric_scan (sign_ok && empty m) x
      (scanning (dec || any_char is_point m) false) (hd || any_char isdigit m).
Proof.
  revert sign_ok dec hd. induction m as [|c m IH]; intros sign_ok dec hd Hall Hcnt.
  - simpl. now rewrite andb_true_r, !orb_false_r.
  - cbn [all_chars] in Hall. apply andb_true_iff in Hall. destruct Hall as [Hc Hm].
    destruct (mantissa_char_class c Hc) as (Ee & Es).
    cbn [append numeric_scan count_char any_char empty] in *.
    rewrite Ee, Es, andb_false_r.
    cbn [scanning has_decimal has_exponent is_number].
    destruct (is_point c) eqn:Ep.
    + destruct dec; [simpl in Hcnt; lia |].
      cbn [orb]. fold (scanning true false).
      rewrite (IH false true hd Hm) by (simpl in Hcnt |- *; lia).
      assert (Ed : isdigit c = false).
      { destruct (isdigit c) eqn:Ed; [| reflexivity].
        destruct (digit_char_class c Ed) as (_ & _ & K). congruence. }
      rewrite Ed. reflexivity.
    + rewrite orb_false_r in Hc. rewrite Hc.
      fold (scanning dec false).
      rewrite (IH false dec true Hm) by (simpl in Hcnt |- *; lia).
      cbn [orb]. now rewrite orb_true_r.
Qed.

Lemma scan_over_sign (sgn y : string) :
  sign_opt sgn = true ->
  numeric_scan true (sgn ++ y) (scanning false false) false
  = numeric_scan (empty sgn) y (scanning false false) false.
Proof.
  destruct sgn as [|c [|d r]]; simpl; intros H; [reflexivity | | discriminate].
  destruct (sign_char_class c H) as (Ee & _ & _).
  now rewrite Ee, H.
Qed.

Lemma scan_over_exponent (e : ascii) (sgn' d : string) (sign_ok dec hd : bool) :
  is_e e = true -> sign_opt sgn' = true -> all_chars isdigit d = true ->
  numeric_scan sign_ok (String e (sgn' ++ d)) (scanning dec false) hd
  = (scanning dec true, hd || negb (empty d)).
Proof.
  intros He Hs Hd. cbn [numeric_scan]. rewrite He.
  cbn [scanning has_exponent has_decimal is_number]. fold (scanning dec true).
  destruct sgn' as [|c [|c' r]]; simpl in Hs; [| | discriminate].
  - cbn [append]. now apply scan_digits.
  - destruct (sign_char_class c Hs) as (Ee & _ & _).
    cbn [append numeric_scan]. rewrite Ee, Hs. now apply scan_digits.
Qed.

(** A string of the grammar is accepted. *)
Lemma CheckNumeric_literal (str : string) :
  numeric_literal str -> exists info, CheckNumeric str = Ret info /\ is_number info = true.
Proof.
  intros (sgn & m & x & E & Hs & Hm & Hx).
  unfold is_mantissa in Hm. apply andb_true_iff in Hm. destruct Hm as [Hall Hcnt].
  apply Nat.leb_le in Hcnt.
  unfold CheckNumeric.
  rewrite (loop_scan str str 0 _ false eq_refl). cbn [Nat.eqb orb].
  fold (scanning false false).
  assert (Hscan : numeric_scan true str (scanning false false) false
                  = numeric_scan (empty sgn && empty m) x
                      (scanning (any_char is_point m) false) (any_char isdigit m)).
  { rewrite E, (scan_over_sign sgn (m ++ x) Hs).
    now rewrite (scan_over_mantissa m x (empty sgn) false false Hall) by (simpl; lia). }
  rewrite Hscan. clear Hscan.
  destruct Hx as [[-> Hdig] | (e & sgn' & d & -> & He & Hs' & Hd & Hne)].
  - cbn [numeric_scan scanning is_number]. rewrite Hdig.
    assert (B : exists last, back str = Ret last
                             /\ (isdigit last || is_point last) = true).
    { rewrite E. cbn [append]. rewrite <- (append_assoc' sgn m "").
      replace ((sgn ++ m) ++ "") with (sgn ++ m)
        by (clear; induction (sgn ++ m) as [|c s IH]; simpl; congruence).
      rewrite back_append by now apply (any_char_nonempty isdigit).
      apply (back_all_chars (fun c => isdigit c || is_point c) m Hall).
      now apply (any_char_nonempty isdigit). }
    destruct B as (last & B & Hl). rewrite B. cbn [obind negb orb].
    destruct (mantissa_char_class last Hl) as (-> & ->).
    eexists. split; reflexivity.
  - rewrite (scan_over_exponent e sgn' d _ _ _ He Hs' Hd).
    cbn [scanning is_number].
    assert (Hemp : negb (empty d) = true) by (destruct d; [congruence | reflexivity]).
    rewrite Hemp, orb_true_r.
    assert (B : exists last, back str = Ret last /\ isdigit last = true).
    { rewrite E.
      replace (sgn ++ m ++ String e (sgn' ++ d))
        with ((sgn ++ m ++ String e sgn') ++ d).
      - rewrite back_append by exact Hne.
        now apply (back_all_chars isdigit d Hd).
      - rewrite !append_assoc'. reflexivity. }
    destruct B as (last & B & Hl). rewrite B. cbn [obind negb orb].
    destruct (digit_char_class last Hl) as (-> & -> & _).
    eexists. split; reflexivity.
Qed.

(** X14. The strings [CheckNumeric] takes for numbers are exactly those of
    the grammar [numeric_literal]: an optional sign, digits with at most one
    [.] or [,] among them, then either nothing (with one digit at least) or
    an [e] or [E], an optional sign and one digit or more (the digits
    before the exponent may be missing, as in [e5]).  For an accepted
    string, [has_decimal] says whether it holds a [.] or [,] and
    [has_exponent] whether it holds an [e] or [E]. *)
Theorem CheckNumeric_grammar (str : string) :
  ((exists info, CheckNumeric str = Ret info /\ is_number info = true)
   <-> numeric_literal str)
  /\ (forall info, CheckNumeric str = Ret info -> is_number info = true ->
        has_decimal info = any_char is_point str
        /\ has_exponent info = any_char is_e str).
Proof.
  split; [split |].
  - intros (info & H & N). exact (proj1 (CheckNumeric_accepts str info H N)).
  - apply CheckNumeric_literal.
  - intros info H N. exact (proj2 (CheckNumeric_accepts str info H N)).
Qed.

Lemma CheckNumeric_grammar_witness :
  (exists info, CheckNumeric "-1,5e+3" = Ret info /\ is_number info = true)
  /\ numeric_literal "e5".
Proof.
  split.
  - apply (proj1 (CheckNumeric_grammar "-1,5e+3")).
    exists "-", "1,5", "e+3". repeat split.
    right. exists "e"%char, "+", "3". repeat split. discriminate.
  - apply (proj1 (CheckNumeric_grammar "e5")).
    eexists. split; reflexivity.
Defined.

(** ** The decimal comma *)

Lemma comma_to_point_class (c : ascii) :
  is_blank (comma_to_point c) = is_blank c
  /\ is_e (comma_to_point c) = is_e c
  /\ is_sign (comma_to_point c) = is_sign c
  /\ is_point (comma_to_point c) = is_point c
  /\ isdigit (comma_to_point c) = isdigit c
  /\ Ascii.eqb (comma_to_point c) "0" = Ascii.eqb c "0"
  /\ Ascii.eqb (comma_to_point c) "x" = Ascii.eqb c "x"
  /\ Ascii.eqb (comma_to_point c) "X" = Ascii.eqb c "X".
Proof.
  unfold comma_to_point. destruct (Ascii.eqb c ",") eqn:E.
  - apply Ascii.eqb_eq in E. subst c. repeat split; reflexivity.
  - repeat split; reflexivity.
Qed.

Lemma replace_char_cons (c : ascii) (s : string) :
  replace_char "," "." (String c s) = String (comma_to_point c) (replace_char "," "." s).
Proof. reflexivity. Qed.

Lemma drop_replace (n : nat) (s : string) :
  drop n (replace_char "," "." s) = replace_char "," "." (drop n s).
Proof.
  revert s. induction n as [|n IH]; intros [|c s]; try reflexivity.
  rewrite replace_char_cons. cbn [drop]. apply IH.
Qed.

Lemma span_blank_replace (s : string) :
  span is_blank (replace_char "," "." s) = span is_blank s.
Proof.
  induction s as [|c s IH]; [reflexivity |].
  rewrite replace_char_cons. cbn [span].
  destruct (comma_to_point_class c) as (-> & _). now rewrite IH.
Qed.

Lemma lstrip_replace (s : string) :
  lstrip (replace_char "," "." s) = replace_char "," "." (lstrip s).
Proof. unfold lstrip. now rewrite span_blank_replace, drop_replace. Qed.

Lemma rstrip_replace (s : string) :
  rstrip (replace_char "," "." s) = replace_char "," "." (rstrip s).
Proof.
  induction s as [|c s IH]; [reflexivity |].
  rewrite replace_char_cons. cbn [rstrip]. rewrite IH.
  destruct (comma_to_point_class c) as (-> & _).
  destruct (rstrip s) as [|d r]; cbn [replace_char].
  - destruct (is_blank c); reflexivity.
  - reflexivity.
Qed.

Lemma Trim_replace (str : string) :
  Trim (replace_char "," "." str)
  = Ret (replace_char "," "." (rstrip (lstrip str))).
Proof. now rewrite Trim_strip, lstrip_replace, rstrip_replace. Qed.

Lemma scan_replace (rest : string) (sign_ok : bool) (info : NumericInfo) (hd : bool) :
  numeric_scan sign_ok (replace_char "," "." rest) info hd
  = numeric_scan sign_ok rest info hd.
Proof.
  revert sign_ok info hd. induction rest as [|c rest IH]; intros sign_ok info hd;
    [reflexivity |].
  rewrite replace_char_cons. cbn [numeric_scan].
  destruct (comma_to_point_class c) as (_ & -> & -> & -> & -> & _).
  now rewrite !IH.
Qed.

Lemma back_replace (s : string) :
  back (replace_char "," "." s)
  = match back s with
    | Ret c => Ret (comma_to_point c)
    | Throw e => Throw e
    | Undefined => Undefined
    end.
Proof.
  induction s as [|c s IH]; [reflexivity |].
  rewrite replace_char_cons. cbn [back].
  destruct s as [|d s]; [reflexivity |].
  rewrite replace_char_cons in *. exact IH.
Qed.

Lemma CheckNumeric_replace (s : string) :
  CheckNumeric (replace_char "," "." s) = CheckNumeric s.
Proof.
  unfold CheckNumeric.
  rewrite (loop_scan (replace_char "," "." s) (replace_char "," "." s) 0 _ false eq_refl).
  rewrite (loop_scan s s 0 _ false eq_refl). cbn [Nat.eqb orb].
  rewrite scan_replace.
  destruct (numeric_scan true s _ false) as [info hd].
  destruct (is_number info); [| reflexivity].
  rewrite back_replace. destruct (back s) as [last| |]; [| reflexivity | reflexivity].
  cbn [obind]. destruct (comma_to_point_class last) as (_ & -> & -> & _).
  reflexivity.
Qed.

Lemma replace_no_point (s : string) :
  any_char is_point s = false -> replace_char "," "." s = s.
Proof.
  induction s as [|c s IH]; [reflexivity |].
  cbn [any_char]. intros H. apply orb_false_iff in H. destruct H as [Hc Hs].
  rewrite replace_char_cons, (IH Hs). unfold comma_to_point.
  unfold is_point in Hc. apply orb_false_iff in Hc. destruct Hc as [_ ->]. reflexivity.
Qed.

Lemma replace_idempotent (s : string) :
  replace_char "," "." (replace_char "," "." s) = replace_char "," "." s.
Proof.
  induction s as [|c s IH]; [reflexivity |].
  rewrite !replace_char_cons, IH. f_equal.
  unfold comma_to_point. destruct (Ascii.eqb c ",") eqn:E; [reflexivity |].
  now rewrite E.
Qed.

Lemma empty_replace (s : string) : empty (replace_char "," "." s) = empty s.
Proof. destruct s; reflexivity. Qed.

Lemma has_hex_prefix_replace (s : string) :
  has_hex_prefix (replace_char "," "." s) = has_hex_prefix s.
Proof.
  unfold has_hex_prefix.
  destruct s as [|a [|b s]]; try reflexivity.
  rewrite !replace_char_cons. unfold at_, size. cbn [String.get String.length].
  destruct (comma_to_point_class a) as (_ & _ & _ & _ & _ & -> & _).
  destruct (comma_to_point_class b) as (_ & _ & _ & _ & _ & _ & -> & ->).
  f_equal.
  assert (L : forall t, String.length (replace_char "," "." t) = String.length t).
  { induction t as [|c t IH]; [reflexivity |]. rewrite replace_char_cons.
    cbn [String.length]. now rewrite IH. }
  now rewrite L.
Qed.

(** X15. In a numeric value the comma is a decimal point: writing [.] for
    every [,] of a value that [CheckNumeric] accepts changes neither what
    [AutoParseTimestamp] returns nor the type [DetectColumnType] gives it,
    and parsing as a [NUMBER] does not tell the two spellings apart for any
    value. *)
Theorem comma_is_a_decimal_point
  (QLocale_c_toDouble : string -> option double)
  (date_parse : string -> string -> option (Z * string))
  (str trimmed : string) (num_info : NumericInfo) :
  Trim str = Ret trimmed ->
  CheckNumeric trimmed = Ret num_info -> is_number num_info = true ->
  AutoParseTimestamp QLocale_c_toDouble date_parse (replace_char "," "." str)
  = AutoParseTimestamp QLocale_c_toDouble date_parse str
  /\ DetectColumnType date_parse (replace_char "," "." str)
     = DetectColumnType date_parse str
  /\ ParseWithType QLocale_c_toDouble date_parse (replace_char "," "." str)
       (info_of NUMBER)
     = ParseWithType QLocale_c_toDouble date_parse str (info_of NUMBER).
Proof.
  intros HT HC HN.
  pose proof (Trim_replace str) as HR.
  rewrite Trim_strip in HT. injection HT as HT. rewrite HT in HR.
  pose proof (Trim_strip str) as HT'. rewrite HT in HT'.
  destruct (CheckNumeric_accepts trimmed num_info HC HN) as (_ & Hdec & _).
  split; [| split].
  - unfold AutoParseTimestamp. rewrite HR, HT', !rbind_lift_ret, empty_replace.
    destruct (empty trimmed); [reflexivity |].
    rewrite CheckNumeric_replace, HC, !rbind_lift_ret.
    destruct (has_decimal num_info) eqn:HD.
    + unfold auto_numeric. rewrite HN, HD. cbn [negb andb].
      unfold toDouble. now rewrite replace_idempotent.
    + now rewrite (replace_no_point trimmed) by now rewrite <- Hdec.
  - unfold DetectColumnType. rewrite HR, HT', !rbind_lift_ret, empty_replace.
    destruct (empty trimmed); [reflexivity |].
    rewrite has_hex_prefix_replace.
    destruct (has_hex_prefix trimmed); [reflexivity |].
    rewrite CheckNumeric_replace, HC, !rbind_lift_ret, HN.
    destruct (has_decimal num_info) eqn:HD.
    + unfold detect_numeric. now rewrite HD.
    + now rewrite (replace_no_point trimmed) by now rewrite <- Hdec.
  - unfold ParseWithType. rewrite HR, HT', !rbind_lift_ret, empty_replace.
    destruct (empty trimmed); [reflexivity |].
    cbn [type info_of]. unfold toDouble. now rewrite replace_idempotent.
Qed.

Lemma comma_is_a_decimal_point_witness :
  AutoParseTimestamp QtLib.toDouble DateLib.parse (replace_char "," "." " -1,5e3 ")
  = AutoParseTimestamp QtLib.toDouble DateLib.parse " -1,5e3 "
  /\ DetectColumnType DateLib.parse (replace_char "," "." " -1,5e3 ")
     = DetectColumnType DateLib.parse " -1,5e3 "
  /\ ParseWithType QtLib.toDouble DateLib.parse (replace_char "," "." " -1,5e3 ")
       (info_of NUMBER)
     = ParseWithType QtLib.toDouble DateLib.parse " -1,5e3 " (info_of NUMBER).
Proof.
  apply (comma_is_a_decimal_point QtLib.toDouble DateLib.parse " -1,5e3 " "-1,5e3"
           {| is_number := true; has_decimal := true; has_exponent := true |});
    reflexivity.
Defined.

(** ** Integers beyond [int64_t] *)

Lemma rfind_char_absent (p : ascii -> bool) (ch : ascii) (s : string) :
  (forall c, p c = true -> Ascii.eqb c ch = false) ->
  all_chars p s = true -> rfind_char ch s = None.
Proof.
  intros Hp. induction s as [|c s IH]; [reflexivity |].
  cbn [all_chars rfind_char]. intros H. apply andb_true_iff in H. destruct H as [Hc Hs].
  now rewrite (IH Hs), (Hp c Hc).
Qed.

Lemma literal_chars (s : string) :
  integer_literal s = true -> all_chars (fun c => is_sign c || isdigit c) s = true.
Proof.
  unfold integer_literal. intros H. apply andb_true_iff in H. destruct H as [Hall _].
  assert (W : forall t, all_chars isdigit t = true ->
                        all_chars (fun c => is_sign c || isdigit c) t = true).
  { induction t as [|c t IH]; [reflexivity |]. cbn [all_chars]. intros H.
    apply andb_true_iff in H. destruct H as [Hc Ht].
    now rewrite Hc, (IH Ht), orb_true_r. }
  destruct s as [|c t]; [reflexivity |].
  destruct (is_sign c) eqn:Es.
  - rewrite (is_sign_strip c t Es) in Hall. cbn [all_chars]. rewrite Es.
    now apply W.
  - rewrite (not_sign_strip c t Es) in Hall. now apply W.
Qed.

Lemma literal_is_its_base (s : string) :
  integer_literal s = true -> ExtractFractionalSeconds s = Ret (s, 0).
Proof.
  intros H. unfold ExtractFractionalSeconds.
  rewrite (rfind_char_absent (fun c => is_sign c || isdigit c) ":" s).
  - destruct (rfind_char "." s); reflexivity.
  - intros c Hc. apply orb_true_iff in Hc. destruct Hc as [Hc | Hc].
    + unfold is_sign in Hc. apply orb_true_iff in Hc.
      destruct Hc as [Hc | Hc]; apply Ascii.eqb_eq in Hc; subst c; reflexivity.
    + now apply isdigit_not_char.
  - now apply literal_chars.
Qed.

Lemma auto_ambiguous_all_fail
  (date_parse : string -> string -> option (Z * string))
  (base_str : string) (ns : nanoseconds) :
  fails_on date_parse day_month_patterns base_str ->
  fst (auto_ambiguous date_parse base_str ns) = Ret None.
Proof.
  intros Hf.
  assert (F : forall fmt, In fmt day_month_patterns ->
                TryParseFormat date_parse base_str fmt ns
                = (Ret None, [ {| call_fmt := fmt; call_input := base_str |} ])).
  { intros fmt Hin. apply TryParseFormat_fails. now apply Hf. }
  unfold auto_ambiguous.
  destruct (ambiguous_guard "/" base_str), (ambiguous_guard "-" base_str),
    (IsDayFirstFormat base_str "/"), (IsDayFirstFormat base_str "-");
    rewrite ?F by (simpl; tauto); reflexivity.
Qed.

Lemma AutoParseTimestamp_overflow
  (QLocale_c_toDouble : string -> option double)
  (date_parse : string -> string -> option (Z * string))
  (str trimmed : string) :
  Trim str = Ret trimmed -> integer_literal trimmed = true ->
  stoll trimmed = Throw out_of_range ->
  AutoParseTimestamp QLocale_c_toDouble date_parse str
  = auto_datetime date_parse trimmed.
Proof.
  intros HT HL Hs. unfold AutoParseTimestamp.
  rewrite HT, rbind_lift_ret, (literal_not_empty _ HL).
  rewrite (integer_literal_CheckNumeric _ HL), rbind_lift_ret.
  unfold auto_numeric. cbn [is_number has_decimal has_exponent integral_info negb andb].
  rewrite Hs. unfold rbind, rcatch, rlift, rret. cbn [fst snd app].
  destruct (auto_datetime date_parse trimmed) as [r calls]. reflexivity.
Qed.

(** X21. An integer literal too large for [int64_t] is handled differently
    by the two paths.  [std::stoll] throws; [DetectColumnType] catches and
    answers [NUMBER], and [ParseWithType] then returns what the double
    parser makes of the digits; [AutoParseTimestamp] catches too but falls
    through to the datetime patterns, tried on the digits themselves, and
    answers [nullopt] when the calendar parser rejects them. *)
Theorem integer_beyond_int64
  (QLocale_c_toDouble : string -> option double)
  (date_parse : string -> string -> option (Z * string))
  (str trimmed : string) :
  Trim str = Ret trimmed -> integer_literal trimmed = true ->
  literal_value trimmed < INT64_MIN \/ INT64_MAX < literal_value trimmed ->
  DetectColumnType date_parse str = rret (info_of NUMBER)
  /\ ParseWithType QLocale_c_toDouble date_parse str (info_of NUMBER)
     = rret (QLocale_c_toDouble trimmed)
  /\ AutoParseTimestamp QLocale_c_toDouble date_parse str
     = auto_datetime date_parse trimmed
  /\ (fails_on date_parse (UNAMBIGUOUS_FORMATS ++ day_month_patterns) trimmed ->
      fst (AutoParseTimestamp QLocale_c_toDouble date_parse str) = Ret None).
Proof.
  intros HT HL Hv.
  assert (Hs : stoll trimmed = Throw out_of_range).
  { rewrite (stoll_literal trimmed HL).
    destruct Hv as [Hv | Hv].
    - apply Z.ltb_lt in Hv. now rewrite Hv.
    - apply Z.ltb_lt in Hv. now rewrite Hv, orb_true_r. }
  pose proof (AutoParseTimestamp_overflow QLocale_c_toDouble date_parse
                str trimmed HT HL Hs) as HA.
  split; [| split; [| split]].
  - rewrite (DetectColumnType_numeric date_parse str trimmed integral_info HT
               (literal_not_empty _ HL) (literal_no_hex_prefix _ HL)
               (integer_literal_CheckNumeric _ HL) eq_refl).
    cbn [has_decimal integral_info]. now rewrite Hs.
  - unfold ParseWithType. rewrite HT, rbind_lift_ret, (literal_not_empty _ HL).
    cbn [type info_of]. unfold toDouble.
    rewrite (replace_no_point trimmed); [reflexivity |].
    apply (any_char_none is_point (fun c => is_sign c || isdigit c)).
    + intros c Hc. apply orb_true_iff in Hc. destruct Hc as [Hc | Hc].
      * now destruct (sign_char_class c Hc) as (_ & ? & _).
      * now destruct (digit_char_class c Hc) as (_ & _ & ?).
    + now apply literal_chars.
  - exact HA.
  - intros Hf. rewrite HA. unfold auto_datetime.
    rewrite (literal_is_its_base trimmed HL), rbind_lift_ret. cbn [fst snd].
    rewrite (try_formats_all_fail date_parse UNAMBIGUOUS_FORMATS trimmed 0).
    2:{ unfold fails_on. intros fmt Hin. apply Hf. apply in_or_app. now left. }
    unfold rbind. cbn [fst snd].
    apply auto_ambiguous_all_fail.
    unfold fails_on. intros fmt Hin. apply Hf. apply in_or_app. now right.
Qed.

Lemma integer_beyond_int64_witness :
  DetectColumnType DateLib.parse "99999999999999999999" = rret (info_of NUMBER)
  /\ ParseWithType QtLib.toDouble DateLib.parse "99999999999999999999" (info_of NUMBER)
     = rret (QtLib.toDouble "99999999999999999999")
  /\ fst (AutoParseTimestamp QtLib.toDouble DateLib.parse "99999999999999999999")
     = Ret None.
Proof.
  destruct (integer_beyond_int64 QtLib.toDouble DateLib.parse
              "99999999999999999999" "99999999999999999999" eq_refl eq_refl)
    as (H1 & H2 & _ & H4).
  - right. reflexivity.
  - split; [exact H1 |]. split; [exact H2 |]. apply H4.
    intros fmt Hin. simpl in Hin.
    repeat (destruct Hin as [<- | Hin]; [reflexivity |]). destruct Hin.
Defined.

(** ** [std::stoll] and what follows the digits *)

Lemma skip_hex_prefix_10 (s : string) : skip_hex_prefix 10 s = s.
Proof. destruct s as [|a [|b [|c s]]]; reflexivity. Qed.

Lemma digit_in_base_10_none (c : ascii) :
  isdigit c = false -> digit_in_base 10 c = None.
Proof.
  unfold isdigit, digit_in_base. intros H. rewrite H.
  destruct ((97 <=? code c) && (code c <=? 122)) eqn:E1.
  { apply andb_true_iff in E1. destruct E1 as [E1 _]. apply Z.leb_le in E1.
    replace (code c - 87 <? 10) with false by (symmetry; apply Z.ltb_ge; lia).
    reflexivity. }
  destruct ((65 <=? code c) && (code c <=? 90)) eqn:E2.
  { apply andb_true_iff in E2. destruct E2 as [E2 _]. apply Z.leb_le in E2.
    replace (code c - 55 <? 10) with false by (symmetry; apply Z.ltb_ge; lia).
    reflexivity. }
  reflexivity.
Qed.

Lemma span_digits_append (ds rest : string) :
  all_chars isdigit ds = true -> stops_digits rest = true ->
  span (is_digit_in_base 10) (ds ++ rest) = span (is_digit_in_base 10) ds.
Proof.
  intros Hd Hr. induction ds as [|c ds IH].
  - destruct rest as [|c rest]; [reflexivity |].
    cbn [append span]. unfold is_digit_in_base.
    apply negb_true_iff in Hr. now rewrite (digit_in_base_10_none c Hr).
  - cbn [all_chars] in Hd. apply andb_true_iff in Hd. destruct Hd as [Hc Hd].
    cbn [append span]. now rewrite (IH Hd).
Qed.

Lemma digits_value_append (ds rest : string) (acc : Z) :
  all_chars isdigit ds = true -> stops_digits rest = true ->
  digits_value 10 acc (ds ++ rest) = digits_value 10 acc ds.
Proof.
  intros Hd Hr. revert acc. induction ds as [|c ds IH]; intros acc.
  - destruct rest as [|c rest]; [reflexivity |].
    cbn [append digits_value].
    apply negb_true_iff in Hr. now rewrite (digit_in_base_10_none c Hr).
  - cbn [all_chars] in Hd. apply andb_true_iff in Hd. destruct Hd as [Hc Hd].
    cbn [append digits_value]. rewrite (isdigit_in_base_10 c Hc). now apply IH.
Qed.

(** [std::stoll] does not look past the digits of a literal. *)
Lemma stoll_ignores_suffix (lit rest : string) :
  integer_literal lit = true -> stops_digits rest = true ->
  stoll (lit ++ rest) = stoll lit.
Proof.
  intros HL Hr. pose proof HL as HL'. unfold integer_literal in HL'.
  apply andb_true_iff in HL'. destruct HL' as [Hall Hne].
  destruct lit as [|c t]; [discriminate Hne |].
  unfold stoll, stoll_base. rewrite !skip_hex_prefix_10.
  destruct (is_sign c) eqn:Es.
  - rewrite (is_sign_strip c t Es) in Hall.
    assert (Hsp : isspace c = false).
    { unfold is_sign in Es. apply orb_true_iff in Es.
      destruct Es as [E | E]; apply Ascii.eqb_eq in E; subst c; reflexivity. }
    cbn [append span]. rewrite Hsp. cbn [drop].
    assert (E1 : strip_sign (String c (t ++ rest))
                 = (fst (strip_sign (String c t)), t ++ rest)).
    { unfold strip_sign. unfold is_sign in Es.
      destruct (Ascii.eqb c "-"); [reflexivity |].
      destruct (Ascii.eqb c "+"); [reflexivity | discriminate]. }
    assert (E2 : snd (strip_sign (String c t)) = t) by now apply is_sign_strip.
    rewrite E1, E2. cbn [fst snd].
    now rewrite (span_digits_append t rest Hall Hr), (digits_value_append t rest 0 Hall Hr).
  - rewrite (not_sign_strip c t Es) in Hall. cbn [snd] in Hall.
    pose proof Hall as Hall'. cbn [all_chars] in Hall'.
    apply andb_true_iff in Hall'. destruct Hall' as [Hc _].
    cbn [append span]. rewrite (isdigit_not_space c Hc). cbn [drop].
    rewrite (not_sign_strip c t Es), (not_sign_strip c (t ++ rest) Es). cbn [fst snd].
    change (String c (t ++ rest)) with (String c t ++ rest).
    now rewrite (span_digits_append _ rest Hall Hr),
      (digits_value_append _ rest 0 Hall Hr).
Qed.

(** X22. Parsing with an epoch type reads the integer literal the value
    begins with and ignores whatever follows it: [std::stoll] stops at the
    first character that is not a digit, so a value such as
    [1700000001.5] or [1700000001abc] in an epoch column parses as
    [1700000001], scaled by the unit of the column's type. *)
Theorem ParseWithType_epoch_reads_leading_integer
  (QLocale_c_toDouble : string -> option double)
  (date_parse : string -> string -> option (Z * string))
  (str trimmed lit rest : string) (t : ColumnType) :
  Trim str = Ret trimmed -> trimmed = lit ++ rest ->
  integer_literal lit = true -> stops_digits rest = true ->
  (size (snd (strip_sign lit)) <= 18)%nat ->
  is_epoch t = true ->
  stoll trimmed = Ret (literal_value lit)
  /\ ParseWithType QLocale_c_toDouble date_parse str (info_of t)
     = rret (Some (EpochToSeconds (literal_value lit) t)).
Proof.
  intros HT -> HL Hr Hsz Ht.
  assert (Hs : stoll (lit ++ rest) = Ret (literal_value lit)).
  { rewrite (stoll_ignores_suffix lit rest HL Hr). now apply stoll_short_literal. }
  split; [exact Hs |].
  unfold ParseWithType. rewrite HT, rbind_lift_ret.
  assert (HE : empty (lit ++ rest) = false).
  { destruct lit; [discriminate HL | reflexivity]. }
  rewrite HE. cbn [type info_of].
  destruct t; try discriminate; rewrite Hs, rbind_lift_ret; reflexivity.
Qed.

Lemma ParseWithType_epoch_reads_leading_integer_witness :
  stoll "1700000001.5" = Ret 1700000001
  /\ ParseWithType QtLib.toDouble DateLib.parse " 1700000001.5 " (info_of EPOCH_SECONDS)
     = rret (Some (EpochToSeconds 1700000001 EPOCH_SECONDS)).
Proof.
  apply (ParseWithType_epoch_reads_leading_integer QtLib.toDouble DateLib.parse
           " 1700000001.5 " "1700000001.5" "1700000001" ".5" EPOCH_SECONDS);
    try reflexivity.
  apply Nat.leb_le. reflexivity.
Defined.

(** * Properties of [StringRef] *)

(** ** [StringRef]: ownership of the arrays *)

Section StringRefOwnership.

Local Open Scope nat_scope.
Local Open Scope list_scope.

Lemma update_same {A : Type} (f : nat -> option A) (k : nat) (v : option A) :
  StringRef.update f k v k = v.
Proof. unfold StringRef.update. now rewrite Nat.eqb_refl. Qed.

Lemma update_other {A : Type} (f : nat -> option A) (k x : nat) (v : option A) :
  x <> k -> StringRef.update f k v x = f x.
Proof.
  intros H. unfold StringRef.update.
  destruct (Nat.eqb_spec x k); [contradiction | reflexivity].
Qed.

Lemma values_initialised (cs : list ascii) : StringRef.values (map Some cs) = Ret cs.
Proof. induction cs as [|c cs IH]; simpl; [reflexivity |]. now rewrite IH. Qed.

Lemma load_prefix (m : StringRef.memory) (a n : nat) (cs : list ascii) :
  StringRef.arrays m a = Some (map Some cs) -> n <= List.length cs ->
  StringRef.load a n m = Ret (firstn n cs).
Proof.
  intros Ha Hn. unfold StringRef.load. rewrite Ha, length_map.
  replace (n <=? List.length cs) with true by (symmetry; now apply Nat.leb_le).
  now rewrite firstn_map, values_initialised.
Qed.

Lemma firstn_terminated (cs : list ascii) :
  firstn (List.length cs) (cs ++ [zero]) = cs.
Proof. now rewrite firstn_app, Nat.sub_diag, firstn_all, app_nil_r. Qed.

(** An object of a consistent memory can be read. *)
Lemma chars_of_owner (m : StringRef.memory) (this a : nat) (o : StringRef.object)
  (cs : list ascii) :
  StringRef.objects m this = Some o -> StringRef._data o = Some a ->
  StringRef.arrays m a = Some (map Some (cs ++ [zero])) ->
  List.length cs = StringRef._size o ->
  StringRef.chars this m = Ret cs.
Proof.
  intros Ho Hd Ha Hl. unfold StringRef.chars, StringRef.get_object.
  rewrite Ho. cbn [obind]. rewrite Hd.
  rewrite (load_prefix m a _ (cs ++ [zero]) Ha) by (rewrite length_app; simpl; lia).
  now rewrite <- Hl, firstn_terminated.
Qed.

Lemma chars_readable (m : StringRef.memory) (this : nat) (o : StringRef.object) :
  StringRef.consistent m -> StringRef.objects m this = Some o ->
  exists cs, StringRef.chars this m = Ret cs /\ List.length cs = StringRef._size o.
Proof.
  intros C Ho. pose proof (StringRef.object_owns m C this o Ho) as H.
  destruct (StringRef._data o) as [a|] eqn:Hd.
  - destruct H as (_ & cs & Hl & Ha). exists cs. split; [| exact Hl].
    now apply (chars_of_owner m this a o cs).
  - exists []. split; [| now rewrite H].
    unfold StringRef.chars, StringRef.get_object. rewrite Ho. cbn [obind].
    now rewrite Hd.
Qed.

(** What an object holds depends on the object and on its array only. *)
Lemma chars_frame (m m' : StringRef.memory) (this : nat) :
  StringRef.objects m' this = StringRef.objects m this ->
  (forall o a, StringRef.objects m this = Some o -> StringRef._data o = Some a ->
               StringRef.arrays m' a = StringRef.arrays m a) ->
  StringRef.chars this m' = StringRef.chars this m.
Proof.
  intros Ho Ha. unfold StringRef.chars, StringRef.get_object. rewrite Ho.
  destruct (StringRef.objects m this) as [o|] eqn:E; [| reflexivity].
  cbn [obind]. destruct (StringRef._data o) as [a|] eqn:Hd; [| reflexivity].
  unfold StringRef.load. now rewrite (Ha o a eq_refl Hd).
Qed.

(** A live array lies below the next fresh address. *)
Lemma live_below_fresh (m : StringRef.memory) (a : nat) (cells : list (option ascii)) :
  StringRef.consistent m -> StringRef.arrays m a = Some cells -> a < StringRef.fresh m.
Proof.
  intros C Ha. destruct (Nat.lt_ge_cases a (StringRef.fresh m)) as [H | H]; [exact H |].
  rewrite (StringRef.fresh_unused m C a H) in Ha. discriminate.
Qed.

(** Dropping a location that holds no object changes nothing. *)
Lemma consistent_vacant (m : StringRef.memory) (this : nat) :
  StringRef.consistent m -> StringRef.objects m this = None ->
  StringRef.consistent (StringRef.set_object this None m).
Proof.
  intros C Hn.
  assert (E : forall t, StringRef.objects (StringRef.set_object this None m) t
                        = StringRef.objects m t).
  { intros t. cbn [StringRef.objects StringRef.set_object]. unfold StringRef.update.
    destruct (Nat.eqb_spec t this); [now subst | reflexivity]. }
  constructor.
  - exact (StringRef.fresh_unused m C).
  - intros t o Ho. rewrite E in Ho. exact (StringRef.object_owns m C t o Ho).
  - intros t t' o o' a Ho Ho'. rewrite E in Ho, Ho'.
    exact (StringRef.not_shared m C t t' o o' a Ho Ho').
  - intros a cells Ha.
    destruct (StringRef.not_leaked m C a cells Ha) as (t & o & Ho & Hd).
    exists t, o. rewrite E. split; assumption.
Qed.

(** The object at [this] takes a fresh array holding [cs], terminated. *)
Lemma adopt_array (m m' : StringRef.memory) (this : nat) (cs : list ascii) :
  StringRef.consistent (StringRef.set_object this None m) ->
  0 < List.length cs ->
  StringRef.fresh m' = S (StringRef.fresh m) ->
  (forall a, StringRef.arrays m' a
             = if a =? StringRef.fresh m then Some (map Some (cs ++ [zero]))
               else StringRef.arrays m a) ->
  (forall t, StringRef.objects m' t
             = if t =? this
               then Some {| StringRef._data := Some (StringRef.fresh m);
                            StringRef._size := List.length cs |}
               else StringRef.objects m t) ->
  StringRef.consistent m' /\ StringRef.chars this m' = Ret cs.
Proof.
  intros C Hpos Hf Ha Ho.
  assert (Eo : forall t, t <> this ->
                 StringRef.objects (StringRef.set_object this None m) t
                 = StringRef.objects m t).
  { intros t Ht. cbn [StringRef.objects StringRef.set_object].
    now apply update_other. }
  assert (Live : forall a cells, StringRef.arrays m a = Some cells ->
                                 a <> StringRef.fresh m).
  { intros a cells H. apply (live_below_fresh _ a cells C) in H.
    cbn [StringRef.fresh StringRef.set_object] in H. lia. }
  split.
  - constructor.
    + intros a Hge. rewrite Ha, Hf in *.
      destruct (Nat.eqb_spec a (StringRef.fresh m)); [lia |].
      apply (StringRef.fresh_unused _ C). cbn [StringRef.fresh StringRef.set_object]. lia.
    + intros t o Hto. rewrite Ho in Hto.
      destruct (Nat.eqb_spec t this) as [-> | Ht].
      * injection Hto as <-. cbn [StringRef._data StringRef._size].
        split; [exact Hpos |]. exists cs. split; [reflexivity |].
        now rewrite Ha, Nat.eqb_refl.
      * rewrite <- (Eo t Ht) in Hto.
        pose proof (StringRef.object_owns _ C t o Hto) as H.
        destruct (StringRef._data o) as [a|]; [| exact H].
        destruct H as (Hp & cs' & Hl & Harr). split; [exact Hp |].
        exists cs'. split; [exact Hl |].
        cbn [StringRef.arrays StringRef.set_object] in Harr.
        rewrite Ha. destruct (Nat.eqb_spec a (StringRef.fresh m)) as [-> | _];
          [exfalso; now apply (Live _ _ Harr) | exact Harr].
    + intros t t' o o' a Hto Hto' Hd Hd'. rewrite Ho in Hto, Hto'.
      destruct (Nat.eqb_spec t this) as [-> | Ht];
        destruct (Nat.eqb_spec t' this) as [-> | Ht']; [reflexivity | | |].
      * exfalso. injection Hto as <-. cbn [StringRef._data] in Hd. injection Hd as <-.
        rewrite <- (Eo t' Ht') in Hto'.
        pose proof (StringRef.object_owns _ C t' o' Hto') as H. rewrite Hd' in H.
        destruct H as (_ & cs' & _ & Harr).
        cbn [StringRef.arrays StringRef.set_object] in Harr.
        now apply (Live _ _ Harr).
      * exfalso. injection Hto' as <-. cbn [StringRef._data] in Hd'. injection Hd' as <-.
        rewrite <- (Eo t Ht) in Hto.
        pose proof (StringRef.object_owns _ C t o Hto) as H. rewrite Hd in H.
        destruct H as (_ & cs' & _ & Harr).
        cbn [StringRef.arrays StringRef.set_object] in Harr.
        now apply (Live _ _ Harr).
      * rewrite <- (Eo t Ht) in Hto. rewrite <- (Eo t' Ht') in Hto'.
        exact (StringRef.not_shared _ C t t' o o' a Hto Hto' Hd Hd').
    + intros a cells Harr. rewrite Ha in Harr.
      destruct (Nat.eqb_spec a (StringRef.fresh m)) as [-> | Hne].
      * exists this, {| StringRef._data := Some (StringRef.fresh m);
                        StringRef._size := List.length cs |}.
        rewrite Ho, Nat.eqb_refl. split; reflexivity.
      * destruct (StringRef.not_leaked _ C a cells Harr) as (t & o & Hto & Hd).
        exists t, o. split; [| exact Hd]. rewrite Ho.
        destruct (Nat.eqb_spec t this) as [-> | Ht].
        -- cbn [StringRef.objects StringRef.set_object] in Hto.
           rewrite update_same in Hto. discriminate.
        -- now rewrite <- (Eo t Ht).
  - apply (chars_of_owner m' this (StringRef.fresh m)
             {| StringRef._data := Some (StringRef.fresh m);
                StringRef._size := List.length cs |} cs).
    + now rewrite Ho, Nat.eqb_refl.
    + reflexivity.
    + now rewrite Ha, Nat.eqb_refl.
    + reflexivity.
Qed.

(** The object at [this] becomes empty. *)
Lemma adopt_nothing (m : StringRef.memory) (this : nat) :
  StringRef.consistent (StringRef.set_object this None m) ->
  StringRef.consistent (StringRef.set_object this (Some StringRef.null_object) m)
  /\ StringRef.chars this (StringRef.set_object this (Some StringRef.null_object) m)
     = Ret [].
Proof.
  intros C.
  assert (Eo : forall t, t <> this ->
                 StringRef.objects (StringRef.set_object this None m) t
                 = StringRef.objects (StringRef.set_object this (Some StringRef.null_object) m) t).
  { intros t Ht. cbn [StringRef.objects StringRef.set_object].
    now rewrite !update_other. }
  assert (Et : StringRef.objects (StringRef.set_object this (Some StringRef.null_object) m) this
               = Some StringRef.null_object).
  { cbn [StringRef.objects StringRef.set_object]. apply update_same. }
  split.
  - constructor.
    + exact (StringRef.fresh_unused _ C).
    + intros t o Hto. destruct (Nat.eq_dec t this) as [-> | Ht].
      * rewrite Et in Hto. injection Hto as <-. reflexivity.
      * rewrite <- (Eo t Ht) in Hto. exact (StringRef.object_owns _ C t o Hto).
    + intros t t' o o' a Hto Hto' Hd Hd'.
      destruct (Nat.eq_dec t this) as [-> | Ht].
      { rewrite Et in Hto. injection Hto as <-. discriminate. }
      destruct (Nat.eq_dec t' this) as [-> | Ht'].
      { rewrite Et in Hto'. injection Hto' as <-. discriminate. }
      rewrite <- (Eo t Ht) in Hto. rewrite <- (Eo t' Ht') in Hto'.
      exact (StringRef.not_shared _ C t t' o o' a Hto Hto' Hd Hd').
    + intros a cells Harr.
      destruct (StringRef.not_leaked _ C a cells Harr) as (t & o & Hto & Hd).
      exists t, o. split; [| exact Hd].
      destruct (Nat.eq_dec t this) as [-> | Ht].
      * cbn [StringRef.objects StringRef.set_object] in Hto.
        rewrite update_same in Hto. discriminate.
      * now rewrite <- (Eo t Ht).
  - unfold StringRef.chars, StringRef.get_object. rewrite Et. reflexivity.
Qed.


(** Giving up the array of the object at [this]: defined, and what is left
    is consistent once the object is set aside. *)
Lemma release_array (m : StringRef.memory) (this : nat) (self : StringRef.object) :
  StringRef.consistent m -> StringRef.objects m this = Some self ->
  exists m1,
    StringRef.delete_array (StringRef._data self) m = Ret m1
    /\ StringRef.consistent (StringRef.set_object this None m1)
    /\ StringRef.objects m1 = StringRef.objects m
    /\ StringRef.fresh m1 = StringRef.fresh m
    /\ (forall a, StringRef._data self <> Some a ->
                  StringRef.arrays m1 a = StringRef.arrays m a)
    /\ (forall a, StringRef._data self = Some a -> StringRef.arrays m1 a = None).
Proof.
  intros C Hself.
  pose proof (StringRef.object_owns m C this self Hself) as Hown.
  assert (Eo : forall m' t, t <> this ->
                 StringRef.objects (StringRef.set_object this None m') t
                 = StringRef.objects m' t).
  { intros m' t Ht. cbn [StringRef.objects StringRef.set_object].
    now apply update_other. }
  destruct (StringRef._data self) as [a0|] eqn:Hd.
  - destruct Hown as (_ & cs & _ & Harr).
    unfold StringRef.delete_array. rewrite Harr.
    exists (StringRef.set_array a0 None m).
    split; [reflexivity |]. split; [| split; [reflexivity |]; split; [reflexivity |]; split].
    + constructor.
      * intros a Hge. cbn [StringRef.arrays StringRef.set_object StringRef.set_array
                             StringRef.fresh] in *.
        unfold StringRef.update. destruct (a =? a0); [reflexivity |].
        now apply (StringRef.fresh_unused m C).
      * intros t o Hto.
        destruct (Nat.eq_dec t this) as [-> | Ht].
        { cbn [StringRef.objects StringRef.set_object] in Hto.
          rewrite update_same in Hto. discriminate. }
        rewrite (Eo _ t Ht) in Hto. cbn [StringRef.objects StringRef.set_array] in Hto.
        pose proof (StringRef.object_owns m C t o Hto) as H.
        destruct (StringRef._data o) as [a|] eqn:Hda; [| exact H].
        destruct H as (Hp & cs' & Hl & Ha). split; [exact Hp |].
        exists cs'. split; [exact Hl |].
        cbn [StringRef.arrays StringRef.set_object StringRef.set_array].
        rewrite update_other; [exact Ha |].
        intros ->. apply Ht.
        exact (StringRef.not_shared m C t this o self a0 Hto Hself Hda Hd).
      * intros t t' o o' a Hto Hto' Hda Hda'.
        destruct (Nat.eq_dec t this) as [-> | Ht].
        { cbn [StringRef.objects StringRef.set_object] in Hto.
          rewrite update_same in Hto. discriminate. }
        destruct (Nat.eq_dec t' this) as [-> | Ht'].
        { cbn [StringRef.objects StringRef.set_object] in Hto'.
          rewrite update_same in Hto'. discriminate. }
        rewrite (Eo _ t Ht) in Hto. rewrite (Eo _ t' Ht') in Hto'.
        exact (StringRef.not_shared m C t t' o o' a Hto Hto' Hda Hda').
      * intros a cells Ha.
        cbn [StringRef.arrays StringRef.set_object StringRef.set_array] in Ha.
        unfold StringRef.update in Ha.
        destruct (Nat.eqb_spec a a0) as [-> | Hne]; [discriminate |].
        destruct (StringRef.not_leaked m C a cells Ha) as (t & o & Hto & Hda).
        exists t, o. split; [| exact Hda].
        destruct (Nat.eq_dec t this) as [-> | Ht].
        { exfalso. rewrite Hself in Hto. injection Hto as <-. congruence. }
        now rewrite (Eo _ t Ht).
    + intros a Hne. cbn [StringRef.arrays StringRef.set_array].
      apply update_other. congruence.
    + intros a [= <-]. cbn [StringRef.arrays StringRef.set_array]. apply update_same.
  - exists m. split; [reflexivity |].
    split; [| split; [reflexivity |]; split; [reflexivity |]; split;
              [reflexivity | discriminate]].
    constructor.
    + exact (StringRef.fresh_unused m C).
    + intros t o Hto.
      destruct (Nat.eq_dec t this) as [-> | Ht].
      { cbn [StringRef.objects StringRef.set_object] in Hto.
        rewrite update_same in Hto. discriminate. }
      rewrite (Eo _ t Ht) in Hto. exact (StringRef.object_owns m C t o Hto).
    + intros t t' o o' a Hto Hto' Hda Hda'.
      destruct (Nat.eq_dec t this) as [-> | Ht].
      { cbn [StringRef.objects StringRef.set_object] in Hto.
        rewrite update_same in Hto. discriminate. }
      destruct (Nat.eq_dec t' this) as [-> | Ht'].
      { cbn [StringRef.objects StringRef.set_object] in Hto'.
        rewrite update_same in Hto'. discriminate. }
      rewrite (Eo _ t Ht) in Hto. rewrite (Eo _ t' Ht') in Hto'.
      exact (StringRef.not_shared m C t t' o o' a Hto Hto' Hda Hda').
    + intros a cells Ha.
      destruct (StringRef.not_leaked m C a cells Ha) as (t & o & Hto & Hda).
      exists t, o. split; [| exact Hda].
      destruct (Nat.eq_dec t this) as [-> | Ht].
      { exfalso. rewrite Hself in Hto. injection Hto as <-. congruence. }
      now rewrite (Eo _ t Ht).
Qed.

(** The three statements [new], [memcpy], [p[n] = 0] of the constructor. *)
Lemma construct_effect (this : nat) (src : list ascii) (n : nat) (m : StringRef.memory) :
  0 < n -> n <= List.length src ->
  exists m',
    StringRef.construct this (Some src) n m = Ret m'
    /\ StringRef.fresh m' = S (StringRef.fresh m)
    /\ (forall a, StringRef.arrays m' a
                  = if a =? StringRef.fresh m
                    then Some (map Some (firstn n src ++ [zero]))
                    else StringRef.arrays m a)
    /\ (forall t, StringRef.objects m' t
                  = if t =? this
                    then Some {| StringRef._data := Some (StringRef.fresh m);
                                 StringRef._size := n |}
                    else StringRef.objects m t).
Proof.
  intros Hpos Hn. unfold StringRef.construct.
  replace (0 <? n) with true by (symmetry; now apply Nat.ltb_lt).
  unfold StringRef.new_array, StringRef.memcpy.
  cbn [StringRef.arrays]. rewrite update_same, repeat_length.
  replace ((n <=? List.length src) && (n <=? n + 1)) with true
    by (symmetry; apply andb_true_iff; split; apply Nat.leb_le; lia).
  cbn [obind]. unfold StringRef.store.
  cbn [StringRef.arrays StringRef.set_array]. rewrite update_same.
  assert (Hlen : List.length (map Some (firstn n src) ++ skipn n (repeat None (n + 1)))
                 = n + 1).
  { rewrite length_app, length_map, length_skipn, repeat_length,
      (firstn_length_le src Hn). lia. }
  rewrite Hlen.
  replace (n <? n + 1) with true by (symmetry; apply Nat.ltb_lt; lia).
  cbn [obind].
  eexists. split; [reflexivity |]. split; [reflexivity |]. split.
  - intros a. cbn [StringRef.arrays StringRef.set_object StringRef.set_array].
    unfold StringRef.update. destruct (a =? StringRef.fresh m); [| reflexivity].
    f_equal.
    assert (Hfl : List.length (map (@Some ascii) (firstn n src)) = n)
      by (rewrite length_map; now apply firstn_length_le).
    rewrite firstn_app, Hfl, Nat.sub_diag, firstn_O, app_nil_r.
    rewrite (firstn_all2 (n := n)) by lia.
    rewrite skipn_all2 by (rewrite Hlen; lia).
    now rewrite map_app.
  - intros t. cbn [StringRef.objects StringRef.set_object StringRef.set_array].
    reflexivity.
Qed.

(** The copy of the members of [other], which owns an array. *)
Lemma copy_members_effect (this other a : nat) (o : StringRef.object)
  (cs : list ascii) (m : StringRef.memory) :
  StringRef.objects m other = Some o -> StringRef._data o = Some a ->
  StringRef.arrays m a = Some (map Some (cs ++ [zero])) ->
  List.length cs = StringRef._size o -> a <> StringRef.fresh m ->
  exists m',
    StringRef.copy_members this other m = Ret m'
    /\ StringRef.fresh m' = S (StringRef.fresh m)
    /\ (forall x, StringRef.arrays m' x
                  = if x =? StringRef.fresh m
                    then Some (map Some (cs ++ [zero]))
                    else StringRef.arrays m x)
    /\ (forall t, StringRef.objects m' t
                  = if t =? this
                    then Some {| StringRef._data := Some (StringRef.fresh m);
                                 StringRef._size := List.length cs |}
                    else StringRef.objects m t).
Proof.
  intros Ho Hd Ha Hl Hne.
  unfold StringRef.copy_members, StringRef.get_object. rewrite Ho. cbn [obind].
  rewrite Hd. unfold StringRef.new_array.
  assert (Hlen : List.length (cs ++ [zero]) = StringRef._size o + 1)
    by (rewrite length_app; simpl; lia).
  rewrite (load_prefix _ a _ (cs ++ [zero])).
  2:{ cbn [StringRef.arrays]. now rewrite update_other. }
  2:{ lia. }
  rewrite <- Hlen, firstn_all. cbn [obind].
  unfold StringRef.memcpy. cbn [StringRef.arrays]. rewrite update_same, repeat_length.
  rewrite Nat.leb_refl. cbn [andb obind].
  eexists. split; [reflexivity |]. split; [reflexivity |]. split.
  - intros x. cbn [StringRef.arrays StringRef.set_object StringRef.set_array].
    unfold StringRef.update. destruct (x =? StringRef.fresh m); [| reflexivity].
    f_equal. rewrite firstn_all.
    rewrite skipn_all2 by (rewrite repeat_length; lia).
    now rewrite app_nil_r.
  - intros t. cbn [StringRef.objects StringRef.set_object StringRef.set_array].
    now rewrite Hl.
Qed.

End StringRefOwnership.

Section StringRefOperations.

Local Open Scope nat_scope.
Local Open Scope list_scope.

Lemma set_aside_other (m : StringRef.memory) (this t : nat) :
  t <> this ->
  StringRef.objects (StringRef.set_object this None m) t = StringRef.objects m t.
Proof.
  intros H. cbn [StringRef.objects StringRef.set_object]. now apply update_other.
Qed.

(** The other objects after [this] took a fresh array. *)
Lemma others_after_adopt (m m' : StringRef.memory) (this : nat)
  (cells : option (list (option ascii))) (o : option StringRef.object) :
  StringRef.consistent (StringRef.set_object this None m) ->
  (forall a, StringRef.arrays m' a
             = if a =? StringRef.fresh m then cells else StringRef.arrays m a) ->
  (forall t, StringRef.objects m' t
             = if t =? this then o else StringRef.objects m t) ->
  forall t, t <> this ->
    StringRef.objects m' t = StringRef.objects m t
    /\ StringRef.chars t m' = StringRef.chars t m.
Proof.
  intros C Ha Ho t Ht.
  assert (E : StringRef.objects m' t = StringRef.objects m t).
  { rewrite Ho. destruct (Nat.eqb_spec t this); [contradiction | reflexivity]. }
  split; [exact E |].
  apply chars_frame; [exact E |].
  intros o' a Hto Hd. rewrite Ha.
  destruct (Nat.eqb_spec a (StringRef.fresh m)) as [-> | _]; [exfalso | reflexivity].
  rewrite <- (set_aside_other m this t Ht) in Hto.
  pose proof (StringRef.object_owns _ C t o' Hto) as H. rewrite Hd in H.
  destruct H as (_ & cs & _ & Harr).
  apply (live_below_fresh _ _ _ C) in Harr.
  cbn [StringRef.fresh StringRef.set_object] in Harr. lia.
Qed.

(** The other objects after [this] gave up its array. *)
Lemma others_after_release (m m1 : StringRef.memory) (this : nat)
  (self : StringRef.object) :
  StringRef.consistent m -> StringRef.objects m this = Some self ->
  StringRef.objects m1 = StringRef.objects m ->
  (forall a, StringRef._data self <> Some a ->
             StringRef.arrays m1 a = StringRef.arrays m a) ->
  forall t, t <> this ->
    StringRef.objects m1 t = StringRef.objects m t
    /\ StringRef.chars t m1 = StringRef.chars t m.
Proof.
  intros C Hself Eo Ea t Ht.
  split; [now rewrite Eo |].
  apply chars_frame; [now rewrite Eo |].
  intros o a Hto Hd. apply Ea. intros Hs. apply Ht.
  exact (StringRef.not_shared m C t this o self a Hto Hself Hd Hs).
Qed.

Lemma alive_object (m : StringRef.memory) (this : nat) :
  StringRef.alive this m = true -> exists o, StringRef.objects m this = Some o.
Proof.
  unfold StringRef.alive. destruct (StringRef.objects m this) as [o|]; [eauto | discriminate].
Qed.

Lemma not_alive_object (m : StringRef.memory) (this : nat) :
  StringRef.alive this m = false -> StringRef.objects m this = None.
Proof.
  unfold StringRef.alive. destruct (StringRef.objects m this); [discriminate | reflexivity].
Qed.

(** *** The constructors *)

Lemma construct_any (this : nat) (data_ptr : option (list ascii)) (n : nat)
  (m : StringRef.memory) :
  StringRef.consistent (StringRef.set_object this None m) ->
  (forall src, data_ptr = Some src -> n <= List.length src) ->
  exists m',
    StringRef.construct this data_ptr n m = Ret m'
    /\ StringRef.consistent m'
    /\ StringRef.chars this m'
       = Ret (match data_ptr with Some src => firstn n src | None => [] end)
    /\ (forall t, t <> this ->
          StringRef.objects m' t = StringRef.objects m t
          /\ StringRef.chars t m' = StringRef.chars t m).
Proof.
  intros C Hlen.
  assert (Null : exists m',
             Ret (StringRef.set_object this (Some StringRef.null_object) m) = Ret m'
             /\ StringRef.consistent m'
             /\ StringRef.chars this m' = Ret []
             /\ (forall t, t <> this ->
                   StringRef.objects m' t = StringRef.objects m t
                   /\ StringRef.chars t m' = StringRef.chars t m)).
  { eexists. split; [reflexivity |].
    destruct (adopt_nothing m this C) as [C' Hc].
    split; [exact C' |]. split; [exact Hc |].
    intros t Ht.
    assert (E : StringRef.objects
                  (StringRef.set_object this (Some StringRef.null_object) m) t
                = StringRef.objects m t).
    { cbn [StringRef.objects StringRef.set_object]. now apply update_other. }
    split; [exact E |]. apply chars_frame; [exact E | reflexivity]. }
  destruct data_ptr as [src|]; [| exact Null].
  destruct (Nat.ltb_spec 0 n) as [Hpos | Hz].
  - destruct (construct_effect this src n m Hpos (Hlen src eq_refl))
      as (m' & E & Hf & Ha & Ho).
    exists m'. split; [exact E |].
    assert (Hl : List.length (firstn n src) = n)
      by (apply firstn_length_le; now apply Hlen).
    destruct (adopt_array m m' this (firstn n src) C) as [C' Hc].
    + now rewrite Hl.
    + exact Hf.
    + exact Ha.
    + intros t. rewrite Ho, Hl. reflexivity.
    + split; [exact C' |]. split; [exact Hc |].
      exact (others_after_adopt m m' this _ _ C Ha Ho).
  - assert (n = 0) by lia. subst n.
    unfold StringRef.construct. cbn [Nat.ltb Nat.leb firstn]. exact Null.
Qed.

(** X16. The constructors.  In a consistent memory, at a location where no
    object is alive, [StringRef(data_ptr, length)] is defined whenever the
    buffer holds [length] characters; the new object holds a copy of those
    characters ([nullptr] or length 0 gives the empty object) in an array
    of its own, [size()] is their number, the memory stays consistent, and
    no other object changes.  The constructor from a [std::string] holds the
    characters of the string, the one from a C string those before the
    first terminator, and the default constructor none. *)
Theorem StringRef_constructors (this : nat) (m : StringRef.memory) :
  StringRef.consistent m -> StringRef.objects m this = None ->
  let made (result : outcome StringRef.memory) (cs : list ascii) : Prop :=
    exists m',
      result = Ret m' /\ StringRef.consistent m'
      /\ StringRef.chars this m' = Ret cs
      /\ StringRef.size this m' = Ret (List.length cs)
      /\ (forall t, t <> this ->
            StringRef.objects m' t = StringRef.objects m t
            /\ StringRef.chars t m' = StringRef.chars t m) in
  (forall src length, length <= List.length src ->
     made (StringRef.construct this (Some src) length m) (firstn length src))
  /\ (forall length, made (StringRef.construct this None length m) [])
  /\ (forall str, made (StringRef.construct_string this str m) (list_ascii_of_string str))
  /\ (forall cs rest,
        forallb (fun c => negb (Ascii.eqb c zero)) cs = true ->
        made (StringRef.construct_c_str this (Some (cs ++ zero :: rest)) m) cs)
  /\ made (StringRef.construct_c_str this None m) []
  /\ made (StringRef.construct_default this m) [].
Proof.
  intros C Hvac made.
  pose proof (consistent_vacant m this C Hvac) as C0.
  assert (Size : forall m' cs,
             StringRef.consistent m' -> StringRef.chars this m' = Ret cs ->
             StringRef.size this m' = Ret (List.length cs)).
  { intros m' cs C' Hc. unfold StringRef.size, StringRef.get_object.
    unfold StringRef.chars, StringRef.get_object in Hc.
    destruct (StringRef.objects m' this) as [o|] eqn:Ho; [| discriminate].
    destruct (chars_readable m' this o C' Ho) as (cs' & Hc' & Hl).
    unfold StringRef.chars, StringRef.get_object in Hc'. rewrite Ho in Hc'.
    rewrite Hc in Hc'. injection Hc' as <-. cbn [obind]. now rewrite Hl. }
  assert (General : forall data_ptr n,
             (forall src, data_ptr = Some src -> n <= List.length src) ->
             made (StringRef.construct this data_ptr n m)
                  (match data_ptr with Some src => firstn n src | None => [] end)).
  { intros data_ptr n Hn.
    destruct (construct_any this data_ptr n m C0 Hn) as (m' & E & C' & Hc & Hfr).
    exists m'. split; [exact E |]. split; [exact C' |]. split; [exact Hc |].
    split; [now apply Size | exact Hfr]. }
  split; [| split; [| split; [| split; [| split]]]].
  - intros src n Hn. apply (General (Some src) n). now intros ? [= <-].
  - intros n. apply (General None n). discriminate.
  - intros str. unfold StringRef.construct_string.
    assert (Hl : List.length (list_ascii_of_string str) = String.length str).
    { induction str as [|c s IH]; simpl; congruence. }
    replace (list_ascii_of_string str)
      with (firstn (String.length str) (list_ascii_of_string str ++ [zero])) at 2
      by (rewrite <- Hl; apply firstn_terminated).
    apply (General (Some (list_ascii_of_string str ++ [zero])) (String.length str)).
    intros ? [= <-]. rewrite length_app, Hl. simpl. lia.
  - intros cs rest Hcs. unfold StringRef.construct_c_str.
    assert (Hs : StringRef.strlen (cs ++ zero :: rest) = Ret (List.length cs)).
    { induction cs as [|c cs IH]; [reflexivity |].
      cbn [forallb] in Hcs. apply andb_true_iff in Hcs. destruct Hcs as [Hc Hcs].
      apply negb_true_iff in Hc.
      cbn [app StringRef.strlen]. rewrite Hc, (IH Hcs). reflexivity. }
    rewrite Hs. cbn [obind].
    replace cs with (firstn (List.length cs) (cs ++ zero :: rest)) at 3
      by (now rewrite firstn_app, Nat.sub_diag, firstn_all, app_nil_r).
    apply (General (Some (cs ++ zero :: rest)) (List.length cs)).
    intros ? [= <-]. rewrite length_app. lia.
  - unfold StringRef.construct_c_str. cbn [obind]. apply (General None 0). discriminate.
  - unfold StringRef.construct_default. apply (General None 0). discriminate.
Qed.


(** *** Copies *)

Lemma copy_members_spec (this other : nat) (o : StringRef.object) (m : StringRef.memory) :
  StringRef.consistent (StringRef.set_object this None m) ->
  this <> other -> StringRef.objects m other = Some o ->
  exists m',
    StringRef.copy_members this other m = Ret m'
    /\ StringRef.consistent m'
    /\ StringRef.chars this m' = StringRef.chars other m
    /\ (forall t, t <> this ->
          StringRef.objects m' t = StringRef.objects m t
          /\ StringRef.chars t m' = StringRef.chars t m).
Proof.
  intros C Hne Ho.
  assert (Ho' : StringRef.objects (StringRef.set_object this None m) other = Some o).
  { rewrite set_aside_other; [exact Ho | congruence]. }
  pose proof (StringRef.object_owns _ C other o Ho') as Hown.
  destruct (StringRef._data o) as [a|] eqn:Hd.
  - destruct Hown as (Hpos & cs & Hl & Harr).
    cbn [StringRef.arrays StringRef.set_object] in Harr.
    assert (Hfresh : a <> StringRef.fresh m).
    { pose proof (live_below_fresh _ a _ C Harr) as H.
      cbn [StringRef.fresh StringRef.set_object] in H. lia. }
    destruct (copy_members_effect this other a o cs m Ho Hd Harr Hl Hfresh)
      as (m' & E & Hf & Ha & Hob).
    exists m'. split; [exact E |].
    destruct (adopt_array m m' this cs C ltac:(lia) Hf Ha Hob) as [C' Hc].
    split; [exact C' |]. split.
    + rewrite Hc. symmetry. now apply (chars_of_owner m other a o cs).
    + exact (others_after_adopt m m' this _ _ C Ha Hob).
  - unfold StringRef.copy_members, StringRef.get_object. rewrite Ho. cbn [obind].
    rewrite Hd. eexists. split; [reflexivity |].
    destruct (adopt_nothing m this C) as [C' Hc].
    split; [exact C' |]. split.
    + rewrite Hc. unfold StringRef.chars, StringRef.get_object. rewrite Ho.
      cbn [obind]. now rewrite Hd.
    + intros t Ht.
      assert (E : StringRef.objects
                    (StringRef.set_object this (Some StringRef.null_object) m) t
                  = StringRef.objects m t).
      { cbn [StringRef.objects StringRef.set_object]. now apply update_other. }
      split; [exact E |]. apply chars_frame; [exact E | reflexivity].
Qed.

Lemma copy_construct_spec (this other : nat) (o : StringRef.object) (m : StringRef.memory) :
  StringRef.consistent m -> StringRef.objects m this = None ->
  StringRef.objects m other = Some o ->
  exists m',
    StringRef.copy_construct this other m = Ret m'
    /\ StringRef.consistent m'
    /\ StringRef.chars this m' = StringRef.chars other m
    /\ (forall t, t <> this ->
          StringRef.objects m' t = StringRef.objects m t
          /\ StringRef.chars t m' = StringRef.chars t m).
Proof.
  intros C Hvac Ho. apply (copy_members_spec this other o m).
  - now apply consistent_vacant.
  - intros ->. congruence.
  - exact Ho.
Qed.

Lemma copy_assign_spec (this other : nat) (self o : StringRef.object)
  (m : StringRef.memory) :
  StringRef.consistent m -> StringRef.objects m this = Some self ->
  StringRef.objects m other = Some o ->
  exists m',
    StringRef.copy_assign this other m = Ret m'
    /\ StringRef.consistent m'
    /\ StringRef.chars this m' = StringRef.chars other m
    /\ (forall t, t <> this ->
          StringRef.objects m' t = StringRef.objects m t
          /\ StringRef.chars t m' = StringRef.chars t m).
Proof.
  intros C Hself Ho. unfold StringRef.copy_assign.
  destruct (Nat.eqb_spec this other) as [-> | Hne]; cbn [negb].
  - exists m. split; [reflexivity |]. split; [exact C |]. split; [reflexivity |].
    intros t Ht. split; reflexivity.
  - unfold StringRef.get_object. rewrite Hself. cbn [obind].
    destruct (release_array m this self C Hself) as (m1 & E & C1 & Eo & _ & Ea & _).
    rewrite E. cbn [obind].
    pose proof (others_after_release m m1 this self C Hself Eo Ea) as Hrel.
    destruct (copy_members_spec this other o m1 C1 Hne) as (m' & E' & C' & Hc & Hfr).
    { now rewrite Eo. }
    exists m'. split; [exact E' |]. split; [exact C' |]. split.
    + rewrite Hc. apply Hrel. congruence.
    + intros t Ht. destruct (Hfr t Ht) as [H1 H2]. destruct (Hrel t Ht) as [H3 H4].
      split; congruence.
Qed.

(** *** Moves *)

Lemma move_members_spec (this other : nat) (o : StringRef.object) (m : StringRef.memory) :
  StringRef.consistent (StringRef.set_object this None m) ->
  this <> other -> StringRef.objects m other = Some o ->
  exists m',
    StringRef.move_members this other m = Ret m'
    /\ StringRef.consistent m'
    /\ StringRef.chars this m' = StringRef.chars other m
    /\ StringRef.data this m' = StringRef.data other m
    /\ StringRef.objects m' other = Some StringRef.null_object
    /\ StringRef.arrays m' = StringRef.arrays m
    /\ (forall t, t <> this -> t <> other ->
          StringRef.objects m' t = StringRef.objects m t
          /\ StringRef.chars t m' = StringRef.chars t m).
Proof.
  intros C Hne Ho.
  unfold StringRef.move_members, StringRef.get_object. rewrite Ho. cbn [obind].
  set (o' := {| StringRef._data := StringRef._data o;
                StringRef._size := StringRef._size o |}).
  set (m' := StringRef.set_object other (Some StringRef.null_object)
               (StringRef.set_object this (Some o') m)).
  assert (Eother : StringRef.objects m' other = Some StringRef.null_object).
  { subst m'. cbn [StringRef.objects StringRef.set_object]. apply update_same. }
  assert (Ethis : StringRef.objects m' this = Some o').
  { subst m'. cbn [StringRef.objects StringRef.set_object].
    rewrite update_other by exact Hne. apply update_same. }
  assert (Erest : forall t, t <> this -> t <> other ->
                    StringRef.objects m' t = StringRef.objects m t).
  { intros t H1 H2. subst m'. cbn [StringRef.objects StringRef.set_object].
    now rewrite !update_other. }
  assert (Ho' : StringRef.objects (StringRef.set_object this None m) other = Some o).
  { rewrite set_aside_other; [exact Ho | congruence]. }
  exists m'. split; [reflexivity |]. split; [| split; [| split; [| split; [| split]]]].
  - constructor.
    + exact (StringRef.fresh_unused _ C).
    + intros t x Hx.
      destruct (Nat.eq_dec t other) as [-> | H2].
      { rewrite Eother in Hx. injection Hx as <-. reflexivity. }
      destruct (Nat.eq_dec t this) as [-> | H1].
      { rewrite Ethis in Hx. injection Hx as <-.
        exact (StringRef.object_owns _ C other o Ho'). }
      rewrite (Erest t H1 H2), <- (set_aside_other m this t H1) in Hx.
      exact (StringRef.object_owns _ C t x Hx).
    + intros t t' x x' a Hx Hx' Hd Hd'.
      destruct (Nat.eq_dec t other) as [-> | H2].
      { rewrite Eother in Hx. injection Hx as <-. discriminate. }
      destruct (Nat.eq_dec t' other) as [-> | H2'].
      { rewrite Eother in Hx'. injection Hx' as <-. discriminate. }
      destruct (Nat.eq_dec t this) as [-> | H1];
        destruct (Nat.eq_dec t' this) as [-> | H1']; [reflexivity | | |].
      * exfalso. rewrite Ethis in Hx. injection Hx as <-.
        rewrite (Erest t' H1' H2'), <- (set_aside_other m this t' H1') in Hx'.
        apply H2'. symmetry.
        exact (StringRef.not_shared _ C other t' o x' a Ho' Hx' Hd Hd').
      * exfalso. rewrite Ethis in Hx'. injection Hx' as <-.
        rewrite (Erest t H1 H2), <- (set_aside_other m this t H1) in Hx.
        apply H2.
        exact (StringRef.not_shared _ C t other x o a Hx Ho' Hd Hd').
      * rewrite (Erest t H1 H2), <- (set_aside_other m this t H1) in Hx.
        rewrite (Erest t' H1' H2'), <- (set_aside_other m this t' H1') in Hx'.
        exact (StringRef.not_shared _ C t t' x x' a Hx Hx' Hd Hd').
    + intros a cells Ha.
      destruct (StringRef.not_leaked _ C a cells Ha) as (t & x & Hx & Hd).
      destruct (Nat.eq_dec t this) as [-> | H1].
      { cbn [StringRef.objects StringRef.set_object] in Hx.
        rewrite update_same in Hx. discriminate. }
      rewrite (set_aside_other m this t H1) in Hx.
      destruct (Nat.eq_dec t other) as [-> | H2].
      * exists this, o'. split; [exact Ethis |].
        rewrite Ho in Hx. injection Hx as <-. exact Hd.
      * exists t, x. split; [now rewrite (Erest t H1 H2) | exact Hd].
  - unfold StringRef.chars, StringRef.get_object. rewrite Ethis, Ho. reflexivity.
  - unfold StringRef.data, StringRef.get_object. rewrite Ethis, Ho. reflexivity.
  - exact Eother.
  - reflexivity.
  - intros t H1 H2. split; [now apply Erest |].
    apply chars_frame; [now apply Erest | reflexivity].
Qed.

Lemma move_construct_spec (this other : nat) (o : StringRef.object) (m : StringRef.memory) :
  StringRef.consistent m -> StringRef.objects m this = None ->
  StringRef.objects m other = Some o ->
  exists m',
    StringRef.move_construct this other m = Ret m'
    /\ StringRef.consistent m'
    /\ StringRef.chars this m' = StringRef.chars other m
    /\ StringRef.data this m' = StringRef.data other m
    /\ StringRef.objects m' other = Some StringRef.null_object
    /\ StringRef.fresh m' = StringRef.fresh m
    /\ (forall t, t <> this -> t <> other ->
          StringRef.objects m' t = StringRef.objects m t
          /\ StringRef.chars t m' = StringRef.chars t m).
Proof.
  intros C Hvac Ho.
  destruct (move_members_spec this other o m) as (m' & E & C' & Hc & Hd & Hn & _ & Hfr).
  - now apply consistent_vacant.
  - intros ->. congruence.
  - exact Ho.
  - exists m'. split; [exact E |]. split; [exact C' |]. split; [exact Hc |].
    split; [exact Hd |]. split; [exact Hn |]. split; [| exact Hfr].
    unfold StringRef.move_construct, StringRef.move_members, StringRef.get_object in E.
    rewrite Ho in E. injection E as <-. reflexivity.
Qed.

Lemma move_assign_spec (this other : nat) (self o : StringRef.object)
  (m : StringRef.memory) :
  StringRef.consistent m -> StringRef.objects m this = Some self ->
  StringRef.objects m other = Some o -> this <> other ->
  exists m',
    StringRef.move_assign this other m = Ret m'
    /\ StringRef.consistent m'
    /\ StringRef.chars this m' = StringRef.chars other m
    /\ StringRef.data this m' = StringRef.data other m
    /\ StringRef.objects m' other = Some StringRef.null_object
    /\ StringRef.fresh m' = StringRef.fresh m
    /\ (forall t, t <> this -> t <> other ->
          StringRef.objects m' t = StringRef.objects m t
          /\ StringRef.chars t m' = StringRef.chars t m).
Proof.
  intros C Hself Ho Hne. unfold StringRef.move_assign.
  destruct (Nat.eqb_spec this other) as [-> | _]; [congruence |]. cbn [negb].
  unfold StringRef.get_object. rewrite Hself. cbn [obind].
  destruct (release_array m this self C Hself) as (m1 & E & C1 & Eo & Ef & Ea & _).
  rewrite E. cbn [obind].
  pose proof (others_after_release m m1 this self C Hself Eo Ea) as Hrel.
  destruct (move_members_spec this other o m1 C1 Hne) as (m' & E' & C' & Hc & Hd & Hn & _ & Hfr).
  { now rewrite Eo. }
  exists m'. split; [exact E' |]. split; [exact C' |]. split; [| split; [| split; [| split]]].
  - rewrite Hc. apply Hrel. congruence.
  - rewrite Hd. unfold StringRef.data, StringRef.get_object. now rewrite Eo.
  - exact Hn.
  - unfold StringRef.move_members, StringRef.get_object in E'.
    rewrite Eo, Ho in E'. injection E' as <-. exact Ef.
  - intros t H1 H2. destruct (Hfr t H1 H2) as [H3 H4]. destruct (Hrel t H1) as [H5 H6].
    split; congruence.
Qed.

(** *** The destructor *)

Lemma destroy_spec (this : nat) (self : StringRef.object) (m : StringRef.memory) :
  StringRef.consistent m -> StringRef.objects m this = Some self ->
  exists m',
    StringRef.destroy this m = Ret m'
    /\ StringRef.consistent m'
    /\ StringRef.objects m' this = None
    /\ (forall a, StringRef._data self = Some a -> StringRef.arrays m' a = None)
    /\ (forall t, t <> this ->
          StringRef.objects m' t = StringRef.objects m t
          /\ StringRef.chars t m' = StringRef.chars t m).
Proof.
  intros C Hself. unfold StringRef.destroy, StringRef.get_object.
  rewrite Hself. cbn [obind].
  destruct (release_array m this self C Hself) as (m1 & E & C1 & Eo & _ & Ea & Ed).
  rewrite E. cbn [obind].
  pose proof (others_after_release m m1 this self C Hself Eo Ea) as Hrel.
  eexists. split; [reflexivity |]. split; [exact C1 |]. split; [| split].
  - cbn [StringRef.objects StringRef.set_object]. apply update_same.
  - intros a Ha. cbn [StringRef.arrays StringRef.set_object]. now apply Ed.
  - intros t Ht. destruct (Hrel t Ht) as [H1 H2].
    assert (E1 : StringRef.objects (StringRef.set_object this None m1) t
                 = StringRef.objects m1 t) by now apply set_aside_other.
    split; [congruence |].
    rewrite <- H2. apply chars_frame; [exact E1 | reflexivity].
Qed.


(** *** Any permitted use *)

Lemma consistent_empty : StringRef.consistent StringRef.empty_memory.
Proof.
  constructor.
  - reflexivity.
  - intros this o H. discriminate.
  - intros this other o o' a H. discriminate.
  - intros a cells H. discriminate.
Qed.

Lemma perform_consistent (op : StringRef.operation) (m : StringRef.memory) :
  StringRef.consistent m -> StringRef.permitted op m = true ->
  exists m', StringRef.perform op m = Ret m' /\ StringRef.consistent m'.
Proof.
  intros C P. destruct op as [this | this data_ptr n | this other | this other
                              | this other | this other | this];
    cbn [StringRef.permitted StringRef.perform] in *.
  - apply negb_true_iff, not_alive_object in P.
    destruct (construct_any this None 0 m (consistent_vacant m this C P))
      as (m' & E & C' & _); [discriminate |].
    exists m'. split; assumption.
  - apply andb_true_iff in P. destruct P as [P1 P2].
    apply negb_true_iff, not_alive_object in P1.
    destruct (construct_any this data_ptr n m (consistent_vacant m this C P1))
      as (m' & E & C' & _).
    { intros src ->. now apply Nat.leb_le. }
    exists m'. split; assumption.
  - apply andb_true_iff in P. destruct P as [P1 P2].
    apply negb_true_iff, not_alive_object in P1.
    apply alive_object in P2. destruct P2 as [o Ho].
    destruct (copy_construct_spec this other o m C P1 Ho) as (m' & E & C' & _).
    exists m'. split; assumption.
  - apply andb_true_iff in P. destruct P as [P1 P2].
    apply alive_object in P1, P2. destruct P1 as [self Hs]. destruct P2 as [o Ho].
    destruct (copy_assign_spec this other self o m C Hs Ho) as (m' & E & C' & _).
    exists m'. split; assumption.
  - apply andb_true_iff in P. destruct P as [P1 P2].
    apply negb_true_iff, not_alive_object in P1.
    apply alive_object in P2. destruct P2 as [o Ho].
    destruct (move_construct_spec this other o m C P1 Ho) as (m' & E & C' & _).
    exists m'. split; assumption.
  - apply andb_true_iff in P. destruct P as [P1 P2].
    apply alive_object in P1, P2. destruct P1 as [self Hs]. destruct P2 as [o Ho].
    destruct (Nat.eq_dec this other) as [-> | Hne].
    + exists m. split; [| exact C]. unfold StringRef.move_assign.
      now rewrite Nat.eqb_refl.
    + destruct (move_assign_spec this other self o m C Hs Ho Hne) as (m' & E & C' & _).
      exists m'. split; assumption.
  - apply alive_object in P. destruct P as [self Hs].
    destruct (destroy_spec this self m C Hs) as (m' & E & C' & _).
    exists m'. split; assumption.
Qed.

Lemma perform_all_consistent (ops : list StringRef.operation) (m : StringRef.memory) :
  StringRef.consistent m -> StringRef.permitted_all ops m = true ->
  exists m', StringRef.perform_all ops m = Ret m' /\ StringRef.consistent m'.
Proof.
  revert m. induction ops as [|op ops IH]; intros m C P.
  - exists m. split; [reflexivity | exact C].
  - cbn [StringRef.permitted_all StringRef.perform_all] in *.
    apply andb_true_iff in P. destruct P as [P1 P2].
    destruct (perform_consistent op m C P1) as (m1 & E & C1).
    rewrite E in *. cbn [obind]. now apply IH.
Qed.

Lemma example_memory_consistent : StringRef.consistent StringRef.example_memory.
Proof.
  destruct (perform_all_consistent
              [ StringRef.Construct 0 (Some [ "h"; "i"; zero ]%char) 2;
                StringRef.Default 1 ]
              StringRef.empty_memory consistent_empty eq_refl) as (m' & E & C).
  unfold StringRef.example_memory. rewrite E. exact C.
Qed.

Lemma StringRef_constructors_witness :
  exists m',
    StringRef.construct_string 0 "hi" StringRef.empty_memory = Ret m'
    /\ StringRef.consistent m'
    /\ StringRef.chars 0 m' = Ret [ "h"; "i" ]%char
    /\ StringRef.size 0 m' = Ret 2.
Proof.
  destruct (StringRef_constructors 0 StringRef.empty_memory consistent_empty eq_refl)
    as (_ & _ & H & _).
  destruct (H "hi") as (m' & E & C & Hc & Hs & _).
  exists m'. split; [exact E |]. split; [exact C |]. split; [exact Hc | exact Hs].
Defined.

(** X17. Copies are deep.  In a consistent memory, copy construction (where
    no object is alive) and copy assignment (to a live object, itself
    included) from a live object are defined and keep the memory
    consistent; afterwards [this] holds the characters [other] held, no
    other object has changed, and the copy has an array of its own:
    destroying [other] next is defined and leaves the copy as it is. *)
Theorem StringRef_copy (this other : nat) (m : StringRef.memory) :
  StringRef.consistent m -> StringRef.alive other m = true ->
  let copied (result : outcome StringRef.memory) : Prop :=
    exists m',
      result = Ret m' /\ StringRef.consistent m'
      /\ StringRef.chars this m' = StringRef.chars other m
      /\ (forall t, t <> this ->
            StringRef.objects m' t = StringRef.objects m t
            /\ StringRef.chars t m' = StringRef.chars t m)
      /\ (this <> other ->
          exists m'',
            StringRef.destroy other m' = Ret m'' /\ StringRef.consistent m''
            /\ StringRef.chars this m'' = StringRef.chars other m) in
  (StringRef.alive this m = false -> copied (StringRef.copy_construct this other m))
  /\ (StringRef.alive this m = true -> copied (StringRef.copy_assign this other m)).
Proof.
  intros C Hother copied.
  apply alive_object in Hother. destruct Hother as [o Ho].
  assert (Deep : forall m',
             StringRef.consistent m' ->
             StringRef.chars this m' = StringRef.chars other m ->
             (forall t, t <> this ->
                StringRef.objects m' t = StringRef.objects m t
                /\ StringRef.chars t m' = StringRef.chars t m) ->
             this <> other ->
             exists m'',
               StringRef.destroy other m' = Ret m'' /\ StringRef.consistent m''
               /\ StringRef.chars this m'' = StringRef.chars other m).
  { intros m' C' Hc Hfr Hne.
    assert (Ho' : StringRef.objects m' other = Some o).
    { destruct (Hfr other) as [H _]; congruence. }
    destruct (destroy_spec other o m' C' Ho') as (m'' & E & C'' & _ & _ & Hfr').
    exists m''. split; [exact E |]. split; [exact C'' |].
    destruct (Hfr' this Hne) as [_ H]. congruence. }
  split.
  - intros Hvac. apply not_alive_object in Hvac.
    destruct (copy_construct_spec this other o m C Hvac Ho) as (m' & E & C' & Hc & Hfr).
    exists m'. split; [exact E |]. split; [exact C' |]. split; [exact Hc |].
    split; [exact Hfr | now apply Deep].
  - intros Hlive. apply alive_object in Hlive. destruct Hlive as [self Hs].
    destruct (copy_assign_spec this other self o m C Hs Ho) as (m' & E & C' & Hc & Hfr).
    exists m'. split; [exact E |]. split; [exact C' |]. split; [exact Hc |].
    split; [exact Hfr | now apply Deep].
Qed.

Lemma StringRef_copy_witness :
  exists m' m'',
    StringRef.copy_assign 1 0 StringRef.example_memory = Ret m'
    /\ StringRef.chars 1 m' = StringRef.chars 0 StringRef.example_memory
    /\ StringRef.destroy 0 m' = Ret m''
    /\ StringRef.chars 1 m'' = StringRef.chars 0 StringRef.example_memory.
Proof.
  destruct (StringRef_copy 1 0 StringRef.example_memory
              example_memory_consistent eq_refl) as [_ H].
  destruct (H eq_refl) as (m' & E & _ & Hc & _ & Hd).
  destruct (Hd ltac:(discriminate)) as (m'' & E' & _ & Hc').
  exists m', m''. repeat split; assumption.
Defined.

(** X18. Moves hand the array over.  In a consistent memory, move
    construction (where no object is alive) and move assignment (to a live
    object other than the source) from a live object are defined and keep
    the memory consistent; afterwards [this] holds the characters [other]
    held, in the very array [other] had, [other] is empty ([nullptr], size
    0), nothing was allocated, and no third object has changed.  Move
    assignment of an object to itself changes nothing. *)
Theorem StringRef_move (this other : nat) (m : StringRef.memory) :
  StringRef.consistent m -> StringRef.alive other m = true ->
  let moved (result : outcome StringRef.memory) : Prop :=
    exists m',
      result = Ret m' /\ StringRef.consistent m'
      /\ StringRef.chars this m' = StringRef.chars other m
      /\ StringRef.data this m' = StringRef.data other m
      /\ StringRef.chars other m' = Ret []
      /\ StringRef.data other m' = Ret None
      /\ StringRef.size other m' = Ret 0
      /\ StringRef.fresh m' = StringRef.fresh m
      /\ (forall t, t <> this -> t <> other ->
            StringRef.objects m' t = StringRef.objects m t
            /\ StringRef.chars t m' = StringRef.chars t m) in
  (StringRef.alive this m = false -> moved (StringRef.move_construct this other m))
  /\ (StringRef.alive this m = true -> this <> other ->
      moved (StringRef.move_assign this other m))
  /\ StringRef.move_assign other other m = Ret m.
Proof.
  intros C Hother moved.
  apply alive_object in Hother. destruct Hother as [o Ho].
  assert (Emptied : forall m', StringRef.objects m' other = Some StringRef.null_object ->
             StringRef.chars other m' = Ret []
             /\ StringRef.data other m' = Ret None
             /\ StringRef.size other m' = Ret 0).
  { intros m' H. unfold StringRef.chars, StringRef.data, StringRef.size,
      StringRef.get_object. rewrite H. repeat split. }
  split; [| split].
  - intros Hvac. apply not_alive_object in Hvac.
    destruct (move_construct_spec this other o m C Hvac Ho)
      as (m' & E & C' & Hc & Hd & Hn & Hf & Hfr).
    destruct (Emptied m' Hn) as (H1 & H2 & H3).
    exists m'. split; [exact E |]. split; [exact C' |]. split; [exact Hc |].
    split; [exact Hd |]. split; [exact H1 |]. split; [exact H2 |].
    split; [exact H3 |]. split; [exact Hf | exact Hfr].
  - intros Hlive Hne. apply alive_object in Hlive. destruct Hlive as [self Hs].
    destruct (move_assign_spec this other self o m C Hs Ho Hne)
      as (m' & E & C' & Hc & Hd & Hn & Hf & Hfr).
    destruct (Emptied m' Hn) as (H1 & H2 & H3).
    exists m'. split; [exact E |]. split; [exact C' |]. split; [exact Hc |].
    split; [exact Hd |]. split; [exact H1 |]. split; [exact H2 |].
    split; [exact H3 |]. split; [exact Hf | exact Hfr].
  - unfold StringRef.move_assign. now rewrite Nat.eqb_refl.
Qed.

Lemma StringRef_move_witness :
  exists m',
    StringRef.move_assign 1 0 StringRef.example_memory = Ret m'
    /\ StringRef.chars 1 m' = StringRef.chars 0 StringRef.example_memory
    /\ StringRef.chars 0 m' = Ret []
    /\ StringRef.fresh m' = StringRef.fresh StringRef.example_memory.
Proof.
  destruct (StringRef_move 1 0 StringRef.example_memory
              example_memory_consistent eq_refl) as (_ & H & _).
  destruct (H eq_refl ltac:(discriminate)) as (m' & E & _ & Hc & _ & He & _ & _ & Hf & _).
  exists m'. repeat split; assumption.
Defined.

(** X19. The destructor.  Destroying a live object of a consistent memory
    is defined, gives its array (if it has one) to [delete[]], ends the
    object, keeps the memory consistent and changes no other object. *)
Theorem StringRef_destructor (this : nat) (m : StringRef.memory) :
  StringRef.consistent m -> StringRef.alive this m = true ->
  exists m',
    StringRef.destroy this m = Ret m'
    /\ StringRef.consistent m'
    /\ StringRef.alive this m' = false
    /\ (forall a, StringRef.data this m = Ret (Some a) -> StringRef.arrays m' a = None)
    /\ (forall t, t <> this ->
          StringRef.objects m' t = StringRef.objects m t
          /\ StringRef.chars t m' = StringRef.chars t m).
Proof.
  intros C Hlive. apply alive_object in Hlive. destruct Hlive as [self Hs].
  destruct (destroy_spec this self m C Hs) as (m' & E & C' & Hn & Ha & Hfr).
  exists m'. split; [exact E |]. split; [exact C' |]. split; [| split].
  - unfold StringRef.alive. now rewrite Hn.
  - intros a Hd. apply Ha.
    unfold StringRef.data, StringRef.get_object in Hd. rewrite Hs in Hd.
    cbn [obind] in Hd. now injection Hd.
  - exact Hfr.
Qed.

Lemma StringRef_destructor_witness :
  exists m',
    StringRef.destroy 0 StringRef.example_memory = Ret m'
    /\ StringRef.alive 0 m' = false
    /\ StringRef.arrays m' 0 = None
    /\ StringRef.chars 1 m' = StringRef.chars 1 StringRef.example_memory.
Proof.
  destruct (StringRef_destructor 0 StringRef.example_memory
              example_memory_consistent eq_refl) as (m' & E & _ & Hn & Ha & Hfr).
  exists m'. split; [exact E |]. split; [exact Hn |]. split.
  - apply Ha. reflexivity.
  - apply Hfr. discriminate.
Defined.

(** X20. Any use of the class that respects the lifetimes of its objects is
    defined and leaks nothing: starting from the empty memory, a sequence of
    constructions, copies, moves, assignments and destructions, each
    permitted where it is performed, never reads or frees an array that is
    not live, keeps the memory consistent, and when all objects have been
    destroyed no array is left. *)
Theorem StringRef_lifetimes (ops : list StringRef.operation) :
  StringRef.permitted_all ops StringRef.empty_memory = true ->
  exists m',
    StringRef.perform_all ops StringRef.empty_memory = Ret m'
    /\ StringRef.consistent m'
    /\ ((forall t, StringRef.alive t m' = false) ->
        forall a, StringRef.arrays m' a = None).
Proof.
  intros P.
  destruct (perform_all_consistent ops StringRef.empty_memory consistent_empty P)
    as (m' & E & C).
  exists m'. split; [exact E |]. split; [exact C |].
  intros Hdead a. destruct (StringRef.arrays m' a) as [cells|] eqn:Ha; [| reflexivity].
  destruct (StringRef.not_leaked m' C a cells Ha) as (t & o & Ho & _).
  specialize (Hdead t). unfold StringRef.alive in Hdead. rewrite Ho in Hdead.
  discriminate.
Qed.

Lemma StringRef_lifetimes_witness :
  exists m',
    StringRef.perform_all
      [ StringRef.Construct 0 (Some [ "h"; "i"; zero ]%char) 2;
        StringRef.CopyConstruct 1 0;
        StringRef.Default 2;
        StringRef.MoveAssign 2 0;
        StringRef.CopyAssign 1 1;
        StringRef.Destroy 0;
        StringRef.CopyAssign 2 1;
        StringRef.Destroy 1;
        StringRef.Destroy 2 ]
      StringRef.empty_memory = Ret m'
    /\ StringRef.consistent m'.
Proof.
  destruct (StringRef_lifetimes
              [ StringRef.Construct 0 (Some [ "h"; "i"; zero ]%char) 2;
                StringRef.CopyConstruct 1 0;
                StringRef.Default 2;
                StringRef.MoveAssign 2 0;
                StringRef.CopyAssign 1 1;
                StringRef.Destroy 0;
                StringRef.CopyAssign 2 1;
                StringRef.Destroy 1;
                StringRef.Destroy 2 ] eq_refl) as (m' & E & C & _).
  exists m'. split; assumption.
Defined.

End StringRefOperations.
